(** * Israeli finance dashboard: the database layer (db.js)

    A shallow embedding of the month-attribution, aggregation, budget and
    classification functions of [db.js], and the proofs of the properties
    the specification states about them.

    Modelling conventions.
    - A table is the list of its rows; the primary key of [transactions]
      is the field [id].
    - Text is a [string] holding the UTF-8 bytes of the JavaScript string.
      All the patterns of the code are Hebrew words of the Basic
      Multilingual Plane, for which [String.prototype.includes] on UTF-16
      code units and the byte-wise substring test below agree.
    - Amounts are integer agorot (column [amount INTEGER]); they are
      modelled as [Z].  JavaScript adds them as doubles, which is exact
      below 2^53.
    - A date is the text [YYYY-MM-DD] the scraper builds from the local
      date parts; it is modelled by its three numeric fields.  SQLite
      compares this text byte-wise, which for four-digit years and
      two-digit months and days is the lexicographic order on the fields;
      [new Date(text)] followed by [getFullYear], [getMonth() + 1] and
      [getDate] gives the fields back in any time zone at or east of UTC
      (the application runs in Israel or in a UTC container).
    - The column [scraped_at] and the rule column [id] do not take part in
      any computation and are left out.
    - The engine is better-sqlite3, which enforces the constraints of the
      schema, the foreign key of [category_rules] included. *)

From Stdlib Require Import String Ascii DecimalString DecimalPos.
From Stdlib Require Import ZArith List Bool Lia Permutation Sorted.
Import ListNotations.
Local Open Scope string_scope.
Local Open Scope list_scope.
Local Open Scope Z_scope.

Set Implicit Arguments.

(** ** Text *)

(** [text.includes(p)]. *)
Fixpoint includes (text p : string) : bool :=
  prefix p text ||
  match text with
  | EmptyString => false
  | String _ rest => includes rest p
  end.

(** JavaScript truthiness of a string: only the empty string is falsy. *)
Definition truthy (s : string) : bool := negb (s =? "")%string.

(** Truthiness of a value that may be [null]. *)
Definition truthy_opt (o : option string) : bool :=
  match o with
  | Some s => truthy s
  | None => false
  end.

(** [x || ''] *)
Definition or_empty (o : option string) : string :=
  match o with
  | Some s => if truthy s then s else ""
  | None => ""
  end.

(** ** Dates *)

Record date := mkDate { d_year : Z; d_month : Z; d_day : Z }.

(** [a <= b] on the date text. *)
Definition date_leb (a b : date) : bool :=
  (d_year a <? d_year b) ||
  ((d_year a =? d_year b) &&
   ((d_month a <? d_month b) ||
    ((d_month a =? d_month b) && (d_day a <=? d_day b)))).

(** The dates the scraper produces. *)
Definition valid_date (d : date) : Prop :=
  1 <= d_month d <= 12 /\ 1 <= d_day d <= 31.

(** ** Rows *)

Inductive txn_type := income_t | expense_t.

Record transaction := mkTxn {
  id : string;
  date_of : date;
  amount : Z;
  description : string;
  memo : string;
  account : string;
  type : txn_type;
  category_id : option string;
  is_transfer : bool;
  is_investment : bool;
  user_comment : option string;
  is_occasional_income : bool
}.

Record category := mkCategory {
  c_id : string;
  c_name : string;
  c_color : string
}.

Record category_rule := mkRule {
  description_pattern : string;
  rule_category_id : string
}.

Record database := mkDb {
  transactions : list transaction;
  categories : list category;
  category_rules : list category_rule;
  settings : list (string * string)
}.

(** ** Salary and credit-card patterns *)

Definition SALARY_PATTERNS : list string :=
  [ "משכורת"; "שכר"; "זיכוי מלאומי"; "העברת משכורת" ].

Definition CREDIT_CARD_PATTERNS : list string :=
  [ "מסטרקרד"; "ויזה"; "כרטיסי אשראי"; "ישראכרט";
    "אמריקן אקספרס"; "דיינרס"; "לאומי קארד" ].

Definition isSalaryTransaction (description : string) (amount : Z) : bool :=
  if amount <=? 0 then false
  else if negb (truthy description) then false
  else existsb (fun p => includes description p) SALARY_PATTERNS.

Definition isCreditCardTransaction (description : string) : bool :=
  if negb (truthy description) then false
  else existsb (fun p => includes description p) CREDIT_CARD_PATTERNS.

(** ** Month attribution *)

Definition BILL_CUTOFF_DAY : Z := 3.

(** [ORDER BY date DESC]: insertion of a row into a list sorted by date,
    latest first. *)
Fixpoint insert_by_date_desc (t : transaction) (l : list transaction)
  : list transaction :=
  match l with
  | [] => [t]
  | u :: r =>
      if date_leb (date_of u) (date_of t) then t :: l
      else u :: insert_by_date_desc t r
  end.

Definition order_by_date_desc (l : list transaction) : list transaction :=
  fold_right insert_by_date_desc [] l.

(** The month after [month] of [year]. *)
Definition next_month (year month : Z) : Z * Z :=
  let nextMonth := month + 1 in
  if nextMonth >? 12 then (year + 1, 1) else (year, nextMonth).

(** The callback of the [filter] in [getTransactionsByIsraeliMonth]. *)
Definition israeli_month_filter (year month : Z) (txn : transaction) : bool :=
  let '(nextYear, nextMonth) := next_month year month in
  let txnMonth := d_month (date_of txn) in
  let txnDay := d_day (date_of txn) in
  let txnYear := d_year (date_of txn) in
  let isTargetMonth := (txnYear =? year) && (txnMonth =? month) in
  let isEarlyNextMonth :=
    ((txnYear =? nextYear) && (txnMonth =? nextMonth)
       && (txnDay <=? BILL_CUTOFF_DAY))
    || ((nextMonth =? 1) && (txnYear =? nextYear) && (txnMonth =? 1)
          && (txnDay <=? BILL_CUTOFF_DAY)) in
  if isTargetMonth then
    if txnDay <=? BILL_CUTOFF_DAY then
      let isSalary := isSalaryTransaction (description txn) (amount txn) in
      let isCC := isCreditCardTransaction (description txn) in
      negb isSalary && negb isCC
    else true
  else if isEarlyNextMonth then
    let isSalary := isSalaryTransaction (description txn) (amount txn) in
    let isCC := isCreditCardTransaction (description txn) in
    isSalary || isCC
  else false.

Definition getTransactionsByIsraeliMonth (db : database) (year month : Z)
  : list transaction :=
  let monthStart := mkDate year month 1 in
  let '(nextYear, nextMonth) := next_month year month in
  let earlyNextMonthEnd := mkDate nextYear nextMonth 10 in
  let allTransactions :=
    order_by_date_desc
      (filter (fun t => date_leb monthStart (date_of t)
                        && date_leb (date_of t) earlyNextMonthEnd)
              (transactions db)) in
  filter (israeli_month_filter year month) allTransactions.

(** ** JavaScript objects used as dictionaries

    An object with string keys is the list of its entries in insertion
    order, which is the order [Object.entries] walks them in.  The keys of
    the code are category ids, made by [createCategory] as [cat-...], and
    ['uncategorized']: none is an array index or a name inherited from
    [Object.prototype]. *)

Section Objects.
Variable V : Type.

(** [o[k]], [None] for [undefined]. *)
Fixpoint obj_get (o : list (string * V)) (k : string) : option V :=
  match o with
  | [] => None
  | (k', v) :: rest => if (k' =? k)%string then Some v else obj_get rest k
  end.

(** [o[k] = v]: an existing key keeps its place, a new key goes last. *)
Fixpoint obj_set (o : list (string * V)) (k : string) (v : V)
  : list (string * V) :=
  match o with
  | [] => [(k, v)]
  | (k', v') :: rest =>
      if (k' =? k)%string then (k', v) :: rest
      else (k', v') :: obj_set rest k v
  end.
End Objects.

(** ** Monthly summary *)

Module Bucket.
Record t := mk {
    income : Z;
    expenses : Z;
    transactions : list transaction
  }.
End Bucket.

Module Summary.
Record t := mk {
    year : Z;
    month : Z;
    income : Z;
    expenses : Z;
    balance : Z;
    transfersIn : Z;
    transfersOut : Z;
    transfersNet : Z;
    investmentTotal : Z;
    transactionCount : nat;
    transactions : list transaction;
    transfers : list transaction;
    investments : list transaction;
    byCategory : list (string * Bucket.t)
  }.
End Summary.

(** The variables of the first loop of [getMonthlySummary]. *)
Record split_state := mkSplit {
  st_income : Z;
  st_expenses : Z;
  st_transfersIn : Z;
  st_transfersOut : Z;
  st_investmentTotal : Z;
  st_transactions : list transaction;
  st_transfers : list transaction;
  st_investments : list transaction
}.

Definition split_init : split_state := mkSplit 0 0 0 0 0 [] [] [].

(** One iteration of [for (const txn of allTransactions)]. *)
Definition split_step (st : split_state) (txn : transaction) : split_state :=
  if is_transfer txn then
    let transfers := st_transfers st ++ [txn] in
    if amount txn >? 0 then
      mkSplit (st_income st) (st_expenses st)
              (st_transfersIn st + amount txn) (st_transfersOut st)
              (st_investmentTotal st)
              (st_transactions st) transfers (st_investments st)
    else
      mkSplit (st_income st) (st_expenses st)
              (st_transfersIn st) (st_transfersOut st + Z.abs (amount txn))
              (st_investmentTotal st)
              (st_transactions st) transfers (st_investments st)
  else if is_investment txn then
    mkSplit (st_income st) (st_expenses st)
            (st_transfersIn st) (st_transfersOut st)
            (st_investmentTotal st + Z.abs (amount txn))
            (st_transactions st) (st_transfers st) (st_investments st ++ [txn])
  else
    let transactions := st_transactions st ++ [txn] in
    if amount txn >? 0 then
      mkSplit (st_income st + amount txn) (st_expenses st)
              (st_transfersIn st) (st_transfersOut st)
              (st_investmentTotal st)
              transactions (st_transfers st) (st_investments st)
    else
      mkSplit (st_income st) (st_expenses st + Z.abs (amount txn))
              (st_transfersIn st) (st_transfersOut st)
              (st_investmentTotal st)
              transactions (st_transfers st) (st_investments st).

(** [txn.category_id || 'uncategorized'] *)
Definition catId_of (txn : transaction) : string :=
  if truthy_opt (category_id txn) then or_empty (category_id txn)
  else "uncategorized".

(** One iteration of [for (const txn of transactions)], the grouping by
    category. *)
Definition group_step (byCategory : list (string * Bucket.t))
    (txn : transaction) : list (string * Bucket.t) :=
  let catId := catId_of txn in
  let byCategory :=
    match obj_get byCategory catId with
    | None => obj_set byCategory catId (Bucket.mk 0 0 [])
    | Some _ => byCategory
    end in
  match obj_get byCategory catId with
  | None => byCategory
  | Some b =>
      let b :=
        if amount txn >? 0 then
          Bucket.mk (Bucket.income b + amount txn) (Bucket.expenses b)
                    (Bucket.transactions b)
        else
          Bucket.mk (Bucket.income b) (Bucket.expenses b + Z.abs (amount txn))
                    (Bucket.transactions b) in
      obj_set byCategory catId
        (Bucket.mk (Bucket.income b) (Bucket.expenses b)
                   (Bucket.transactions b ++ [txn]))
  end.

Definition getMonthlySummary (db : database) (year month : Z) : Summary.t :=
  let allTransactions := getTransactionsByIsraeliMonth db year month in
  let st := fold_left split_step allTransactions split_init in
  let byCategory := fold_left group_step (st_transactions st) [] in
  Summary.mk year month
    (st_income st) (st_expenses st) (st_income st - st_expenses st)
    (st_transfersIn st) (st_transfersOut st)
    (st_transfersIn st - st_transfersOut st)
    (st_investmentTotal st)
    (length (st_transactions st))
    (st_transactions st) (st_transfers st) (st_investments st)
    byCategory.

(** ** Category averages *)

(** [month--; if (month < 1) { month = 12; year--; }] *)
Definition prev_month (year month : Z) : Z * Z :=
  let month := month - 1 in
  if month <? 1 then (year - 1, 12) else (year, month).

(** [Math.round(a / b)] for a positive divisor: the integer nearest to the
    quotient, a half rounding up. *)
Definition round_div (a b : Z) : Z := (2 * a + b) / (2 * b).

(** The array [totals] after the loop of [getCategoryAverage]. *)
Fixpoint category_totals (db : database) (categoryId : string)
    (year month : Z) (numMonths : nat) : list Z :=
  match numMonths with
  | O => []
  | S n =>
      let '(year, month) := prev_month year month in
      let summary := getMonthlySummary db year month in
      let categoryTotal :=
        match obj_get (Summary.byCategory summary) categoryId with
        | Some catData => Bucket.expenses catData
        | None => 0
        end in
      categoryTotal :: category_totals db categoryId year month n
  end.

Definition getCategoryAverage (db : database) (categoryId : string)
    (currentYear currentMonth : Z) (numMonths : nat) : Z :=
  let totals := category_totals db categoryId currentYear currentMonth numMonths in
  let nonZeroTotals := filter (fun t => t >? 0) totals in
  if (length nonZeroTotals =? 0)%nat then 0
  else
    let sum := fold_left Z.add nonZeroTotals 0 in
    round_div sum (Z.of_nat (length nonZeroTotals)).

(** [ORDER BY name] *)
Fixpoint insert_by_name (c : category) (l : list category) : list category :=
  match l with
  | [] => [c]
  | u :: r =>
      if (c_name c <=? c_name u)%string then c :: l
      else u :: insert_by_name c r
  end.

Definition getCategories (db : database) : list category :=
  fold_right insert_by_name [] (categories db).

Definition getAllCategoryAverages (db : database) (currentYear currentMonth : Z)
  : list (string * Z) :=
  let averages :=
    fold_left
      (fun averages cat =>
         obj_set averages (c_id cat)
           (getCategoryAverage db (c_id cat) currentYear currentMonth 3))
      (getCategories db) [] in
  obj_set averages "uncategorized"
    (getCategoryAverage db "uncategorized" currentYear currentMonth 3).

(** ** Settings *)

(** [String(n)] for an integer. *)
Definition string_of_Z (n : Z) : string := NilZero.string_of_int (Z.to_int n).

Definition is_digit (c : ascii) : bool :=
  let n := Z.of_nat (nat_of_ascii c) in (48 <=? n) && (n <=? 57).

Definition digit_value (c : ascii) : Z := Z.of_nat (nat_of_ascii c) - 48.

Definition is_space (c : ascii) : bool :=
  let n := Z.of_nat (nat_of_ascii c) in
  (n =? 32) || ((9 <=? n) && (n <=? 13)).

Fixpoint skip_spaces (s : string) : string :=
  match s with
  | String c rest => if is_space c then skip_spaces rest else s
  | EmptyString => s
  end.

(** The longest prefix of decimal digits, [None] when there is none. *)
Fixpoint parse_digits (s : string) (acc : option Z) : option Z :=
  match s with
  | String c rest =>
      if is_digit c then
        parse_digits rest
          (Some (10 * match acc with Some a => a | None => 0 end
                 + digit_value c))
      else acc
  | EmptyString => acc
  end.

(** [parseInt(s)] on the decimal text the setters store ([String(amount)]):
    leading blanks, an optional sign, then digits; [None] stands for [NaN].
    Radix prefixes never occur in stored values and are not modelled. *)
Definition parseInt (s : string) : option Z :=
  match skip_spaces s with
  | String "-" rest => option_map Z.opp (parse_digits rest None)
  | String "+" rest => parse_digits rest None
  | s' => parse_digits s' None
  end.

(** [parseInt(s) || 0] *)
Definition parseInt_or_0 (s : string) : Z :=
  match parseInt s with
  | Some n => n
  | None => 0
  end.

(** [SELECT value FROM settings WHERE key = ?], [None] for no row. *)
Definition select_setting (db : database) (key : string) : option string :=
  obj_get (settings db) key.

Definition getSetting (db : database) (key : string)
    (defaultValue : option string) : option string :=
  match select_setting db key with
  | Some value => Some value
  | None => defaultValue
  end.

(** [year && month] on numbers that may be [null]. *)
Definition truthy_num (o : option Z) : bool :=
  match o with
  | Some n => negb (n =? 0)
  | None => false
  end.

(** [String(n)] inside a template literal, for a number that may be [null]. *)
Definition template_num (o : option Z) : string :=
  match o with
  | Some n => string_of_Z n
  | None => "null"
  end.

Definition getDefaultSavingsGoal (db : database) : Z :=
  match getSetting db "savings_goal" (Some "0") with
  | Some value => parseInt_or_0 value
  | None => 0
  end.

(** The fall-back of [getSavingsGoal] repeats the body of
    [getDefaultSavingsGoal]. *)
Definition getSavingsGoal (db : database) (year month : option Z) : Z :=
  if truthy_num year && truthy_num month then
    let monthKey :=
      ("savings_goal_" ++ template_num year ++ "_" ++ template_num month)%string in
    match getSetting db monthKey None with
    | Some monthValue => parseInt_or_0 monthValue
    | None => getDefaultSavingsGoal db
    end
  else getDefaultSavingsGoal db.

Definition getExpectedIncome (db : database) : Z :=
  match getSetting db "expected_income" (Some "0") with
  | Some value => parseInt_or_0 value
  | None => 0
  end.

(** ** Regular and occasional income *)

(** The loop of [getRegularIncomeForMonth] and of
    [getAverageRegularIncome] over [summary.transactions]. *)
Definition regular_income_step (regularIncome : Z) (txn : transaction) : Z :=
  if (amount txn >? 0) && negb (is_occasional_income txn)
  then regularIncome + amount txn
  else regularIncome.

Definition occasional_income_step (occasionalIncome : Z) (txn : transaction)
  : Z :=
  if (amount txn >? 0) && is_occasional_income txn
  then occasionalIncome + amount txn
  else occasionalIncome.

Definition getRegularIncomeForMonth (db : database) (year month : Z) : Z :=
  let summary := getMonthlySummary db year month in
  fold_left regular_income_step (Summary.transactions summary) 0.

Definition getOccasionalIncomeForMonth (db : database) (year month : Z) : Z :=
  let summary := getMonthlySummary db year month in
  fold_left occasional_income_step (Summary.transactions summary) 0.

(** The array [incomes] after the loop of [getAverageRegularIncome]. *)
Fixpoint regular_incomes (db : database) (year month : Z) (numMonths : nat)
  : list Z :=
  match numMonths with
  | O => []
  | S n =>
      let '(year, month) := prev_month year month in
      let summary := getMonthlySummary db year month in
      let regularIncome :=
        fold_left regular_income_step (Summary.transactions summary) 0 in
      if regularIncome >? 0
      then regularIncome :: regular_incomes db year month n
      else regular_incomes db year month n
  end.

Definition getAverageRegularIncome (db : database)
    (currentYear currentMonth : Z) (numMonths : nat) : Z :=
  let incomes := regular_incomes db currentYear currentMonth numMonths in
  if (length incomes =? 0)%nat then 0
  else
    let sum := fold_left Z.add incomes 0 in
    round_div sum (Z.of_nat (length incomes)).

(** ** Available budget *)

(** The returned object without [breakdown], which repeats six of the
    fields under other names. *)
Module Budget.
Record t := mk {
    income : Z;
    actualIncome : Z;
    expectedIncome : Z;
    expectedRegularIncome : Z;
    actualRegularIncome : Z;
    actualOccasionalIncome : Z;
    userExpectedIncome : Z;
    averageIncome : Z;
    savingsGoal : Z;
    fixedExpenses : Z;
    availableForVariable : Z;
    variableActual : Z;
    remainingForVariable : Z
  }.
End Budget.

Definition VARIABLE_EXPENSES_NAME : string := "הוצאות משתנות".

(** [Math.max(actualRegularIncome, userExpectedIncome, averageRegularIncome)] *)
Definition expected_regular_income
    (actualRegularIncome userExpectedIncome averageRegularIncome : Z) : Z :=
  Z.max (Z.max actualRegularIncome userExpectedIncome) averageRegularIncome.

(** [expectedRegularIncome + actualOccasionalIncome] *)
Definition expected_income
    (actualRegularIncome userExpectedIncome averageRegularIncome
     actualOccasionalIncome : Z) : Z :=
  expected_regular_income actualRegularIncome userExpectedIncome
    averageRegularIncome
  + actualOccasionalIncome.

(** [catId === variableCategoryId], the right side possibly [null]. *)
Definition is_variable_category (catId : string)
    (variableCategoryId : option string) : bool :=
  match variableCategoryId with
  | Some v => (catId =? v)%string
  | None => false
  end.

(** [averages[catId] || 0] *)
Definition average_or_0 (averages : list (string * Z)) (catId : string) : Z :=
  match obj_get averages catId with
  | Some a => a
  | None => 0
  end.

(** One iteration of the loop over [Object.entries(summary.byCategory)];
    the state is the pair of [fixedExpenses] and [variableActual]. *)
Definition fixed_step (averages : list (string * Z))
    (variableCategoryId : option string)
    (st : Z * Z) (entry : string * Bucket.t) : Z * Z :=
  let '(fixedExpenses, variableActual) := st in
  let '(catId, data) := entry in
  if is_variable_category catId variableCategoryId then
    (fixedExpenses, Bucket.expenses data)
  else
    let actual := Bucket.expenses data in
    let average := average_or_0 averages catId in
    (fixedExpenses + Z.max actual average, variableActual).

Definition calculateAvailableBudget (db : database) (year month : Z)
  : Budget.t :=
  let summary := getMonthlySummary db year month in
  let averages := getAllCategoryAverages db year month in
  let savingsGoal := getSavingsGoal db (Some year) (Some month) in
  let actualRegularIncome := getRegularIncomeForMonth db year month in
  let userExpectedIncome := getExpectedIncome db in
  let averageRegularIncome := getAverageRegularIncome db year month 3 in
  let actualOccasionalIncome := getOccasionalIncomeForMonth db year month in
  let expectedRegularIncome :=
    expected_regular_income actualRegularIncome userExpectedIncome
      averageRegularIncome in
  let expectedIncome :=
    expected_income actualRegularIncome userExpectedIncome
      averageRegularIncome actualOccasionalIncome in
  let income := expectedIncome in
  let actualIncome := Summary.income summary in
  let variableCategory :=
    find (fun c => (c_name c =? VARIABLE_EXPENSES_NAME)%string)
         (getCategories db) in
  let variableCategoryId := option_map c_id variableCategory in
  let '(fixedExpenses, variableActual) :=
    fold_left (fixed_step averages variableCategoryId)
              (Summary.byCategory summary) (0, 0) in
  let availableForVariable := income - savingsGoal - fixedExpenses in
  let remainingForVariable := availableForVariable - variableActual in
  Budget.mk income actualIncome expectedIncome expectedRegularIncome
    actualRegularIncome actualOccasionalIncome userExpectedIncome
    averageRegularIncome savingsGoal fixedExpenses availableForVariable
    variableActual remainingForVariable.

(** ** Year-to-date summary *)

Module Ytd.
Record t := mk {
    year : Z;
    income : Z;
    expenses : Z;
    balance : Z;
    investmentTotal : Z;
    transactionCount : nat
  }.
End Ytd.

(** [belongsToYear] for one row. *)
Definition belongsToYear (txn : transaction) : Z :=
  let txnYear := d_year (date_of txn) in
  let txnMonth := d_month (date_of txn) in
  let txnDay := d_day (date_of txn) in
  let isEarlyJan := (txnMonth =? 1) && (txnDay <=? 3) in
  if isEarlyJan then
    let isSalary := isSalaryTransaction (description txn) (amount txn) in
    let isCC := isCreditCardTransaction (description txn) in
    if isSalary || isCC then txnYear - 1 else txnYear
  else txnYear.

(** The variables of the loop of [getYearToDateSummary]. *)
Record ytd_state := mkYtdState {
  y_income : Z;
  y_expenses : Z;
  y_investmentTotal : Z;
  y_count : nat
}.

Definition ytd_step (year : Z) (st : ytd_state) (txn : transaction)
  : ytd_state :=
  if belongsToYear txn =? year then
    let count := S (y_count st) in
    if is_investment txn then
      mkYtdState (y_income st) (y_expenses st)
                 (y_investmentTotal st + Z.abs (amount txn)) count
    else if amount txn >? 0 then
      mkYtdState (y_income st + amount txn) (y_expenses st)
                 (y_investmentTotal st) count
    else
      mkYtdState (y_income st) (y_expenses st + Z.abs (amount txn))
                 (y_investmentTotal st) count
  else st.

(** The rows of the [SELECT] of [getYearToDateSummary]. *)
Definition ytd_rows (db : database) (year : Z) : list transaction :=
  let earlyThisYear := mkDate year 1 1 in
  let endDate := mkDate (year + 1) 1 3 in
  filter (fun t => date_leb earlyThisYear (date_of t)
                   && date_leb (date_of t) endDate
                   && negb (is_transfer t))
         (transactions db).

Definition getYearToDateSummary (db : database) (year : Z) : Ytd.t :=
  let allTxns := ytd_rows db year in
  let st := fold_left (ytd_step year) allTxns (mkYtdState 0 0 0 0) in
  Ytd.mk year (y_income st) (y_expenses st) (y_income st - y_expenses st)
         (y_investmentTotal st) (y_count st).

(** ** Writes *)

(** [UPDATE transactions SET ... WHERE id = ?]: [f] is applied to every row
    with the given id. *)
Definition update_where_id (f : transaction -> transaction)
    (transactionId : string) (rows : list transaction) : list transaction :=
  map (fun t => if (id t =? transactionId)%string then f t else t) rows.

Definition with_transactions (db : database) (rows : list transaction)
  : database :=
  mkDb rows (categories db) (category_rules db) (settings db).

Definition with_category_rules (db : database) (rules : list category_rule)
  : database :=
  mkDb (transactions db) (categories db) rules (settings db).

(** [SELECT ... FROM transactions WHERE id = ?] read with [get]: the first
    row, [None] when there is none. *)
Definition select_by_id (db : database) (transactionId : string)
  : option transaction :=
  find (fun t => (id t =? transactionId)%string) (transactions db).

Definition set_investment (b : bool) (t : transaction) : transaction :=
  mkTxn (id t) (date_of t) (amount t) (description t) (memo t) (account t)
        (type t) (category_id t) false b (user_comment t)
        (is_occasional_income t).

(** [UPDATE transactions SET is_investment = ?, is_transfer = 0 WHERE id = ?] *)
Definition setTransactionInvestment (db : database) (transactionId : string)
    (isInvestment : bool) : database :=
  with_transactions db
    (update_where_id (set_investment isInvestment) transactionId
       (transactions db)).

Definition set_category (c : option string) (t : transaction) : transaction :=
  mkTxn (id t) (date_of t) (amount t) (description t) (memo t) (account t)
        (type t) c (is_transfer t) (is_investment t) (user_comment t)
        (is_occasional_income t).

(** [category_id IS NULL OR category_id = ''] *)
Definition uncategorized (t : transaction) : bool :=
  match category_id t with
  | None => true
  | Some c => (c =? "")%string
  end.

(** [INSERT INTO category_rules ... ON CONFLICT(description_pattern) DO
    UPDATE SET category_id = ?] *)
Fixpoint upsert_rule (rules : list category_rule) (pattern categoryId : string)
  : list category_rule :=
  match rules with
  | [] => [mkRule pattern categoryId]
  | r :: rest =>
      if (description_pattern r =? pattern)%string
      then mkRule pattern categoryId :: rest
      else r :: upsert_rule rest pattern categoryId
  end.

(** [UPDATE transactions SET category_id = ? WHERE description = ? AND
    (category_id IS NULL OR category_id = '')] *)
Definition apply_rule (categoryId pattern : string) (rows : list transaction)
  : list transaction :=
  map (fun t =>
         if (description t =? pattern)%string && uncategorized t
         then set_category (Some categoryId) t else t)
      rows.

(** [DELETE FROM category_rules WHERE description_pattern = ?] *)
Definition delete_rule (pattern : string) (rules : list category_rule)
  : list category_rule :=
  filter (fun r => negb (description_pattern r =? pattern)%string) rules.

(** What a call that writes leaves behind.  Outside [db.transaction] every
    statement is committed as it runs: when a later statement throws, what
    the statements before it wrote stays written. *)
Inductive completion :=
  | Returned (db : database)
  | Threw (db : database).

Definition store_of (r : completion) : database :=
  match r with
  | Returned db => db
  | Threw db => db
  end.

(** [ruleStmt.run].  The column [category_rules.category_id] is declared
    [FOREIGN KEY (category_id) REFERENCES categories(id)] and the engine
    enforces it: the statement throws, on the [INSERT] as on the [UPDATE]
    of the conflict clause, when the category id is not stored.  [None]
    stands for the throw. *)
Definition insert_rule (db : database) (pattern categoryId : string)
  : option database :=
  if existsb (fun c => (c_id c =? categoryId)%string) (categories db)
  then Some (with_category_rules db
               (upsert_rule (category_rules db) pattern categoryId))
  else None.

Definition setTransactionCategory (db : database) (transactionId : string)
    (categoryId : option string) : completion :=
  let db :=
    with_transactions db
      (update_where_id (set_category categoryId) transactionId
         (transactions db)) in
  let txn := select_by_id db transactionId in
  let ruled :=
    match txn, categoryId with
    | Some t, Some c =>
        if truthy (description t) && truthy c then
          match insert_rule db (description t) c with
          | Some db =>
              Returned
                (with_transactions db
                   (apply_rule c (description t) (transactions db)))
          | None => Threw db
          end
        else Returned db
    | _, _ => Returned db
    end in
  match ruled with
  | Threw db => Threw db
  | Returned db =>
      if negb (truthy_opt categoryId) && truthy transactionId then
        let txnForRule := select_by_id db transactionId in
        match txnForRule with
        | Some t =>
            if truthy (description t) then
              Returned
                (with_category_rules db
                   (delete_rule (description t) (category_rules db)))
            else Returned db
        | None => Returned db
        end
      else Returned db
  end.

(** *** Ingestion *)

(** A record of the batch the scraper hands over. *)
Record scraped := mkScraped {
  r_id : string;
  r_date : date;
  r_amount : Z;
  r_description : option string;
  r_memo : option string
}.

Definition TRANSFER_PATTERNS : list string := [ "כרטיסי אשראי ל" ].

Definition type_of_amount (a : Z) : txn_type :=
  if a >? 0 then income_t else expense_t.

Section Ingestion.
(** [String.prototype.toLowerCase], the Unicode case mapping. *)
Variable toLowerCase : string -> string.

Definition isTransfer (description : option string) : bool :=
  match description with
  | None => false
  | Some d =>
      if negb (truthy d) then false
      else
        let lower := toLowerCase d in
        existsb (fun p => includes d p || includes lower (toLowerCase p))
                TRANSFER_PATTERNS
  end.

(** [updateStmt.run]: the columns [category_id], [is_transfer],
    [is_investment], [user_comment] and [is_occasional_income] are not in
    the [SET] list. *)
Definition update_row (txn : scraped) (account : string) (t : transaction)
  : transaction :=
  mkTxn (id t) (r_date txn) (r_amount txn)
        (or_empty (r_description txn)) (or_empty (r_memo txn)) account
        (type_of_amount (r_amount txn))
        (category_id t) (is_transfer t) (is_investment t) (user_comment t)
        (is_occasional_income t).

(** The row [insertStmt.run] writes; the columns it does not list take
    their defaults. *)
Definition new_row (txn : scraped) (account : string) : transaction :=
  let transfer := isTransfer (r_description txn) in
  mkTxn (r_id txn) (r_date txn) (r_amount txn)
        (or_empty (r_description txn)) (or_empty (r_memo txn)) account
        (type_of_amount (r_amount txn))
        None transfer false None false.

(** [INSERT INTO transactions]: fails on a primary key already present. *)
Definition insert_row (db : database) (row : transaction) : option database :=
  if existsb (fun t => (id t =? id row)%string) (transactions db) then None
  else Some (with_transactions db (transactions db ++ [row])).

(** One iteration of the loop of [upsertMany]. *)
Definition upsert_one (account : string) (db : database) (txn : scraped)
  : option database :=
  let existing := select_by_id db (r_id txn) in
  match existing with
  | Some _ =>
      Some (with_transactions db
              (update_where_id (update_row txn account) (r_id txn)
                 (transactions db)))
  | None => insert_row db (new_row txn account)
  end.

(** [upsertMany]: the whole batch, [None] when a statement throws. *)
Fixpoint upsertMany (account : string) (db : database) (txns : list scraped)
  : option database :=
  match txns with
  | [] => Some db
  | txn :: rest =>
      match upsert_one account db txn with
      | Some db' => upsertMany account db' rest
      | None => None
      end
  end.

(** The new store and the returned count; a throw rolls the batch back
    and leaves the store as it was. *)
Definition upsertTransactions (db : database) (txns : list scraped)
    (account : string) : option (database * nat) :=
  match upsertMany account db txns with
  | Some db' => Some (db', length txns)
  | None => None
  end.
End Ingestion.

(** ** The other functions of the database layer *)

(** *** Available months *)

(** [String(n).padStart(2, '0')] *)
Definition padStart2 (s : string) : string :=
  match String.length s with
  | O => "00"
  | S O => String "0" s
  | _ => s
  end.

(** The template [`${year}-${String(month).padStart(2, '0')}`]. *)
Definition month_key (year month : Z) : string :=
  (string_of_Z year ++ "-" ++ padStart2 (string_of_Z month))%string.

(** [set.add(x)] on a [Set] of strings kept in insertion order. *)
Definition set_add (s : list string) (x : string) : list string :=
  if existsb (fun y => (y =? x)%string) s then s else s ++ [x].

(** [a <= b] on the text [YYYY-MM], by its two numeric fields. *)
Definition ym_leb (a b : Z * Z) : bool :=
  (fst a <? fst b) || ((fst a =? fst b) && (snd a <=? snd b)).

Definition ym_eqb (a b : Z * Z) : bool :=
  (fst a =? fst b) && (snd a =? snd b).

(** [SELECT DISTINCT]: the first occurrence of every value is kept. *)
Fixpoint distinct_ym (seen : list (Z * Z)) (l : list (Z * Z))
  : list (Z * Z) :=
  match l with
  | [] => []
  | x :: r =>
      if existsb (ym_eqb x) seen then distinct_ym seen r
      else x :: distinct_ym (x :: seen) r
  end.

(** [ORDER BY month DESC] *)
Fixpoint insert_ym_desc (x : Z * Z) (l : list (Z * Z)) : list (Z * Z) :=
  match l with
  | [] => [x]
  | u :: r => if ym_leb u x then x :: l else u :: insert_ym_desc x r
  end.

(** The rows of the [SELECT] of [getAvailableMonths], each already split
    into year and month by [row.month.split('-').map(Number)]. *)
Definition stored_months (db : database) : list (Z * Z) :=
  fold_right insert_ym_desc []
    (distinct_ym []
       (map (fun t => (d_year (date_of t), d_month (date_of t)))
            (transactions db))).

(** One iteration of the loop filling [israeliMonths]. *)
Definition add_israeli_months (israeliMonths : list string) (row : Z * Z)
  : list string :=
  let '(year, month) := row in
  let israeliMonths := set_add israeliMonths (month_key year month) in
  if month =? 1 then
    set_add israeliMonths (string_of_Z (year - 1) ++ "-12")%string
  else
    set_add israeliMonths (month_key year (month - 1)).

(** [array.sort()] on strings: ascending by code units. *)
Fixpoint insert_string (x : string) (l : list string) : list string :=
  match l with
  | [] => [x]
  | u :: r => if (x <=? u)%string then x :: l else u :: insert_string x r
  end.

Definition sort_strings (l : list string) : list string :=
  fold_right insert_string [] l.

Definition getAvailableMonths (db : database) : list string :=
  let rows := stored_months db in
  let israeliMonths := fold_left add_israeli_months rows [] in
  rev (sort_strings israeliMonths).

(** *** Counting *)

Definition getTransactionCount (db : database) : nat :=
  length (transactions db).

(** *** Categories *)

Definition with_categories (db : database) (cats : list category) : database :=
  mkDb (transactions db) cats (category_rules db) (settings db).

(** [createCategory].  The id is [`cat-${Date.now()}-${random}`]: the clock
    and the random generator are outside the store, so the id they give is
    an argument here.  The [INSERT] throws when the id (primary key) or the
    name ([UNIQUE]) is taken; [None] stands for the throw. *)
Definition createCategory (db : database) (new_id : string) (name : string)
    (color : option string) : option (database * category) :=
  let color := match color with Some c => c | None => "#6366f1" end in
  if existsb (fun c => (c_id c =? new_id)%string) (categories db)
     || existsb (fun c => (c_name c =? name)%string) (categories db)
  then None
  else
    let c := mkCategory new_id name color in
    Some (with_categories db (categories db ++ [c]), c).

(** [category_id = ?] in SQL: never true of [NULL]. *)
Definition has_category (categoryId : string) (t : transaction) : bool :=
  match category_id t with
  | Some c => (c =? categoryId)%string
  | None => false
  end.

(** [deleteCategory].  The rules of the category are deleted before the
    category, so the last [DELETE] leaves no rule without its category and
    the foreign key of [category_rules] lets it pass. *)
Definition deleteCategory (db : database) (categoryId : string) : database :=
  let db :=
    with_transactions db
      (map (fun t => if has_category categoryId t then set_category None t
                     else t)
           (transactions db)) in
  let db :=
    with_category_rules db
      (filter (fun r => negb (rule_category_id r =? categoryId)%string)
              (category_rules db)) in
  with_categories db
    (filter (fun c => negb (c_id c =? categoryId)%string) (categories db)).

(** *** Flags and comments *)

Definition set_transfer (b : bool) (t : transaction) : transaction :=
  mkTxn (id t) (date_of t) (amount t) (description t) (memo t) (account t)
        (type t) (category_id t) b (is_investment t) (user_comment t)
        (is_occasional_income t).

Definition setTransactionTransfer (db : database) (transactionId : string)
    (isTransfer : bool) : database :=
  with_transactions db
    (update_where_id (set_transfer isTransfer) transactionId
       (transactions db)).

Definition set_occasional (b : bool) (t : transaction) : transaction :=
  mkTxn (id t) (date_of t) (amount t) (description t) (memo t) (account t)
        (type t) (category_id t) (is_transfer t) (is_investment t)
        (user_comment t) b.

Definition setTransactionOccasionalIncome (db : database)
    (transactionId : string) (isOccasional : bool) : database :=
  with_transactions db
    (update_where_id (set_occasional isOccasional) transactionId
       (transactions db)).

Definition set_comment (c : option string) (t : transaction) : transaction :=
  mkTxn (id t) (date_of t) (amount t) (description t) (memo t) (account t)
        (type t) (category_id t) (is_transfer t) (is_investment t) c
        (is_occasional_income t).

(** [comment || null] *)
Definition or_null (o : option string) : option string :=
  if truthy_opt o then o else None.

Definition setTransactionComment (db : database) (transactionId : string)
    (comment : option string) : database :=
  with_transactions db
    (update_where_id (set_comment (or_null comment)) transactionId
       (transactions db)).

(** The state of the loop of [excludeAllInMonth]: the table and [count]. *)
Definition exclude_step (st : list transaction * nat) (txn : transaction)
  : list transaction * nat :=
  let '(rows, count) := st in
  if negb (is_transfer txn)
  then (update_where_id (set_transfer true) (id txn) rows, S count)
  else (rows, count).

Definition excludeAllInMonth (db : database) (year month : Z)
  : database * nat :=
  let table := transactions db in
  let transactions := getTransactionsByIsraeliMonth db year month in
  let '(rows, count) := fold_left exclude_step transactions (table, O) in
  (with_transactions db rows, count).

(** *** Category rules *)

(** One iteration of the loop of [applyCategoryRules]: the [UPDATE] of one
    rule; [result.changes] is the number of rows its [WHERE] matches. *)
Definition apply_rule_step (st : list transaction * nat) (rule : category_rule)
  : list transaction * nat :=
  let '(rows, applied) := st in
  let changes :=
    length (filter (fun t => (description t =? description_pattern rule)%string
                             && uncategorized t) rows) in
  (apply_rule (rule_category_id rule) (description_pattern rule) rows,
   (applied + changes)%nat).

Definition applyCategoryRules (db : database) : database * nat :=
  let rules := category_rules db in
  let '(rows, applied) :=
    fold_left apply_rule_step rules (transactions db, O) in
  (with_transactions db rows, applied).

(** A row of the [JOIN] of [getCategoryRules]. *)
Record rule_view := mkRuleView {
  v_description_pattern : string;
  v_category_id : string;
  v_category_name : string;
  v_category_color : string
}.

(** [ORDER BY r.description_pattern] *)
Fixpoint insert_by_pattern (v : rule_view) (l : list rule_view)
  : list rule_view :=
  match l with
  | [] => [v]
  | u :: r =>
      if (v_description_pattern v <=? v_description_pattern u)%string
      then v :: l else u :: insert_by_pattern v r
  end.

Definition getCategoryRules (db : database) : list rule_view :=
  fold_right insert_by_pattern []
    (flat_map
       (fun r =>
          map (fun c => mkRuleView (description_pattern r)
                          (rule_category_id r) (c_name c) (c_color c))
              (filter (fun c => (rule_category_id r =? c_id c)%string)
                      (categories db)))
       (category_rules db)).

(** *** Settings *)

Definition with_settings (db : database) (s : list (string * string))
  : database :=
  mkDb (transactions db) (categories db) (category_rules db) s.

(** [INSERT OR REPLACE INTO settings]: a row with the key is deleted and
    the new row is inserted. *)
Definition setSetting (db : database) (key value : string) : database :=
  with_settings db
    (filter (fun kv => negb (fst kv =? key)%string) (settings db)
     ++ [(key, value)]).

Definition setSavingsGoal (db : database) (amount : Z) (year month : option Z)
  : database :=
  if truthy_num year && truthy_num month then
    let monthKey :=
      ("savings_goal_" ++ template_num year ++ "_" ++ template_num month)%string in
    setSetting db monthKey (string_of_Z amount)
  else
    setSetting db "savings_goal" (string_of_Z amount).

Definition setExpectedIncome (db : database) (amount : Z) : database :=
  setSetting db "expected_income" (string_of_Z amount).

Definition getAverageIncome (db : database) (currentYear currentMonth : Z)
    (numMonths : nat) : Z :=
  getAverageRegularIncome db currentYear currentMonth numMonths.

Section Redetection.
Variable toLowerCase : string -> string.

(** One iteration of the loop of [redetectTransfers] over the rows read
    before the loop. *)
Definition redetect_step (rows : list transaction) (txn : transaction)
  : list transaction :=
  let transfer := isTransfer toLowerCase (Some (description txn)) in
  update_where_id (set_transfer transfer) (id txn) rows.

Definition redetectTransfers (db : database) : database * nat :=
  let allTxns := transactions db in
  (with_transactions db (fold_left redetect_step allTxns (transactions db)),
   length allTxns).
End Redetection.

(** * Specification vocabulary

    The sums and predicates in which the properties below are stated. *)

Definition sumZ (l : list Z) : Z := fold_right Z.add 0 l.

(** The sum of the positive amounts of a list of rows. *)
Definition positive_total (l : list transaction) : Z :=
  sumZ (map amount (filter (fun t => amount t >? 0) l)).

(** The sum of the absolute values of the negative amounts. *)
Definition negative_total (l : list transaction) : Z :=
  sumZ (map (fun t => Z.abs (amount t)) (filter (fun t => amount t <? 0) l)).

(** The sum of the absolute values of all amounts. *)
Definition absolute_total (l : list transaction) : Z :=
  sumZ (map (fun t => Z.abs (amount t)) l).

(** The row matches a salary pattern (with a positive amount) or a
    credit-card pattern. *)
Definition bill_pattern (t : transaction) : bool :=
  isSalaryTransaction (description t) (amount t)
  || isCreditCardTransaction (description t).

(** The row is dated in the calendar month [month] of [year]. *)
Definition dated_in (year month : Z) (t : transaction) : Prop :=
  d_year (date_of t) = year /\ d_month (date_of t) = month.

(** The row is dated in the calendar month after [month] of [year]. *)
Definition dated_in_next (year month : Z) (t : transaction) : Prop :=
  (month = 12 /\ dated_in (year + 1) 1 t)
  \/ (month < 12 /\ dated_in year (month + 1) t).

(** The attribution rule of the specification. *)
Definition attributed_to (year month : Z) (t : transaction) : Prop :=
  (dated_in year month t /\ d_day (date_of t) > 3)
  \/ (dated_in year month t /\ d_day (date_of t) <= 3
      /\ bill_pattern t = false)
  \/ (dated_in_next year month t /\ d_day (date_of t) <= 3
      /\ bill_pattern t = true).

(** The rows that count towards income and expenses: neither transfer nor
    investment. *)
Definition is_counted (t : transaction) : bool :=
  negb (is_transfer t) && negb (is_investment t).

(** The rows of the investment bucket: investment, and not transfer. *)
Definition is_investment_only (t : transaction) : bool :=
  negb (is_transfer t) && is_investment t.

(** The rows of a list that are grouped under the key [k]. *)
Definition grouped_under (k : string) (l : list transaction)
  : list transaction :=
  filter (fun t => (catId_of t =? k)%string) l.

(** The bucket made of the rows [g]: their positive amounts, the absolute
    values of their negative amounts, and the rows themselves. *)
Definition bucket_of (g : list transaction) : Bucket.t :=
  Bucket.mk (positive_total g) (negative_total g) g.

(** The counted rows of a logical month. *)
Definition counted_rows (db : database) (year month : Z) : list transaction :=
  filter is_counted (getTransactionsByIsraeliMonth db year month).

(** The expense total of a category in a logical month: the absolute values
    of the negative amounts of the counted rows grouped under it. *)
Definition category_expense (db : database) (categoryId : string)
    (year month : Z) : Z :=
  negative_total (grouped_under categoryId (counted_rows db year month)).

(** The non-zero entries of a list of totals. *)
Definition nonzero (totals : list Z) : list Z :=
  filter (fun t => negb (t =? 0)) totals.

(** The mean of a non-empty list rounded to the nearest integer, a half
    rounding up; 0 for the empty list. *)
Definition rounded_mean (l : list Z) : Z :=
  match l with
  | [] => 0
  | _ :: _ => round_div (sumZ l) (Z.of_nat (length l))
  end.

(** Regular income of a list of rows: the positive amounts not flagged
    occasional. *)
Definition regular_income (l : list transaction) : Z :=
  sumZ (map amount
          (filter (fun t => (amount t >? 0) && negb (is_occasional_income t)) l)).

(** Occasional income: the positive amounts flagged occasional. *)
Definition occasional_income (l : list transaction) : Z :=
  sumZ (map amount
          (filter (fun t => (amount t >? 0) && is_occasional_income t) l)).

(** The id of the category named as the variable-expenses bucket, as
    [calculateAvailableBudget] looks it up. *)
Definition variable_category_id (db : database) : option string :=
  option_map c_id
    (find (fun c => (c_name c =? VARIABLE_EXPENSES_NAME)%string)
          (getCategories db)).

(** The category ids for which [getAllCategoryAverages] holds an average. *)
Definition known_category (db : database) (k : string) : Prop :=
  k = "uncategorized" \/ exists c, In c (categories db) /\ c_id c = k.

(** The same as a test: the keys [getAllCategoryAverages] has an entry
    for. *)
Definition has_average (db : database) (k : string) : bool :=
  (k =? "uncategorized")%string
  || existsb (fun c => (c_id c =? k)%string) (categories db).

(** The keys of the month's buckets other than the variable-expenses one. *)
Definition fixed_keys (db : database) (year month : Z) : list string :=
  filter (fun k => negb (is_variable_category k (variable_category_id db)))
         (map fst (Summary.byCategory (getMonthlySummary db year month))).

(** The rows [getYearToDateSummary] counts for [year]: the selected rows
    whose resolved year is [year]. *)
Definition ytd_counted (db : database) (year : Z) : list transaction :=
  filter (fun t => belongsToYear t =? year) (ytd_rows db year).

(** The category a rule gives to a description, if any. *)
Definition rule_for (pattern : string) (rules : list category_rule)
  : option string :=
  option_map rule_category_id
    (find (fun r => (description_pattern r =? pattern)%string) rules).

(** The row of a table with a given id. *)
Definition find_by_id (i : string) (rows : list transaction)
  : option transaction :=
  find (fun t => (id t =? i)%string) rows.

(** The columns ingestion must not touch agree on two rows. *)
Definition same_classification (t t' : transaction) : Prop :=
  id t' = id t
  /\ category_id t' = category_id t
  /\ is_transfer t' = is_transfer t
  /\ is_investment t' = is_investment t
  /\ is_occasional_income t' = is_occasional_income t
  /\ user_comment t' = user_comment t.

(** The columns ingestion writes are those of the record [r]. *)
Definition carries (source : string) (r : scraped) (t' : transaction) : Prop :=
  date_of t' = r_date r
  /\ amount t' = r_amount r
  /\ description t' = or_empty (r_description r)
  /\ memo t' = or_empty (r_memo r)
  /\ account t' = source
  /\ type t' = type_of_amount (r_amount r).

Section IngestionVocabulary.
Variable toLowerCase : string -> string.

(** The table after one record of the batch. *)
Definition upsert_rows (account : string) (rows : list transaction)
    (txn : scraped) : list transaction :=
  match find_by_id (r_id txn) rows with
  | Some _ => update_where_id (update_row txn account) (r_id txn) rows
  | None => rows ++ [new_row toLowerCase txn account]
  end.
End IngestionVocabulary.

(** ** Sample data *)

Definition sample_row (i : string) (d : date) (a : Z) (desc : string)
    (cat : option string) : transaction :=
  mkTxn i d a desc "" "Hapoalim" (type_of_amount a) cat false false None false.

(** The salary of February 2024, posted on February 1st. *)
Definition feb_salary : transaction :=
  sample_row "Hapoalim-2024-02-01-13000-salary" (mkDate 2024 2 1) 1300000
    "משכורת פברואר" None.

(** A purchase on February 2nd. *)
Definition feb_groceries : transaction :=
  sample_row "Hapoalim-2024-02-02--250-groceries" (mkDate 2024 2 2) (-25000)
    "supermarket" None.

Definition sample_db : database :=
  mkDb [feb_salary; feb_groceries] [] [] [].

(** One food purchase in March 2024 and nothing in February or April. *)
Definition food_march : transaction :=
  sample_row "Hapoalim-2024-03-15--1.2-supermarket" (mkDate 2024 3 15) (-120)
    "supermarket" (Some "cat-food").

Definition average_db : database :=
  mkDb [food_march] [mkCategory "cat-food" "Food" "#6366f1"] [] [].

(** A transfer that is also marked as an investment. *)
Definition card_lump_sum : transaction :=
  mkTxn "Hapoalim-2024-03-10--900-card" (mkDate 2024 3 10) (-90000)
        "כרטיסי אשראי ל" "" "Hapoalim" expense_t None true true None false.

Definition flags_db : database := mkDb [card_lump_sum; food_march] [] [] [].

(** Two rows whose description is empty, neither with a category. *)
Definition blank_a : transaction :=
  sample_row "Hapoalim-2024-03-11--10-" (mkDate 2024 3 11) (-1000) "" None.

Definition blank_b : transaction :=
  sample_row "Hapoalim-2024-03-12--20-" (mkDate 2024 3 12) (-2000) "" None.

Definition blank_db : database :=
  mkDb [blank_a; blank_b] [mkCategory "cat-food" "Food" "#6366f1"] [] [].

(** Three purchases at the same shop: one to be categorised by hand, one
    without a category and one already in another category. *)
Definition shop_a : transaction :=
  sample_row "Hapoalim-2024-03-11--10-shop" (mkDate 2024 3 11) (-1000)
    "shop" None.

Definition shop_b : transaction :=
  sample_row "Hapoalim-2024-03-12--20-shop" (mkDate 2024 3 12) (-2000)
    "shop" None.

Definition shop_c : transaction :=
  sample_row "Hapoalim-2024-03-13--30-shop" (mkDate 2024 3 13) (-3000)
    "shop" (Some "cat-gifts").

Definition shop_db : database :=
  mkDb [shop_a; shop_b; shop_c]
       [mkCategory "cat-food" "Food" "#6366f1";
        mkCategory "cat-gifts" "Gifts" "#6366f1"] [] [].

(** A batch that brings [shop_a] again, with a corrected amount, and one
    row not seen before. *)
Definition shop_batch : list scraped :=
  [ mkScraped (id shop_a) (mkDate 2024 3 11) (-1500) (Some "shop") None;
    mkScraped "Hapoalim-2024-03-14--40-kiosk" (mkDate 2024 3 14) (-4000)
              (Some "kiosk") None ].

(** A case mapping that leaves text as it is, for the examples. *)
Definition no_case : string -> string := fun s => s.

(** The scenario of the specification: a savings goal of 2,000 shekels, an
    expected income of 13,500 and fixed expenses of 8,000 in March 2024. *)
Definition rent_march : transaction :=
  sample_row "Hapoalim-2024-03-05--8000-rent" (mkDate 2024 3 5) (-800000)
    "rent" (Some "cat-rent").

Definition budget_db : database :=
  mkDb [rent_march] [mkCategory "cat-rent" "Rent" "#6366f1"] []
       [("savings_goal", "200000"); ("expected_income", "1350000")].

(** Two payments to a gym, neither with a category, and the same rows with
    the id of a category that is not stored. *)
Definition gym_march : transaction :=
  sample_row "Hapoalim-2024-03-15--5-gym" (mkDate 2024 3 15) (-500) "gym" None.

Definition gym_april : transaction :=
  sample_row "Hapoalim-2024-04-15--1-gym" (mkDate 2024 4 15) (-100) "gym" None.

Definition gym_db : database := mkDb [gym_march; gym_april] [] [] [].

Definition orphan_db : database :=
  mkDb [set_category (Some "cat-gone") gym_march;
        set_category (Some "cat-gone") gym_april] [] [] [].

(** A household in March 2024: a rent that was higher in February, a
    purchase in the variable-expenses category, a payment under a category
    id that is not stored, a savings goal and an expected income. *)
Definition rent_february : transaction :=
  sample_row "Hapoalim-2024-02-05--9000-rent" (mkDate 2024 2 5) (-900000)
    "rent" (Some "cat-rent").

Definition market_march : transaction :=
  sample_row "Hapoalim-2024-03-20--500-market" (mkDate 2024 3 20) (-50000)
    "market" (Some "cat-var").

Definition household_db : database :=
  mkDb [rent_february; rent_march; market_march;
        set_category (Some "cat-gone") gym_march]
       [mkCategory "cat-rent" "Rent" "#6366f1";
        mkCategory "cat-var" VARIABLE_EXPENSES_NAME "#6366f1"] []
       [("savings_goal", "200000"); ("expected_income", "1350000")].

(** ** Vocabulary for the other functions *)

(** An update of a row that leaves the columns month attribution reads. *)
Definition keeps_attribution (f : transaction -> transaction) : Prop :=
  forall t, date_of (f t) = date_of t /\ amount (f t) = amount t
            /\ description (f t) = description t.

(** The row is one the month's list held before [excludeAllInMonth] and
    that was not yet a transfer. *)
Definition to_exclude (attributed : list transaction) (t : transaction) : bool :=
  existsb (fun u => (id u =? id t)%string && negb (is_transfer u)) attributed.

(** What the rules make of a row: a row without category whose description
    has a rule gets the category of the first such rule. *)
Definition categorize (rules : list category_rule) (t : transaction)
  : transaction :=
  if uncategorized t then
    match rule_for (description t) rules with
    | Some c => set_category (Some c) t
    | None => t
    end
  else t.

(** The row has no category and a rule for its description. *)
Definition awaits_rule (rules : list category_rule) (t : transaction) : bool :=
  uncategorized t &&
  match rule_for (description t) rules with
  | Some _ => true
  | None => false
  end.

(** Every rule names a category id that is not empty, as the rules
    [setTransactionCategory] stores do. *)
Definition rules_name_categories (rules : list category_rule) : Prop :=
  forall r, In r rules -> rule_category_id r <> "".

Definition rules_db : database :=
  mkDb [shop_a; shop_b; shop_c; food_march]
       [mkCategory "cat-food" "Food" "#6366f1";
        mkCategory "cat-gifts" "Gifts" "#6366f1"]
       [mkRule "shop" "cat-food"; mkRule "kiosk" "cat-gifts"] [].

(** The number a string of decimal digits stands for, read from the left
    with the digits seen so far in [acc]. *)
Fixpoint uint_value (d : Decimal.uint) (acc : Z) : Z :=
  match d with
  | Decimal.Nil => acc
  | Decimal.D0 d => uint_value d (10 * acc + 0)
  | Decimal.D1 d => uint_value d (10 * acc + 1)
  | Decimal.D2 d => uint_value d (10 * acc + 2)
  | Decimal.D3 d => uint_value d (10 * acc + 3)
  | Decimal.D4 d => uint_value d (10 * acc + 4)
  | Decimal.D5 d => uint_value d (10 * acc + 5)
  | Decimal.D6 d => uint_value d (10 * acc + 6)
  | Decimal.D7 d => uint_value d (10 * acc + 7)
  | Decimal.D8 d => uint_value d (10 * acc + 8)
  | Decimal.D9 d => uint_value d (10 * acc + 9)
  end.

Definition goals_db : database :=
  mkDb [] [] [] [("savings_goal", "100000"); ("expected_income", "900000")].

(** The key of the month before [month] of [year], as the loop of
    [getAvailableMonths] writes it. *)
Definition previous_month_key (year month : Z) : string :=
  if month =? 1 then (string_of_Z (year - 1) ++ "-12")%string
  else month_key year (month - 1).

(** The logical month of a row: the month before its own for a salary or
    credit-card row of the 1st to 3rd, its own month otherwise. *)
Definition logical_month (t : transaction) : Z * Z :=
  let y := d_year (date_of t) in
  let m := d_month (date_of t) in
  if (d_day (date_of t) <=? 3) && bill_pattern t
  then (if m =? 1 then (y - 1, 12) else (y, m - 1))
  else (y, m).

(** The tests a stored row passes to be in the list of a month: the window
    of the [SELECT] and the callback of the [filter]. *)
Definition month_member (year month : Z) (t : transaction) : bool :=
  date_leb (mkDate year month 1) (date_of t)
  && date_leb (date_of t)
       (mkDate (fst (next_month year month)) (snd (next_month year month)) 10)
  && israeli_month_filter year month t.

(** The sum of [w] over the rows that pass [p]. *)
Definition wsum (p : transaction -> bool) (w : transaction -> Z)
    (l : list transaction) : Z :=
  sumZ (map (fun t => if p t then w t else 0) l).

(** The twelve months of a year. *)
Definition months_of_year : list Z := [1; 2; 3; 4; 5; 6; 7; 8; 9; 10; 11; 12].

(** A salary posted on January 2nd 2024, a purchase of the same day and a
    card settlement posted on March 1st. *)
Definition january_salary : transaction :=
  sample_row "Hapoalim-2024-01-02-12000-salary" (mkDate 2024 1 2) 1200000
    "משכורת" None.

Definition january_bread : transaction :=
  sample_row "Hapoalim-2024-01-02--12-bakery" (mkDate 2024 1 2) (-1200)
    "bakery" None.

Definition march_card : transaction :=
  sample_row "Hapoalim-2024-03-01--3000-visa" (mkDate 2024 3 1) (-300000)
    "ויזה" None.

Definition year_db : database :=
  mkDb [january_salary; january_bread; march_card; feb_salary; food_march]
       [] [] [].

(** The sum of a quantity over the buckets of a breakdown. *)
Definition bucket_sum (f : Bucket.t -> Z) (o : list (string * Bucket.t)) : Z :=
  sumZ (map (fun e => f (snd e)) o).

(** The [n] calendar months before a month, the nearest first. *)
Fixpoint months_before (year month : Z) (n : nat) : list (Z * Z) :=
  match n with
  | O => []
  | S n' =>
      let p := prev_month year month in
      p :: months_before (fst p) (snd p) n'
  end.

(** The ids a batch brings that are not among the [known] ones, each once,
    in the order of their first record. *)
Fixpoint new_ids (known : list string) (txns : list scraped) : list string :=
  match txns with
  | [] => []
  | r :: rest =>
      if existsb (String.eqb (r_id r)) known then new_ids known rest
      else r_id r :: new_ids (known ++ [r_id r]) rest
  end.

(** What [deleteCategory] does to a row: the category is cleared when it is
    the deleted one. *)
Definition uncategorize (categoryId : string) (t : transaction) : transaction :=
  if has_category categoryId t then set_category None t else t.

(** [summary.byCategory[k]?.expenses || 0] and the same for the income. *)
Definition bucket_expenses (s : Summary.t) (k : string) : Z :=
  match obj_get (Summary.byCategory s) k with
  | Some b => Bucket.expenses b
  | None => 0
  end.

Definition bucket_income (s : Summary.t) (k : string) : Z :=
  match obj_get (Summary.byCategory s) k with
  | Some b => Bucket.income b
  | None => 0
  end.

(** A store with a categorised purchase and a rule for its category. *)
Definition food_db : database :=
  mkDb [shop_a; food_march]
       [mkCategory "cat-food" "Food" "#6366f1"]
       [mkRule "supermarket" "cat-food"] [].

(** Referential integrity of the store: a row's category, when it has one,
    and the category of every rule are stored categories. *)
Definition refers_to_stored (cats : list category) (t : transaction) : Prop :=
  forall c, category_id t = Some c -> c <> "" -> In c (map c_id cats).

Definition rows_ok (cats : list category) (rows : list transaction) : Prop :=
  forall t, In t rows -> refers_to_stored cats t.

Definition rules_ok (cats : list category) (rules : list category_rule)
  : Prop :=
  forall r, In r rules -> In (rule_category_id r) (map c_id cats).

Definition well_referenced (db : database) : Prop :=
  rows_ok (categories db) (transactions db)
  /\ rules_ok (categories db) (category_rules db).

(** A salary of March 2024 and a purchase, in a table with distinct ids. *)
Definition march_salary : transaction :=
  sample_row "Hapoalim-2024-03-10-13000-salary" (mkDate 2024 3 10) 1300000
    "משכורת" None.

Definition march_db : database := mkDb [march_salary; food_march] [] [] [].

(** * Properties *)

Unset Implicit Arguments.

(** ** Tactics and list facts *)

(** Case analysis on the integer comparisons of the goal. *)
Ltac z_cases :=
  repeat match goal with
    | |- context [ (?a =? ?b)%Z ] => destruct (Z.eqb_spec a b)
    | |- context [ (?a <=? ?b)%Z ] => destruct (Z.leb_spec a b)
    | |- context [ (?a <? ?b)%Z ] => destruct (Z.ltb_spec a b)
    | |- context [ (?a >? ?b)%Z ] => rewrite (Z.gtb_ltb a b)
    end.

Lemma fold_left_add_sumZ (l : list Z) (a : Z) :
  fold_left Z.add l a = a + sumZ l.
Proof.
  revert a; induction l as [|x l IH]; intros a; simpl.
  - lia.
  - rewrite IH. lia.
Qed.

Lemma sumZ_app (l1 l2 : list Z) : sumZ (l1 ++ l2) = sumZ l1 + sumZ l2.
Proof. induction l1 as [|x l1 IH]; simpl; lia. Qed.

Lemma filter_snoc {A} (f : A -> bool) (l : list A) (x : A) :
  filter f (l ++ [x]) = if f x then filter f l ++ [x] else filter f l.
Proof.
  rewrite filter_app. simpl. destruct (f x); [reflexivity | apply app_nil_r].
Qed.

Lemma positive_total_snoc l t :
  positive_total (l ++ [t]) =
  positive_total l + (if amount t >? 0 then amount t else 0).
Proof.
  unfold positive_total. rewrite filter_snoc.
  destruct (amount t >? 0); [rewrite map_app, sumZ_app; simpl|]; lia.
Qed.

Lemma negative_total_snoc l t :
  negative_total (l ++ [t]) =
  negative_total l + (if amount t >? 0 then 0 else Z.abs (amount t)).
Proof.
  unfold negative_total. rewrite filter_snoc.
  rewrite (Z.gtb_ltb (amount t) 0).
  destruct (Z.ltb_spec (amount t) 0); destruct (Z.ltb_spec 0 (amount t));
    try rewrite map_app, sumZ_app; simpl; lia.
Qed.

Lemma absolute_total_snoc l t :
  absolute_total (l ++ [t]) = absolute_total l + Z.abs (amount t).
Proof. unfold absolute_total. rewrite map_app, sumZ_app. simpl. lia. Qed.

Lemma negative_total_nonneg l : 0 <= negative_total l.
Proof.
  unfold negative_total.
  induction (filter (fun t => amount t <? 0) l) as [|x r IH]; simpl; lia.
Qed.

(** ** Month attribution *)

Lemma In_insert_by_date_desc t u l :
  In t (insert_by_date_desc u l) <-> t = u \/ In t l.
Proof.
  induction l as [|v l IH]; simpl.
  - intuition congruence.
  - destruct (date_leb (date_of v) (date_of u)); simpl; rewrite ?IH;
      intuition congruence.
Qed.

Lemma In_order_by_date_desc t l : In t (order_by_date_desc l) <-> In t l.
Proof.
  induction l as [|u l IH]; simpl.
  - tauto.
  - rewrite In_insert_by_date_desc, IH. intuition congruence.
Qed.

Lemma In_getTransactionsByIsraeliMonth db year month t :
  In t (getTransactionsByIsraeliMonth db year month) <->
  In t (transactions db)
  /\ date_leb (mkDate year month 1) (date_of t) = true
  /\ date_leb (date_of t)
       (mkDate (fst (next_month year month)) (snd (next_month year month)) 10)
     = true
  /\ israeli_month_filter year month t = true.
Proof.
  unfold getTransactionsByIsraeliMonth.
  destruct (next_month year month) as [ny nm]; simpl.
  rewrite filter_In, In_order_by_date_desc, filter_In, andb_true_iff.
  tauto.
Qed.

Lemma israeli_month_filter_spec year month t :
  1 <= month <= 12 ->
  israeli_month_filter year month t = true <-> attributed_to year month t.
Proof.
  intros Hm.
  unfold israeli_month_filter, attributed_to, dated_in_next, dated_in,
    next_month, BILL_CUTOFF_DAY.
  fold (bill_pattern t).
  destruct (bill_pattern t) eqn:Hb.
  - apply orb_true_iff in Hb as Hb'.
    assert (Hn : negb (isSalaryTransaction (description t) (amount t))
                 && negb (isCreditCardTransaction (description t)) = false).
    { rewrite <- negb_orb. fold (bill_pattern t). rewrite Hb. reflexivity. }
    rewrite Hn. z_cases; simpl; z_cases; simpl;
      split; intros Hx; try discriminate; try reflexivity; try lia;
      intuition (try lia; try discriminate).
  - assert (Hn : negb (isSalaryTransaction (description t) (amount t))
                 && negb (isCreditCardTransaction (description t)) = true).
    { rewrite <- negb_orb. fold (bill_pattern t). rewrite Hb. reflexivity. }
    rewrite Hn. z_cases; simpl; z_cases; simpl;
      split; intros Hx; try discriminate; try reflexivity; try lia;
      intuition (try lia; try discriminate).
Qed.

(** C1. A stored row with a scraper-made date is returned by
    [getTransactionsByIsraeliMonth] for a target month exactly when it is
    dated in that month after the 3rd, or dated in it on the 1st to 3rd
    and matching neither a salary nor a credit-card pattern, or dated on
    the 1st to 3rd of the following month (January of the next year after
    December) and matching one.  So a salary row of day 2 (of any of the
    days 1 to 3) is returned for the month before its own and not for its
    own, and a row of such a day with no such pattern is returned for its
    own month. *)
Theorem month_attribution (db : database) (t : transaction) :
  valid_date (date_of t) ->
  (forall year month, 1 <= month <= 12 ->
     (In t (getTransactionsByIsraeliMonth db year month) <->
      In t (transactions db) /\ attributed_to year month t))
  /\ (In t (transactions db) -> d_day (date_of t) <= 3 ->
      isSalaryTransaction (description t) (amount t) = true ->
      let y := d_year (date_of t) in
      let m := d_month (date_of t) in
      In t (getTransactionsByIsraeliMonth db
              (if m =? 1 then y - 1 else y) (if m =? 1 then 12 else m - 1))
      /\ ~ In t (getTransactionsByIsraeliMonth db y m))
  /\ (In t (transactions db) -> d_day (date_of t) <= 3 ->
      bill_pattern t = false ->
      In t (getTransactionsByIsraeliMonth db
              (d_year (date_of t)) (d_month (date_of t)))).
Proof.
  intros [Hmonth Hday].
  assert (Hiff : forall year month, 1 <= month <= 12 ->
     (In t (getTransactionsByIsraeliMonth db year month) <->
      In t (transactions db) /\ attributed_to year month t)).
  { intros year month Hm.
    rewrite In_getTransactionsByIsraeliMonth.
    rewrite (israeli_month_filter_spec year month t Hm).
    split; [tauto|]. intros [Hin Hat]. repeat split; try assumption.
    - unfold attributed_to, dated_in_next, dated_in in Hat.
      unfold date_leb; simpl. z_cases; simpl; try reflexivity; lia.
    - unfold attributed_to, dated_in_next, dated_in in Hat.
      unfold date_leb, next_month. rewrite Z.gtb_ltb.
      destruct (Z.ltb_spec 12 (month + 1)); simpl;
        z_cases; simpl; try reflexivity; lia. }
  split; [exact Hiff|]. split.
  - intros Hin Hd Hsal y m.
    assert (Hb : bill_pattern t = true).
    { unfold bill_pattern. rewrite Hsal. reflexivity. }
    split.
    + apply Hiff; [subst m; z_cases; lia|].
      split; [assumption|]. right; right.
      unfold dated_in_next, dated_in. subst y m.
      z_cases; repeat split; try assumption; lia.
    + intros Hc. apply Hiff in Hc; [|subst m; lia].
      destruct Hc as [_ Hat].
      unfold attributed_to, dated_in_next, dated_in in Hat. subst y m.
      rewrite Hb in Hat. intuition (try lia; try discriminate).
  - intros Hin Hd Hb. apply Hiff; [lia|].
    split; [assumption|]. right; left.
    unfold dated_in. repeat split; try assumption; lia.
Qed.

Lemma month_attribution_witness :
  In feb_salary (getTransactionsByIsraeliMonth sample_db 2024 1)
  /\ ~ In feb_salary (getTransactionsByIsraeliMonth sample_db 2024 2)
  /\ In feb_groceries (getTransactionsByIsraeliMonth sample_db 2024 2).
Proof.
  assert (Hv1 : valid_date (date_of feb_salary)) by (unfold valid_date; simpl; lia).
  assert (Hv2 : valid_date (date_of feb_groceries)) by (unfold valid_date; simpl; lia).
  destruct (month_attribution sample_db feb_salary Hv1) as (_ & Hs & _).
  destruct (month_attribution sample_db feb_groceries Hv2) as (_ & _ & Hg).
  split; [|split].
  - apply Hs; [left; reflexivity | simpl; lia | reflexivity].
  - apply Hs; [left; reflexivity | simpl; lia | reflexivity].
  - apply Hg; [right; left; reflexivity | simpl; lia | reflexivity].
Defined.

(** ** Monthly summary *)

Section ObjectFacts.
Variable V : Type.
Implicit Types (o : list (string * V)) (k : string) (v : V).

Lemma obj_get_set o k v k' :
  obj_get (obj_set o k v) k' = if (k =? k')%string then Some v else obj_get o k'.
Proof.
  induction o as [|[k0 v0] o IH]; simpl.
  - reflexivity.
  - destruct (String.eqb_spec k0 k) as [->|Hne]; simpl.
    + destruct (String.eqb_spec k k'); reflexivity.
    + rewrite IH. destruct (String.eqb_spec k0 k') as [->|]; [|reflexivity].
      destruct (String.eqb_spec k k'); [congruence | reflexivity].
Qed.

Lemma obj_get_None o k : obj_get o k = None <-> ~ In k (map fst o).
Proof.
  induction o as [|[k0 v0] o IH]; simpl.
  - tauto.
  - destruct (String.eqb_spec k0 k); [|rewrite IH]; intuition congruence.
Qed.

Lemma obj_get_In o k v : obj_get o k = Some v -> In (k, v) o.
Proof.
  induction o as [|[k0 v0] o IH]; simpl; [discriminate|].
  destruct (String.eqb_spec k0 k) as [->|]; [intros [= ->]; now left|].
  intros H; right; auto.
Qed.

Lemma In_obj_get o k v : NoDup (map fst o) -> In (k, v) o -> obj_get o k = Some v.
Proof.
  induction o as [|[k0 v0] o IH]; simpl; [tauto|].
  intros Hnd [Heq|Hin].
  - injection Heq as -> ->. now rewrite String.eqb_refl.
  - inversion Hnd as [|? ? Hnotin Hnd']; subst.
    destruct (String.eqb_spec k0 k) as [->|]; [|auto].
    exfalso. apply Hnotin. change k with (fst (k, v)). now apply in_map.
Qed.

Lemma obj_set_keys o k v :
  map fst (obj_set o k v) =
  match obj_get o k with
  | Some _ => map fst o
  | None => map fst o ++ [k]
  end.
Proof.
  induction o as [|[k0 v0] o IH]; simpl; [reflexivity|].
  destruct (String.eqb_spec k0 k); simpl; [reflexivity|].
  rewrite IH. destruct (obj_get o k); reflexivity.
Qed.

Lemma obj_set_NoDup o k v : NoDup (map fst o) -> NoDup (map fst (obj_set o k v)).
Proof.
  intros Hnd. rewrite obj_set_keys.
  destruct (obj_get o k) eqn:Hg; [assumption|].
  apply obj_get_None in Hg.
  apply NoDup_app; [assumption | repeat constructor; simpl; tauto |].
  intros x Hx [<-|[]]. contradiction.
Qed.
End ObjectFacts.

(** The state of the first loop of [getMonthlySummary] after the rows [l]. *)
Lemma split_loop (l : list transaction) :
  fold_left split_step l split_init =
  mkSplit (positive_total (filter is_counted l))
          (negative_total (filter is_counted l))
          (positive_total (filter is_transfer l))
          (negative_total (filter is_transfer l))
          (absolute_total (filter is_investment_only l))
          (filter is_counted l) (filter is_transfer l)
          (filter is_investment_only l).
Proof.
  induction l as [|t l IH] using rev_ind; [reflexivity|].
  rewrite fold_left_app, IH. simpl.
  rewrite !filter_snoc. unfold split_step, is_counted, is_investment_only.
  simpl. destruct (is_transfer t); [|destruct (is_investment t)]; simpl;
    rewrite ?positive_total_snoc, ?negative_total_snoc, ?absolute_total_snoc;
    destruct (amount t >? 0); f_equal; lia.
Qed.

(** The bucket the grouping loop holds under [k] after the rows [l]. *)
Lemma group_loop (l : list transaction) :
  NoDup (map fst (fold_left group_step l []))
  /\ forall k,
       obj_get (fold_left group_step l []) k =
       match grouped_under k l with
       | [] => None
       | _ :: _ => Some (bucket_of (grouped_under k l))
       end.
Proof.
  induction l as [|t l [IHnd IH]] using rev_ind.
  - split; [constructor | reflexivity].
  - rewrite fold_left_app. simpl.
    set (o := fold_left group_step l []) in *.
    unfold group_step.
    set (o1 := match obj_get o (catId_of t) with
               | None => obj_set o (catId_of t) (Bucket.mk 0 0 [])
               | Some _ => o
               end).
    assert (Hnd1 : NoDup (map fst o1)).
    { subst o1. destruct (obj_get o (catId_of t)); [|apply obj_set_NoDup]; auto. }
    assert (Hget1 : obj_get o1 (catId_of t) =
                    Some (bucket_of (grouped_under (catId_of t) l))).
    { subst o1. destruct (obj_get o (catId_of t)) eqn:Hg.
      - rewrite Hg. rewrite IH in Hg.
        destruct (grouped_under (catId_of t) l); [discriminate | congruence].
      - rewrite obj_get_set, String.eqb_refl. rewrite IH in Hg.
        destruct (grouped_under (catId_of t) l); [reflexivity | discriminate]. }
    assert (Hother : forall k, k <> catId_of t -> obj_get o1 k = obj_get o k).
    { intros k Hk. subst o1. destruct (obj_get o (catId_of t)); [reflexivity|].
      rewrite obj_get_set. destruct (String.eqb_spec (catId_of t) k); congruence. }
    rewrite Hget1. split; [apply obj_set_NoDup; assumption|].
    intros k. rewrite obj_get_set.
    replace (grouped_under k (l ++ [t]))
      with (if (catId_of t =? k)%string
            then grouped_under k l ++ [t] else grouped_under k l)
      by (unfold grouped_under; symmetry;
          apply (filter_snoc (fun u => (catId_of u =? k)%string) l t)).
    destruct (String.eqb_spec (catId_of t) k) as [<-|Hne].
    + set (g := grouped_under (catId_of t) l).
      assert (Hsnoc : match g ++ [t] with
                      | [] => None
                      | _ :: _ => Some (bucket_of (g ++ [t]))
                      end = Some (bucket_of (g ++ [t])))
        by (destruct g; reflexivity).
      rewrite Hsnoc. unfold bucket_of.
      rewrite positive_total_snoc, negative_total_snoc.
      destruct (amount t >? 0); simpl; do 2 f_equal; lia.
    + rewrite Hother by congruence. apply IH.
Qed.

Lemma three_way_partition (l : list transaction) :
  Permutation l
    (filter is_transfer l ++ filter is_investment_only l ++ filter is_counted l).
Proof.
  induction l as [|t l IH]; simpl; [constructor|].
  unfold is_investment_only at 1, is_counted at 1.
  destruct (is_transfer t); simpl.
  - now constructor.
  - destruct (is_investment t); simpl.
    + now apply Permutation_cons_app.
    + rewrite app_assoc. apply Permutation_cons_app.
      now rewrite <- app_assoc.
Qed.

Lemma filter_disjoint {A} (f g : A -> bool) (l : list A) (x : A) :
  (forall y, f y = true -> g y = true -> False) ->
  ~ (In x (filter f l) /\ In x (filter g l)).
Proof.
  intros Hfg [Hf Hg]. apply filter_In in Hf, Hg.
  apply (Hfg x); tauto.
Qed.

(** C2. [getMonthlySummary] puts every attributed row in exactly one of the
    transfer, investment and counted lists, testing [is_transfer] first and
    [is_investment] second; income and expenses are the sums of the positive
    amounts and of the absolute values of the negative amounts of the
    counted rows, the balance is their difference, the investment total is
    the sum of the absolute values of the investment rows, the transfer net
    is transfers in minus transfers out, and each counted row is grouped
    under its category id, or under ['uncategorized'] when it has none, in a
    bucket that accumulates income and expenses the same way. *)
Theorem monthly_summary_buckets (db : database) (year month : Z) :
  let all := getTransactionsByIsraeliMonth db year month in
  let s := getMonthlySummary db year month in
  let counted := Summary.transactions s in
  Summary.transfers s = filter is_transfer all
  /\ Summary.investments s =
       filter (fun t => negb (is_transfer t) && is_investment t) all
  /\ counted =
       filter (fun t => negb (is_transfer t) && negb (is_investment t)) all
  /\ Permutation all
       (Summary.transfers s ++ Summary.investments s ++ counted)
  /\ (forall t,
        ~ (In t (Summary.transfers s) /\ In t (Summary.investments s))
        /\ ~ (In t (Summary.transfers s) /\ In t counted)
        /\ ~ (In t (Summary.investments s) /\ In t counted))
  /\ Summary.income s = positive_total counted
  /\ Summary.expenses s = negative_total counted
  /\ Summary.balance s = Summary.income s - Summary.expenses s
  /\ Summary.investmentTotal s = absolute_total (Summary.investments s)
  /\ Summary.transfersIn s = positive_total (Summary.transfers s)
  /\ Summary.transfersOut s = negative_total (Summary.transfers s)
  /\ Summary.transfersNet s = Summary.transfersIn s - Summary.transfersOut s
  /\ Summary.transactionCount s = length counted
  /\ NoDup (map fst (Summary.byCategory s))
  /\ (forall t, In t counted ->
        exists b, obj_get (Summary.byCategory s) (catId_of t) = Some b
                  /\ In t (Bucket.transactions b))
  /\ (forall k b, In (k, b) (Summary.byCategory s) ->
        Bucket.transactions b = grouped_under k counted
        /\ Bucket.transactions b <> []
        /\ Bucket.income b = positive_total (Bucket.transactions b)
        /\ Bucket.expenses b = negative_total (Bucket.transactions b))
  /\ (forall t,
        catId_of t =
        match category_id t with
        | Some c => if (c =? "")%string then "uncategorized" else c
        | None => "uncategorized"
        end).
Proof.
  intros all s counted.
  assert (Hst : fold_left split_step all split_init = _) by apply split_loop.
  assert (Ht : Summary.transfers s = filter is_transfer all)
    by (subst s; unfold getMonthlySummary; fold all; now rewrite Hst).
  assert (Hi : Summary.investments s = filter is_investment_only all)
    by (subst s; unfold getMonthlySummary; fold all; now rewrite Hst).
  assert (Hc : counted = filter is_counted all)
    by (subst counted s; unfold getMonthlySummary; fold all; now rewrite Hst).
  assert (Hby : Summary.byCategory s = fold_left group_step counted [])
    by reflexivity.
  destruct (group_loop counted) as [Hnd Hget]. rewrite <- Hby in Hnd, Hget.
  split; [exact Ht|]. split; [exact Hi|]. split; [exact Hc|].
  split; [rewrite Ht, Hi, Hc; apply three_way_partition|].
  split.
  { intros t. rewrite Ht, Hi, Hc. repeat split; apply filter_disjoint;
      unfold is_investment_only, is_counted; intros y;
      destruct (is_transfer y), (is_investment y); simpl; congruence. }
  split; [rewrite Hc; subst s; unfold getMonthlySummary; fold all;
          now rewrite Hst|].
  split; [rewrite Hc; subst s; unfold getMonthlySummary; fold all;
          now rewrite Hst|].
  split; [reflexivity|].
  split; [rewrite Hi; subst s; unfold getMonthlySummary; fold all;
          now rewrite Hst|].
  split; [rewrite Ht; subst s; unfold getMonthlySummary; fold all;
          now rewrite Hst|].
  split; [rewrite Ht; subst s; unfold getMonthlySummary; fold all;
          now rewrite Hst|].
  split; [reflexivity|]. split; [reflexivity|]. split; [exact Hnd|].
  split; [|split].
  - intros t Hin. rewrite Hget.
    assert (Hg : In t (grouped_under (catId_of t) counted))
      by (apply filter_In; split; [assumption | apply String.eqb_refl]).
    destruct (grouped_under (catId_of t) counted) eqn:Heq; [destruct Hg|].
    eexists; split; [reflexivity|]. exact Hg.
  - intros k b Hin. apply In_obj_get in Hin; [|exact Hnd]. rewrite Hget in Hin.
    destruct (grouped_under k counted) eqn:Heq; [discriminate|].
    injection Hin as <-. simpl. repeat split; discriminate.
  - intros t. unfold catId_of, truthy_opt, or_empty, truthy.
    destruct (category_id t) as [c|]; [|reflexivity].
    destruct (c =? "")%string; reflexivity.
Qed.

(** ** Category averages *)

Lemma summary_transactions db year month :
  Summary.transactions (getMonthlySummary db year month) =
  counted_rows db year month.
Proof.
  unfold getMonthlySummary, counted_rows. simpl. now rewrite split_loop.
Qed.

Lemma summary_byCategory db year month k :
  obj_get (Summary.byCategory (getMonthlySummary db year month)) k =
  match grouped_under k (counted_rows db year month) with
  | [] => None
  | _ :: _ => Some (bucket_of (grouped_under k (counted_rows db year month)))
  end.
Proof.
  rewrite <- summary_transactions.
  apply (proj2 (group_loop (Summary.transactions (getMonthlySummary db year month)))).
Qed.

Lemma summary_category_expense db c year month :
  match obj_get (Summary.byCategory (getMonthlySummary db year month)) c with
  | Some catData => Bucket.expenses catData
  | None => 0
  end = category_expense db c year month.
Proof.
  rewrite summary_byCategory. unfold category_expense.
  destruct (grouped_under c (counted_rows db year month)); reflexivity.
Qed.

Lemma category_totals_spec db c n : forall year month,
  category_totals db c year month n =
  match n with
  | O => []
  | S n' =>
      category_expense db c (fst (prev_month year month))
                            (snd (prev_month year month))
      :: category_totals db c (fst (prev_month year month))
                              (snd (prev_month year month)) n'
  end.
Proof.
  destruct n as [|n]; intros year month; [reflexivity|].
  cbn [category_totals].
  destruct (prev_month year month) as [y' m']. cbn [fst snd].
  now rewrite summary_category_expense.
Qed.

Lemma category_expense_nonneg db c year month :
  0 <= category_expense db c year month.
Proof. apply negative_total_nonneg. Qed.

Lemma filter_positive_nonzero (l : list Z) :
  (forall t, In t l -> 0 <= t) -> filter (fun t => t >? 0) l = nonzero l.
Proof.
  intros H. apply filter_ext_in. intros t Ht. apply H in Ht.
  rewrite Z.gtb_ltb. destruct (Z.ltb_spec 0 t), (Z.eqb_spec t 0); simpl; lia.
Qed.

(** The tail of [getCategoryAverage], on totals that are not negative. *)
Lemma average_tail (l : list Z) :
  (if (length l =? 0)%nat then 0
   else round_div (fold_left Z.add l 0) (Z.of_nat (length l)))
  = rounded_mean l.
Proof.
  destruct l as [|x l]; [reflexivity|].
  unfold rounded_mean. rewrite fold_left_add_sumZ. reflexivity.
Qed.

Lemma round_div_nearest (s n : Z) :
  0 < n -> 2 * s - n < 2 * n * round_div s n <= 2 * s + n.
Proof.
  intros Hn. unfold round_div.
  pose proof (Z.div_mod (2 * s + n) (2 * n)) as Hdm.
  pose proof (Z.mod_pos_bound (2 * s + n) (2 * n)) as Hb.
  lia.
Qed.

(** C5. [getCategoryAverage] over a window of 3 collects the category's
    expense total in each of the three calendar months before the given
    one, each taken from that month's summary, drops the months whose total
    is zero and returns the mean of the others, rounded to an integer number
    of agorot, or 0 when every month is zero; totals 0, 120, 0 give 120. *)
Theorem category_average_window (db : database) (categoryId : string)
    (year month : Z) :
  let p1 := prev_month year month in
  let p2 := prev_month (fst p1) (snd p1) in
  let p3 := prev_month (fst p2) (snd p2) in
  let totals :=
    [ category_expense db categoryId (fst p1) (snd p1);
      category_expense db categoryId (fst p2) (snd p2);
      category_expense db categoryId (fst p3) (snd p3) ] in
  prev_month year month
    = (if month <=? 1 then (year - 1, 12) else (year, month - 1))
  /\ category_totals db categoryId year month 3 = totals
  /\ (forall y m,
        category_expense db categoryId y m =
        match obj_get (Summary.byCategory (getMonthlySummary db y m))
                      categoryId with
        | Some catData => Bucket.expenses catData
        | None => 0
        end)
  /\ getCategoryAverage db categoryId year month 3
       = rounded_mean (nonzero totals)
  /\ (nonzero totals = [] ->
        getCategoryAverage db categoryId year month 3 = 0)
  /\ (nonzero totals <> [] ->
        let n := Z.of_nat (length (nonzero totals)) in
        let a := getCategoryAverage db categoryId year month 3 in
        2 * sumZ (nonzero totals) - n < 2 * n * a <= 2 * sumZ (nonzero totals) + n)
  /\ (totals = [0; 120; 0] ->
        getCategoryAverage db categoryId year month 3 = 120)
  /\ category_totals average_db "cat-food" 2024 5 3 = [0; 120; 0]
  /\ getCategoryAverage average_db "cat-food" 2024 5 3 = 120.
Proof.
  intros p1 p2 p3 totals.
  assert (Htot : category_totals db categoryId year month 3 = totals).
  { rewrite category_totals_spec. fold p1.
    rewrite category_totals_spec. fold p2.
    rewrite category_totals_spec. fold p3. reflexivity. }
  assert (Havg : getCategoryAverage db categoryId year month 3
                 = rounded_mean (nonzero totals)).
  { unfold getCategoryAverage. rewrite Htot.
    rewrite filter_positive_nonzero; [apply average_tail|].
    intros t [<-|[<-|[<-|[]]]]; apply category_expense_nonneg. }
  split.
  { unfold prev_month. z_cases; try reflexivity; lia. }
  split; [exact Htot|].
  split; [intros y m; symmetry; apply summary_category_expense|].
  split; [exact Havg|].
  split; [intros Hnil; rewrite Havg, Hnil; reflexivity|].
  split.
  { intros Hne n a. subst a. rewrite Havg.
    destruct (nonzero totals) as [|x r] eqn:Hnz; [congruence|].
    unfold rounded_mean. apply round_div_nearest. subst n. simpl length. lia. }
  split; [intros Heq; rewrite Havg, Heq; reflexivity|].
  split; vm_compute; reflexivity.
Qed.

(** ** Expected income *)

Lemma regular_income_loop (l : list transaction) (a : Z) :
  fold_left regular_income_step l a = a + regular_income l.
Proof.
  unfold regular_income. revert a.
  induction l as [|t l IH]; intros a; simpl; [lia|].
  rewrite IH. unfold regular_income_step.
  destruct ((amount t >? 0) && negb (is_occasional_income t)); simpl; lia.
Qed.

Lemma occasional_income_loop (l : list transaction) (a : Z) :
  fold_left occasional_income_step l a = a + occasional_income l.
Proof.
  unfold occasional_income. revert a.
  induction l as [|t l IH]; intros a; simpl; [lia|].
  rewrite IH. unfold occasional_income_step.
  destruct ((amount t >? 0) && is_occasional_income t); simpl; lia.
Qed.

Lemma regular_income_nonneg (l : list transaction) : 0 <= regular_income l.
Proof.
  unfold regular_income. induction l as [|t l IH]; simpl; [lia|].
  destruct (Z.gtb_spec (amount t) 0); simpl; [|exact IH].
  destruct (is_occasional_income t); simpl; lia.
Qed.

Lemma getRegularIncomeForMonth_spec db year month :
  getRegularIncomeForMonth db year month
  = regular_income (counted_rows db year month).
Proof.
  unfold getRegularIncomeForMonth.
  rewrite regular_income_loop, summary_transactions. lia.
Qed.

Lemma getOccasionalIncomeForMonth_spec db year month :
  getOccasionalIncomeForMonth db year month
  = occasional_income (counted_rows db year month).
Proof.
  unfold getOccasionalIncomeForMonth.
  rewrite occasional_income_loop, summary_transactions. lia.
Qed.

Lemma regular_incomes_spec db n : forall year month,
  regular_incomes db year month n =
  match n with
  | O => []
  | S n' =>
      let p := prev_month year month in
      nonzero [regular_income (counted_rows db (fst p) (snd p))]
      ++ regular_incomes db (fst p) (snd p) n'
  end.
Proof.
  destruct n as [|n]; intros year month; [reflexivity|].
  cbn [regular_incomes]. cbv zeta.
  destruct (prev_month year month) as [y' m']. cbn [fst snd].
  rewrite regular_income_loop, summary_transactions, Z.add_0_l.
  pose proof (regular_income_nonneg (counted_rows db y' m')) as Hnn.
  unfold nonzero. cbn [filter]. rewrite Z.gtb_ltb.
  destruct (Z.ltb_spec 0 (regular_income (counted_rows db y' m')));
    destruct (Z.eqb_spec (regular_income (counted_rows db y' m')) 0);
    simpl; try reflexivity; lia.
Qed.

Lemma nonzero_cons (x : Z) (l : list Z) : nonzero (x :: l) = nonzero [x] ++ nonzero l.
Proof. unfold nonzero. simpl. destruct (x =? 0); reflexivity. Qed.

Lemma getAverageRegularIncome_spec db year month :
  let p1 := prev_month year month in
  let p2 := prev_month (fst p1) (snd p1) in
  let p3 := prev_month (fst p2) (snd p2) in
  getAverageRegularIncome db year month 3 =
  rounded_mean
    (nonzero [ regular_income (counted_rows db (fst p1) (snd p1));
               regular_income (counted_rows db (fst p2) (snd p2));
               regular_income (counted_rows db (fst p3) (snd p3)) ]).
Proof.
  intros p1 p2 p3. unfold getAverageRegularIncome.
  rewrite average_tail.
  rewrite regular_incomes_spec. cbv zeta. fold p1.
  rewrite regular_incomes_spec. cbv zeta. fold p2.
  rewrite regular_incomes_spec. cbv zeta. fold p3.
  cbn [regular_incomes]. rewrite app_nil_r.
  rewrite (nonzero_cons (regular_income (counted_rows db (fst p1) (snd p1)))
             [_; _]).
  rewrite (nonzero_cons (regular_income (counted_rows db (fst p2) (snd p2)))
             [_]).
  reflexivity.
Qed.

(** The fields of the record [calculateAvailableBudget] returns. *)
Lemma budget_fields db year month :
  let b := calculateAvailableBudget db year month in
  let loop :=
    fold_left
      (fixed_step (getAllCategoryAverages db year month)
         (option_map c_id
            (find (fun c => (c_name c =? VARIABLE_EXPENSES_NAME)%string)
                  (getCategories db))))
      (Summary.byCategory (getMonthlySummary db year month)) (0, 0) in
  Budget.actualRegularIncome b = getRegularIncomeForMonth db year month
  /\ Budget.userExpectedIncome b = getExpectedIncome db
  /\ Budget.averageIncome b = getAverageRegularIncome db year month 3
  /\ Budget.actualOccasionalIncome b = getOccasionalIncomeForMonth db year month
  /\ Budget.expectedRegularIncome b =
       expected_regular_income (Budget.actualRegularIncome b)
         (Budget.userExpectedIncome b) (Budget.averageIncome b)
  /\ Budget.expectedIncome b =
       expected_income (Budget.actualRegularIncome b)
         (Budget.userExpectedIncome b) (Budget.averageIncome b)
         (Budget.actualOccasionalIncome b)
  /\ Budget.income b = Budget.expectedIncome b
  /\ Budget.savingsGoal b = getSavingsGoal db (Some year) (Some month)
  /\ Budget.fixedExpenses b = fst loop
  /\ Budget.variableActual b = snd loop
  /\ Budget.availableForVariable b =
       Budget.income b - Budget.savingsGoal b - Budget.fixedExpenses b
  /\ Budget.remainingForVariable b =
       Budget.availableForVariable b - Budget.variableActual b.
Proof.
  intros b loop. subst b. unfold calculateAvailableBudget. fold loop.
  destruct loop as [fixedExpenses variableActual]. simpl.
  repeat split; reflexivity.
Qed.

(** C3. The expected income [calculateAvailableBudget] returns is the
    largest of the month's actual regular income, the user's expected
    income setting and the average regular income of the three months
    before, plus the month's actual occasional income; regular and
    occasional income are the sums of the positive amounts of the month's
    counted rows without and with the occasional flag.  The occasional part
    is the month's own actual sum: no average or setting enters it. *)
Theorem expected_income_formula (db : database) (year month : Z) :
  let b := calculateAvailableBudget db year month in
  let counted := Summary.transactions (getMonthlySummary db year month) in
  let p1 := prev_month year month in
  let p2 := prev_month (fst p1) (snd p1) in
  let p3 := prev_month (fst p2) (snd p2) in
  counted =
    filter (fun t => negb (is_transfer t) && negb (is_investment t))
           (getTransactionsByIsraeliMonth db year month)
  /\ Budget.actualRegularIncome b =
       sumZ (map amount
               (filter (fun t => (amount t >? 0)
                                 && negb (is_occasional_income t)) counted))
  /\ Budget.actualOccasionalIncome b =
       sumZ (map amount
               (filter (fun t => (amount t >? 0)
                                 && is_occasional_income t) counted))
  /\ Budget.userExpectedIncome b = getExpectedIncome db
  /\ Budget.averageIncome b = getAverageRegularIncome db year month 3
  /\ getAverageRegularIncome db year month 3 =
       rounded_mean
         (nonzero [ regular_income (counted_rows db (fst p1) (snd p1));
                    regular_income (counted_rows db (fst p2) (snd p2));
                    regular_income (counted_rows db (fst p3) (snd p3)) ])
  /\ Budget.expectedRegularIncome b =
       Z.max (Z.max (Budget.actualRegularIncome b)
                    (Budget.userExpectedIncome b))
             (Budget.averageIncome b)
  /\ Budget.expectedIncome b =
       Z.max (Z.max (Budget.actualRegularIncome b)
                    (Budget.userExpectedIncome b))
             (Budget.averageIncome b)
       + Budget.actualOccasionalIncome b.
Proof.
  intros b counted p1 p2 p3.
  destruct (budget_fields db year month)
    as (Hr & Hu & Ha & Ho & Her & He & _).
  fold b in Hr, Hu, Ha, Ho, Her, He.
  assert (Hc : counted = counted_rows db year month)
    by apply summary_transactions.
  split; [exact Hc|].
  split; [rewrite Hr, getRegularIncomeForMonth_spec, Hc; reflexivity|].
  split; [rewrite Ho, getOccasionalIncomeForMonth_spec, Hc; reflexivity|].
  split; [exact Hu|]. split; [exact Ha|].
  split; [apply getAverageRegularIncome_spec|].
  split; [exact Her | exact He].
Qed.

(** C9. The expected income of the budget calculation does not decrease
    when the actual regular income, the expected-income setting or the
    average regular income grows and the other two stay; and for a fixed
    expected regular income, adding [d] to the actual occasional income
    adds exactly [d]. *)
Theorem expected_income_monotone (a a' u u' v v' o d : Z) :
  a <= a' -> u <= u' -> v <= v' ->
  expected_income a u v o <= expected_income a' u v o
  /\ expected_income a u v o <= expected_income a u' v o
  /\ expected_income a u v o <= expected_income a u v' o
  /\ expected_income a u v (o + d) = expected_income a u v o + d
  /\ (expected_regular_income a' u' v' = expected_regular_income a u v ->
      expected_income a' u' v' (o + d) = expected_income a u v o + d)
  /\ forall db year month,
       let b := calculateAvailableBudget db year month in
       Budget.expectedIncome b =
       expected_income (Budget.actualRegularIncome b)
         (Budget.userExpectedIncome b) (Budget.averageIncome b)
         (Budget.actualOccasionalIncome b).
Proof.
  intros Ha Hu Hv.
  split; [unfold expected_income, expected_regular_income; lia|].
  split; [unfold expected_income, expected_regular_income; lia|].
  split; [unfold expected_income, expected_regular_income; lia|].
  split; [unfold expected_income, expected_regular_income; lia|].
  split; [unfold expected_income; lia|].
  intros db year month b.
  destruct (budget_fields db year month) as (_ & _ & _ & _ & _ & He & _).
  exact He.
Qed.

Lemma expected_income_monotone_witness :
  expected_income 1200000 1300000 1250000 50000 = 1350000
  /\ expected_income 1200000 1300000 1250000 50000
     <= expected_income 1400000 1300000 1250000 50000
  /\ expected_income 1200000 1300000 1250000 (50000 + 7)
     = expected_income 1200000 1300000 1250000 50000 + 7.
Proof.
  destruct (@expected_income_monotone 1200000 1400000 1300000 1300000
              1250000 1250000 50000 7)
    as (H1 & _ & _ & H4 & _); [lia | lia | lia |].
  split; [reflexivity|]. split; [exact H1 | exact H4].
Defined.

(** ** Fixed and variable expenses *)

Lemma In_insert_by_name c u l : In c (insert_by_name u l) <-> c = u \/ In c l.
Proof.
  induction l as [|v l IH]; simpl.
  - intuition congruence.
  - destruct (c_name u <=? c_name v)%string; simpl; rewrite ?IH;
      intuition congruence.
Qed.

Lemma In_getCategories db c : In c (getCategories db) <-> In c (categories db).
Proof.
  unfold getCategories. induction (categories db) as [|u l IH]; simpl.
  - tauto.
  - rewrite In_insert_by_name, IH. intuition congruence.
Qed.

(** The averages object after the categories [l] have been entered. *)
Lemma averages_loop db year month k (l : list category) :
  forall averages,
    obj_get
      (fold_left
         (fun averages cat =>
            obj_set averages (c_id cat)
              (getCategoryAverage db (c_id cat) year month 3))
         l averages) k
    = if existsb (fun c => (c_id c =? k)%string) l
      then Some (getCategoryAverage db k year month 3)
      else obj_get averages k.
Proof.
  induction l as [|c l IH]; intros averages; simpl; [reflexivity|].
  rewrite IH, obj_get_set.
  destruct (existsb (fun c0 => (c_id c0 =? k)%string) l);
    [now rewrite orb_true_r|].
  rewrite orb_false_r.
  destruct (String.eqb_spec (c_id c) k) as [->|]; reflexivity.
Qed.

Lemma averages_known db year month k :
  known_category db k ->
  average_or_0 (getAllCategoryAverages db year month) k
  = getCategoryAverage db k year month 3.
Proof.
  intros Hk. unfold average_or_0, getAllCategoryAverages.
  rewrite obj_get_set.
  destruct (String.eqb_spec "uncategorized" k) as [<-|Hne]; [reflexivity|].
  rewrite averages_loop.
  destruct Hk as [->|(c & Hc & <-)]; [congruence|].
  assert (He : existsb (fun c0 => (c_id c0 =? c_id c)%string)
                       (getCategories db) = true).
  { apply existsb_exists. exists c. split; [now apply In_getCategories|].
    apply String.eqb_refl. }
  now rewrite He.
Qed.

Lemma averages_unknown db year month k :
  ~ known_category db k ->
  average_or_0 (getAllCategoryAverages db year month) k = 0.
Proof.
  intros Hk. unfold average_or_0, getAllCategoryAverages.
  rewrite obj_get_set.
  destruct (String.eqb_spec "uncategorized" k) as [<-|Hne];
    [exfalso; apply Hk; now left|].
  rewrite averages_loop.
  destruct (existsb (fun c => (c_id c =? k)%string) (getCategories db)) eqn:He;
    [|reflexivity].
  exfalso. apply Hk. right. apply existsb_exists in He as (c & Hc & Heq).
  exists c. split; [now apply In_getCategories | now apply String.eqb_eq].
Qed.

(** [fixedExpenses] after the loop over the entries. *)
Lemma fixed_loop_fst averages V (entries : list (string * Bucket.t)) :
  forall f0 v0,
    fst (fold_left (fixed_step averages V) entries (f0, v0))
    = f0 + sumZ (map (fun e => Z.max (Bucket.expenses (snd e))
                                     (average_or_0 averages (fst e)))
                     (filter (fun e => negb (is_variable_category (fst e) V))
                             entries)).
Proof.
  induction entries as [|[k b] entries IH]; intros f0 v0; simpl; [lia|].
  destruct (is_variable_category k V); simpl; rewrite IH; lia.
Qed.

(** [variableActual] after the loop, for an object (keys are unique). *)
Lemma fixed_loop_snd averages V (entries : list (string * Bucket.t)) :
  NoDup (map fst entries) ->
  forall f0 v0,
    snd (fold_left (fixed_step averages V) entries (f0, v0))
    = match V with
      | Some v =>
          match obj_get entries v with
          | Some b => Bucket.expenses b
          | None => v0
          end
      | None => v0
      end.
Proof.
  induction entries as [|[k b] entries IH]; intros Hnd f0 v0; simpl.
  - destruct V; reflexivity.
  - inversion Hnd as [|? ? Hnotin Hnd']; subst.
    destruct V as [v|]; simpl.
    + destruct (String.eqb_spec k v) as [->|Hne].
      * rewrite IH by assumption.
        apply obj_get_None in Hnotin. now rewrite Hnotin.
      * now rewrite IH by assumption.
    + now rewrite IH by assumption.
Qed.

Lemma find_name_spec db :
  match find (fun c => (c_name c =? VARIABLE_EXPENSES_NAME)%string)
             (getCategories db) with
  | Some c => In c (categories db) /\ c_name c = VARIABLE_EXPENSES_NAME
  | None => forall c, In c (categories db) -> c_name c <> VARIABLE_EXPENSES_NAME
  end.
Proof.
  destruct (find _ (getCategories db)) as [c|] eqn:Hf.
  - apply find_some in Hf as [Hin Hname].
    split; [now apply In_getCategories | now apply String.eqb_eq].
  - intros c Hin Hname. apply In_getCategories in Hin.
    apply (find_none _ _ Hf) in Hin. apply String.eqb_neq in Hin. contradiction.
Qed.

Lemma sum_over_keys (F : string * Bucket.t -> Z) (G : string -> Z)
    (P : string -> bool) (entries : list (string * Bucket.t)) :
  (forall e, In e entries -> F e = G (fst e)) ->
  sumZ (map F (filter (fun e => P (fst e)) entries))
  = sumZ (map G (filter P (map fst entries))).
Proof.
  induction entries as [|e entries IH]; intros HF; simpl; [reflexivity|].
  destruct (P (fst e)); simpl; rewrite IH by (intros; apply HF; now right);
    [rewrite (HF e) by now left|]; reflexivity.
Qed.

Lemma bucket_keys db year month k :
  In k (map fst (Summary.byCategory (getMonthlySummary db year month)))
  <-> exists t, In t (counted_rows db year month) /\ catId_of t = k.
Proof.
  pose proof (summary_byCategory db year month k) as Hget.
  split.
  - intros Hin.
    destruct (obj_get (Summary.byCategory (getMonthlySummary db year month)) k)
      as [b|] eqn:Hg; [|apply obj_get_None in Hg; contradiction].
    destruct (grouped_under k (counted_rows db year month)) as [|t g] eqn:Hgr;
      [discriminate|].
    assert (Ht : In t (grouped_under k (counted_rows db year month)))
      by (rewrite Hgr; now left).
    apply filter_In in Ht as [Ht Hk]. exists t. split; [assumption|].
    now apply String.eqb_eq.
  - intros (t & Ht & Hk).
    assert (Hgr : In t (grouped_under k (counted_rows db year month)))
      by (apply filter_In; split; [assumption | now apply String.eqb_eq]).
    destruct (obj_get (Summary.byCategory (getMonthlySummary db year month)) k)
      as [b|] eqn:Hg.
    + apply obj_get_In in Hg. change k with (fst (k, b)). now apply in_map.
    + destruct (grouped_under k (counted_rows db year month));
        [destruct Hgr | discriminate].
Qed.

Lemma has_average_spec db k : has_average db k = true <-> known_category db k.
Proof.
  unfold has_average, known_category.
  rewrite orb_true_iff, existsb_exists. split.
  - intros [He|(c & Hc & He)]; apply String.eqb_eq in He; eauto.
  - intros [->|(c & Hc & <-)]; [left | right; exists c; split; [assumption|]];
      apply String.eqb_refl.
Qed.

(** [averages[catId] || 0] *)
Lemma average_or_0_spec db year month k :
  average_or_0 (getAllCategoryAverages db year month) k
  = if has_average db k then getCategoryAverage db k year month 3 else 0.
Proof.
  destruct (has_average db k) eqn:Hk.
  - apply averages_known, has_average_spec, Hk.
  - apply averages_unknown. intros Hn. apply has_average_spec in Hn.
    congruence.
Qed.

(** C4 as amended.  [calculateAvailableBudget] returns as fixed expenses
    the sum, over the month's buckets other than the one of the category
    named exactly as the variable-expenses category, of the larger of the
    bucket's expense this month and the average it finds for the bucket's
    key: the three-month average of the category when the key is the id of
    a stored category or 'uncategorized', and nothing otherwise, so that a
    bucket keyed by a category id that is not stored contributes its
    expense of the month alone.  With no category of that name the sum
    runs over all buckets.  When every bucket other than the variable one
    is keyed by a stored category or by 'uncategorized' the sum is that of
    the larger of expense and three-month average.  The variable
    category's expense is returned apart, the amount available for
    variable expenses is expected income minus savings goal minus fixed
    expenses, the amount remaining is that minus the variable expense, and
    both can be negative: the function returns them as they are. *)
Theorem fixed_and_variable_budget (db : database) (year month : Z) :
  let b := calculateAvailableBudget db year month in
  let V := variable_category_id db in
  let keys := map fst (Summary.byCategory (getMonthlySummary db year month)) in
  let fixed k :=
    match V with
    | Some v => negb (k =? v)%string
    | None => true
    end in
  let contribution k :=
    Z.max (category_expense db k year month)
          (if has_average db k then getCategoryAverage db k year month 3
           else 0) in
  match V with
  | Some v =>
      exists c, In c (categories db)
                /\ c_name c = VARIABLE_EXPENSES_NAME /\ c_id c = v
  | None =>
      forall c, In c (categories db) -> c_name c <> VARIABLE_EXPENSES_NAME
  end
  /\ NoDup keys
  /\ (forall k, In k keys <->
                exists t, In t (counted_rows db year month) /\ catId_of t = k)
  /\ Budget.fixedExpenses b = sumZ (map contribution (filter fixed keys))
  /\ (V = None -> Budget.fixedExpenses b = sumZ (map contribution keys))
  /\ (forall k, known_category db k ->
        contribution k
        = Z.max (category_expense db k year month)
                (getCategoryAverage db k year month 3))
  /\ (forall k, ~ known_category db k ->
        contribution k = category_expense db k year month)
  /\ ((forall k, In k keys -> fixed k = true -> known_category db k) ->
      Budget.fixedExpenses b
      = sumZ (map (fun k => Z.max (category_expense db k year month)
                                  (getCategoryAverage db k year month 3))
                  (filter fixed keys)))
  /\ Budget.variableActual b =
       match V with
       | Some v => category_expense db v year month
       | None => 0
       end
  /\ Budget.savingsGoal b = getSavingsGoal db (Some year) (Some month)
  /\ Budget.availableForVariable b =
       Budget.expectedIncome b - Budget.savingsGoal b - Budget.fixedExpenses b
  /\ Budget.remainingForVariable b =
       Budget.availableForVariable b - Budget.variableActual b
  /\ Budget.availableForVariable (calculateAvailableBudget average_db 2024 3)
       = -120
  /\ Budget.remainingForVariable (calculateAvailableBudget average_db 2024 3)
       = -120.
Proof.
  intros b V keys fixed contribution.
  destruct (budget_fields db year month)
    as (_ & _ & _ & _ & _ & _ & Hinc & Hsav & Hfix & Hvar & Hav & Hrem).
  fold b in Hinc, Hsav, Hfix, Hvar, Hav, Hrem.
  fold (variable_category_id db) in Hfix, Hvar. fold V in Hfix, Hvar.
  assert (Hnd : NoDup keys).
  { exact (proj1 (group_loop (Summary.transactions
                                (getMonthlySummary db year month)))). }
  assert (Hfilter : filter (fun k => negb (is_variable_category k V)) keys
                    = filter fixed keys).
  { apply filter_ext. intros k. subst fixed. unfold is_variable_category.
    destruct V; reflexivity. }
  assert (Hfixed : Budget.fixedExpenses b
                   = sumZ (map contribution (filter fixed keys))).
  { rewrite <- Hfilter, Hfix, fixed_loop_fst, Z.add_0_l. subst keys.
    apply (sum_over_keys _ contribution
             (fun k => negb (is_variable_category k V))).
    intros [k bk] Hin. cbn [fst snd]. subst contribution. cbv beta.
    rewrite average_or_0_spec.
    apply In_obj_get in Hin; [|exact Hnd].
    rewrite <- summary_category_expense, Hin. reflexivity. }
  assert (Hknown : forall k, known_category db k ->
            contribution k
            = Z.max (category_expense db k year month)
                    (getCategoryAverage db k year month 3)).
  { intros k Hk. apply has_average_spec in Hk. subst contribution. cbv beta.
    now rewrite Hk. }
  split.
  { pose proof (find_name_spec db) as Hfind. subst V.
    unfold variable_category_id.
    destruct (find _ (getCategories db)) as [c|]; simpl.
    - exists c. tauto.
    - exact Hfind. }
  split; [exact Hnd|].
  split; [intros k; apply bucket_keys|].
  split; [exact Hfixed|].
  split.
  { intros HV. rewrite Hfixed. do 2 f_equal. subst fixed. rewrite HV.
    clear. induction keys as [|k keys IH]; simpl; congruence. }
  split; [exact Hknown|].
  split.
  { intros k Hk. subst contribution. cbv beta.
    destruct (has_average db k) eqn:Hh;
      [apply has_average_spec in Hh; contradiction|].
    pose proof (category_expense_nonneg db k year month). lia. }
  split.
  { intros Hall. rewrite Hfixed. f_equal. apply map_ext_in. intros k Hk.
    apply filter_In in Hk as [Hk Hf]. apply Hknown. now apply Hall. }
  split.
  { rewrite Hvar, fixed_loop_snd by exact Hnd.
    destruct V as [v|]; [|reflexivity].
    apply summary_category_expense. }
  split; [exact Hsav|].
  split; [rewrite Hav, Hinc; reflexivity|].
  split; [exact Hrem|].
  split; vm_compute; reflexivity.
Qed.

Lemma fixed_and_variable_budget_witness :
  variable_category_id household_db = Some "cat-var"
  /\ map fst (Summary.byCategory (getMonthlySummary household_db 2024 3))
     = ["cat-var"; "cat-gone"; "cat-rent"]
  /\ Budget.fixedExpenses (calculateAvailableBudget household_db 2024 3)
     = Z.max 500 0 + Z.max 800000 900000
  /\ Budget.variableActual (calculateAvailableBudget household_db 2024 3)
     = 50000
  /\ Budget.availableForVariable (calculateAvailableBudget household_db 2024 3)
     = 1350000 - 200000 - 900500
  /\ Budget.remainingForVariable (calculateAvailableBudget household_db 2024 3)
     = 249500 - 50000.
Proof.
  destruct (fixed_and_variable_budget household_db 2024 3)
    as (_ & _ & _ & Hfixed & _ & _ & _ & _ & Hvar & _ & Hav & Hrem & _).
  split; [reflexivity|]. split; [vm_compute; reflexivity|].
  split; [rewrite Hfixed; vm_compute; reflexivity|].
  split; [rewrite Hvar; vm_compute; reflexivity|].
  split; [rewrite Hav; vm_compute; reflexivity|].
  rewrite Hrem. vm_compute. reflexivity.
Defined.

(** C4, counterexample to the claim as first stated.  The payments of
    [orphan_db] carry the id of a category that is not stored.  In April
    2024 their bucket has an expense of 100 and the three-month average of
    the category is 500, but no average is computed for a category that is
    not stored: the fixed expenses are 100, not the larger of the two. *)
Lemma budget_unknown_category :
  map fst (Summary.byCategory (getMonthlySummary orphan_db 2024 4))
  = ["cat-gone"]
  /\ variable_category_id orphan_db = None
  /\ category_expense orphan_db "cat-gone" 2024 4 = 100
  /\ getCategoryAverage orphan_db "cat-gone" 2024 4 3 = 500
  /\ Budget.fixedExpenses (calculateAvailableBudget orphan_db 2024 4) = 100
  /\ Budget.fixedExpenses (calculateAvailableBudget orphan_db 2024 4)
     <> sumZ (map (fun k => Z.max (category_expense orphan_db k 2024 4)
                                  (getCategoryAverage orphan_db k 2024 4 3))
                  (map fst (Summary.byCategory
                              (getMonthlySummary orphan_db 2024 4)))).
Proof.
  repeat split; try (vm_compute; reflexivity). vm_compute. discriminate.
Qed.

(** ** Year-to-date summary *)

Lemma ytd_loop (year : Z) (l : list transaction) :
  forall st,
    fold_left (ytd_step year) l st =
    let rows := filter (fun t => belongsToYear t =? year) l in
    mkYtdState
      (y_income st
       + positive_total (filter (fun t => negb (is_investment t)) rows))
      (y_expenses st
       + negative_total (filter (fun t => negb (is_investment t)) rows))
      (y_investmentTotal st + absolute_total (filter is_investment rows))
      (length rows + y_count st).
Proof.
  induction l as [|t l IH]; intros st; cbv zeta.
  - destruct st. simpl. unfold positive_total, negative_total, absolute_total.
    simpl. f_equal; lia.
  - cbn [fold_left filter]. rewrite IH. cbv zeta. unfold ytd_step.
    destruct (belongsToYear t =? year); [|reflexivity].
    cbn [filter]. destruct (is_investment t); cbn [negb filter].
    + cbn [y_income y_expenses y_investmentTotal y_count length].
      unfold absolute_total. simpl. f_equal; lia.
    + unfold positive_total, negative_total. cbn [filter].
      rewrite (Z.gtb_ltb (amount t) 0).
      destruct (Z.ltb_spec 0 (amount t)); destruct (Z.ltb_spec (amount t) 0);
        simpl; f_equal; lia.
Qed.

Lemma belongsToYear_spec (t : transaction) :
  belongsToYear t =
  if (d_month (date_of t) =? 1) && (d_day (date_of t) <=? 3) && bill_pattern t
  then d_year (date_of t) - 1
  else d_year (date_of t).
Proof.
  unfold belongsToYear, bill_pattern.
  destruct ((d_month (date_of t) =? 1) && (d_day (date_of t) <=? 3));
    reflexivity.
Qed.

(** C8. [getYearToDateSummary] reads the rows that are not transfers and
    are dated from January 1st of the year to January 3rd of the next;
    a row of January 1st to 3rd matching a salary or credit-card pattern
    resolves to the year before its own, every other row to its own year;
    the rows resolving to the requested year are counted, the absolute
    values of the investment rows summed apart and the other amounts summed
    into income or expenses by sign; the result carries income, expenses,
    their difference, the investment total and the number of counted rows. *)
Theorem year_to_date_summary (db : database) (year : Z) :
  let s := getYearToDateSummary db year in
  let rows := ytd_counted db year in
  (forall t,
      In t (ytd_rows db year) <->
      In t (transactions db) /\ is_transfer t = false
      /\ date_leb (mkDate year 1 1) (date_of t) = true
      /\ date_leb (date_of t) (mkDate (year + 1) 1 3) = true)
  /\ (forall t,
        belongsToYear t =
        if (d_month (date_of t) =? 1) && (d_day (date_of t) <=? 3)
           && bill_pattern t
        then d_year (date_of t) - 1
        else d_year (date_of t))
  /\ (forall t, In t rows <-> In t (ytd_rows db year) /\ belongsToYear t = year)
  /\ (forall t, valid_date (date_of t) ->
        (In t rows <->
         In t (transactions db) /\ is_transfer t = false
         /\ belongsToYear t = year))
  /\ Ytd.year s = year
  /\ Ytd.income s =
       positive_total (filter (fun t => negb (is_investment t)) rows)
  /\ Ytd.expenses s =
       negative_total (filter (fun t => negb (is_investment t)) rows)
  /\ Ytd.balance s = Ytd.income s - Ytd.expenses s
  /\ Ytd.investmentTotal s = absolute_total (filter is_investment rows)
  /\ Ytd.transactionCount s = length rows.
Proof.
  intros s rows.
  assert (Hrows : forall t,
      In t (ytd_rows db year) <->
      In t (transactions db) /\ is_transfer t = false
      /\ date_leb (mkDate year 1 1) (date_of t) = true
      /\ date_leb (date_of t) (mkDate (year + 1) 1 3) = true).
  { intros t. unfold ytd_rows. rewrite filter_In, !andb_true_iff, negb_true_iff.
    tauto. }
  assert (Hcnt : forall t,
      In t rows <-> In t (ytd_rows db year) /\ belongsToYear t = year).
  { intros t. subst rows. unfold ytd_counted. rewrite filter_In, Z.eqb_eq.
    tauto. }
  split; [exact Hrows|]. split; [exact belongsToYear_spec|].
  split; [exact Hcnt|]. split.
  { intros t [Hmonth Hday]. rewrite Hcnt, Hrows. split; [tauto|].
    intros (Hin & Htr & Hy). repeat split; try assumption.
    - rewrite belongsToYear_spec in Hy. unfold date_leb; cbn [d_year d_month d_day].
      destruct ((d_month (date_of t) =? 1) && (d_day (date_of t) <=? 3)
                && bill_pattern t) eqn:Hb.
      + apply andb_true_iff in Hb as [Hb _].
        apply andb_true_iff in Hb as [Hb1 Hb2].
        apply Z.eqb_eq in Hb1. apply Z.leb_le in Hb2.
        z_cases; simpl; try reflexivity; lia.
      + z_cases; simpl; try reflexivity; lia.
    - rewrite belongsToYear_spec in Hy. unfold date_leb; cbn [d_year d_month d_day].
      destruct ((d_month (date_of t) =? 1) && (d_day (date_of t) <=? 3)
                && bill_pattern t) eqn:Hb.
      + apply andb_true_iff in Hb as [Hb _].
        apply andb_true_iff in Hb as [Hb1 Hb2].
        apply Z.eqb_eq in Hb1. apply Z.leb_le in Hb2.
        z_cases; simpl; try reflexivity; lia.
      + z_cases; simpl; try reflexivity; lia. }
  subst s. unfold getYearToDateSummary. rewrite ytd_loop. cbv zeta.
  fold (ytd_counted db year). fold rows. simpl.
  repeat split; try reflexivity. lia.
Qed.

(** ** Flags and categories *)

Lemma In_update_where_id f tid rows t' :
  In t' (update_where_id f tid rows) <->
  exists t, In t rows /\ t' = if (id t =? tid)%string then f t else t.
Proof.
  unfold update_where_id. rewrite in_map_iff.
  split; intros (t & H1 & H2); exists t; intuition congruence.
Qed.

Lemma map_id_update_where_id f tid rows :
  (forall t, id (f t) = id t) ->
  map id (update_where_id f tid rows) = map id rows.
Proof.
  intros Hf. unfold update_where_id. rewrite map_map. apply map_ext.
  intros t. destruct (id t =? tid)%string; [apply Hf | reflexivity].
Qed.

Lemma find_update_where_id f tid i rows :
  (forall t, id (f t) = id t) ->
  find (fun t => (id t =? i)%string) (update_where_id f tid rows)
  = if (tid =? i)%string
    then option_map f (find (fun t => (id t =? i)%string) rows)
    else find (fun t => (id t =? i)%string) rows.
Proof.
  intros Hf. induction rows as [|t rows IH]; simpl.
  - destruct (tid =? i)%string; reflexivity.
  - destruct (String.eqb_spec (id t) tid) as [Ht|Ht].
    + rewrite Hf, IH. subst tid.
      destruct (String.eqb_spec (id t) i); reflexivity.
    + rewrite IH. destruct (String.eqb_spec (id t) i) as [Hi|Hi];
        [|reflexivity].
      destruct (String.eqb_spec tid i); [congruence | reflexivity].
Qed.

(** C10. [setTransactionInvestment] gives every row with the given id the
    investment flag it is called with and the transfer flag 0, whatever the
    flags were and also when it is called with [false]; nothing else of the
    row and no other row changes. *)
Theorem set_investment_clears_transfer (db : database) (transactionId : string)
    (isInvestment : bool) :
  let db' := setTransactionInvestment db transactionId isInvestment in
  map id (transactions db') = map id (transactions db)
  /\ (forall t', In t' (transactions db') -> id t' = transactionId ->
        is_investment t' = isInvestment /\ is_transfer t' = false)
  /\ (forall t, select_by_id db transactionId = Some t ->
        exists t', select_by_id db' transactionId = Some t'
          /\ is_investment t' = isInvestment /\ is_transfer t' = false
          /\ id t' = id t /\ date_of t' = date_of t /\ amount t' = amount t
          /\ description t' = description t /\ memo t' = memo t
          /\ account t' = account t /\ type t' = type t
          /\ category_id t' = category_id t
          /\ user_comment t' = user_comment t
          /\ is_occasional_income t' = is_occasional_income t)
  /\ (forall t, In t (transactions db) -> id t <> transactionId ->
        In t (transactions db'))
  /\ (forall t', In t' (transactions db') -> id t' <> transactionId ->
        In t' (transactions db))
  /\ categories db' = categories db
  /\ category_rules db' = category_rules db
  /\ settings db' = settings db
  /\ option_map (fun t => (is_transfer t, is_investment t))
       (select_by_id flags_db (id card_lump_sum)) = Some (true, true)
  /\ option_map (fun t => (is_transfer t, is_investment t))
       (select_by_id
          (setTransactionInvestment flags_db (id card_lump_sum) false)
          (id card_lump_sum)) = Some (false, false).
Proof.
  intros db'. subst db'. unfold setTransactionInvestment. simpl.
  split; [apply map_id_update_where_id; reflexivity|].
  split.
  { intros t' Hin Hid. apply In_update_where_id in Hin as (t & Hin & ->).
    destruct (String.eqb_spec (id t) transactionId); [split; reflexivity|].
    contradiction. }
  split.
  { intros t Hsel. unfold select_by_id in *. simpl.
    rewrite find_update_where_id by reflexivity.
    rewrite String.eqb_refl, Hsel. simpl. eexists. split; [reflexivity|].
    simpl. repeat split; reflexivity. }
  split.
  { intros t Hin Hid. apply In_update_where_id. exists t.
    split; [assumption|].
    destruct (String.eqb_spec (id t) transactionId); [contradiction|reflexivity]. }
  split.
  { intros t' Hin Hid. apply In_update_where_id in Hin as (t & Hin & ->).
    destruct (String.eqb_spec (id t) transactionId) as [He|He];
      [simpl in Hid; contradiction | assumption]. }
  repeat split; reflexivity.
Qed.

Lemma rule_for_upsert_rule p X c rules :
  rule_for p (upsert_rule rules X c)
  = if (X =? p)%string then Some c else rule_for p rules.
Proof.
  unfold rule_for. induction rules as [|r rules IH]; simpl.
  - destruct (X =? p)%string; reflexivity.
  - destruct (String.eqb_spec (description_pattern r) X) as [HX|HX]; simpl.
    + subst X. destruct (description_pattern r =? p)%string; reflexivity.
    + destruct (String.eqb_spec (description_pattern r) p) as [Hp|Hp].
      * destruct (String.eqb_spec X p); [congruence | reflexivity].
      * exact IH.
Qed.

Lemma rule_for_delete_rule p X rules :
  rule_for p (delete_rule X rules)
  = if (X =? p)%string then None else rule_for p rules.
Proof.
  unfold rule_for, delete_rule. induction rules as [|r rules IH]; simpl.
  - destruct (X =? p)%string; reflexivity.
  - destruct (String.eqb_spec (description_pattern r) X) as [HX|HX]; simpl.
    + rewrite IH. subst X.
      destruct (description_pattern r =? p)%string; reflexivity.
    + destruct (String.eqb_spec (description_pattern r) p) as [Hp|Hp].
      * destruct (String.eqb_spec X p); [congruence | reflexivity].
      * exact IH.
Qed.

Lemma truthy_true s : s <> "" -> truthy s = true.
Proof.
  intros H. unfold truthy. destruct (String.eqb_spec s ""); [contradiction|].
  reflexivity.
Qed.

Lemma select_after_set_category db tid c :
  select_by_id
    (with_transactions db
       (update_where_id (set_category c) tid (transactions db))) tid
  = option_map (set_category c) (select_by_id db tid).
Proof.
  unfold select_by_id. simpl.
  rewrite find_update_where_id by reflexivity.
  now rewrite String.eqb_refl.
Qed.

(** The rows after a category was set by hand and cascaded. *)
Lemma cascade_rows c X tid rows :
  c <> "" ->
  apply_rule c X (update_where_id (set_category (Some c)) tid rows)
  = map (fun u =>
           if (id u =? tid)%string
              || ((description u =? X)%string && uncategorized u)
           then set_category (Some c) u else u)
        rows.
Proof.
  intros Hc. unfold apply_rule, update_where_id. rewrite map_map.
  apply map_ext. intros u.
  destruct (id u =? tid)%string; simpl.
  - unfold uncategorized. simpl.
    destruct (String.eqb_spec c ""); [contradiction|].
    now rewrite andb_false_r.
  - reflexivity.
Qed.

(** Case analysis on the conditions of a function body, the inner ones
    first. *)
Ltac innermost_cases :=
  repeat match goal with
         | |- context [match ?x with _ => _ end] =>
             lazymatch x with
             | context [match _ with _ => _ end] => fail
             | _ => destruct x
             end
         end.

Lemma stored_category_exists (db : database) (c : string) :
  existsb (fun k => (c_id k =? c)%string) (categories db) = true
  <-> In c (map c_id (categories db)).
Proof.
  rewrite existsb_exists, in_map_iff. split.
  - intros (k & Hk & He). apply String.eqb_eq in He. eauto.
  - intros (k & He & Hk). exists k. split; [assumption|].
    now apply String.eqb_eq.
Qed.

Lemma setTransactionCategory_cascade db tid t c :
  select_by_id db tid = Some t -> description t <> "" -> c <> "" ->
  In c (map c_id (categories db)) ->
  setTransactionCategory db tid (Some c)
  = Returned
      (mkDb (map (fun u =>
                    if (id u =? tid)%string
                       || ((description u =? description t)%string
                           && uncategorized u)
                    then set_category (Some c) u else u)
                 (transactions db))
            (categories db)
            (upsert_rule (category_rules db) (description t) c)
            (settings db)).
Proof.
  intros Hsel HX Hc Hin. apply stored_category_exists in Hin.
  unfold setTransactionCategory, insert_rule.
  rewrite select_after_set_category, Hsel.
  cbn [option_map set_category description truthy_opt].
  rewrite (truthy_true _ HX), (truthy_true _ Hc).
  cbn [andb negb with_transactions categories]. rewrite Hin.
  unfold with_category_rules, with_transactions.
  cbn [transactions categories category_rules settings].
  now rewrite cascade_rows.
Qed.

(** The foreign key: a category id that is not stored. *)
Lemma setTransactionCategory_unknown db tid t c :
  select_by_id db tid = Some t -> description t <> "" -> c <> "" ->
  ~ In c (map c_id (categories db)) ->
  setTransactionCategory db tid (Some c)
  = Threw (with_transactions db
             (update_where_id (set_category (Some c)) tid (transactions db))).
Proof.
  intros Hsel HX Hc Hin.
  assert (He : existsb (fun k => (c_id k =? c)%string) (categories db)
               = false).
  { destruct (existsb _ (categories db)) eqn:He; [|reflexivity].
    apply stored_category_exists in He. contradiction. }
  unfold setTransactionCategory, insert_rule.
  rewrite select_after_set_category, Hsel.
  cbn [option_map set_category description truthy_opt].
  rewrite (truthy_true _ HX), (truthy_true _ Hc).
  cbn [andb negb with_transactions categories]. now rewrite He.
Qed.

Lemma setTransactionCategory_blank db tid t c :
  select_by_id db tid = Some t -> description t = "" -> c <> "" ->
  setTransactionCategory db tid (Some c)
  = Returned
      (with_transactions db
         (update_where_id (set_category (Some c)) tid (transactions db))).
Proof.
  intros Hsel HX Hc. unfold setTransactionCategory.
  rewrite select_after_set_category, Hsel.
  cbn [option_map set_category description truthy_opt].
  rewrite HX, (truthy_true _ Hc). reflexivity.
Qed.

(** The empty string as category id: it is not null, and it is falsy. *)
Lemma setTransactionCategory_empty_id db tid t :
  select_by_id db tid = Some t ->
  setTransactionCategory db tid (Some "")
  = Returned
      (mkDb (update_where_id (set_category (Some "")) tid (transactions db))
            (categories db)
            (if truthy tid && truthy (description t)
             then delete_rule (description t) (category_rules db)
             else category_rules db)
            (settings db)).
Proof.
  intros Hsel. unfold setTransactionCategory.
  rewrite select_after_set_category, Hsel.
  cbn [option_map set_category description truthy_opt].
  change (truthy "") with false. rewrite andb_false_r. cbn [negb andb].
  destruct (truthy tid); [|reflexivity].
  rewrite select_after_set_category, Hsel.
  cbn [option_map set_category description andb].
  destruct (truthy (description t)); reflexivity.
Qed.

Lemma setTransactionCategory_clear db tid t :
  select_by_id db tid = Some t -> tid <> "" ->
  setTransactionCategory db tid None
  = Returned
      (mkDb (update_where_id (set_category None) tid (transactions db))
            (categories db)
            (if truthy (description t)
             then delete_rule (description t) (category_rules db)
             else category_rules db)
            (settings db)).
Proof.
  intros Hsel Htid. unfold setTransactionCategory.
  rewrite select_after_set_category, Hsel.
  cbn [option_map truthy_opt negb andb].
  rewrite (truthy_true _ Htid).
  rewrite select_after_set_category, Hsel.
  cbn [option_map set_category description].
  destruct (truthy (description t)); reflexivity.
Qed.

Lemma setTransactionCategory_frame db tid cid :
  categories (store_of (setTransactionCategory db tid cid)) = categories db
  /\ settings (store_of (setTransactionCategory db tid cid)) = settings db.
Proof.
  unfold setTransactionCategory, insert_rule.
  innermost_cases; split; reflexivity.
Qed.

(** C7 as amended.  For the row [t] a [SELECT] by id returns, with
    description [X].  When [X] and the category id [c] are non-empty and
    [c] is the id of a stored category, [setTransactionCategory] returns
    and has given [t] the category [c], stored the rule from [X] to [c],
    given [c] to every other row whose description is exactly [X] and
    whose category is null or empty, and left the rows with description
    [X] that carry a category, and all rows with another description, as
    they were.  When [X] and [c] are non-empty and [c] is not the id of a
    stored category, the call throws on the rule: [t] has the category
    [c], no rule is stored and no other row has changed.  When [X] is
    empty the call returns with only [t]'s category set and no rule
    stored.  The empty string as category id is written to [t] and then
    treated as a null one.  With a null category id (and a non-empty
    transaction id) the call returns, the category of [t] is cleared, no
    other row changes, and the rule keyed by a non-empty [X] is
    deleted. *)
Theorem set_category_cascade (db : database) (transactionId : string)
    (t : transaction) (c : string) :
  select_by_id db transactionId = Some t ->
  let X := description t in
  let call := setTransactionCategory db transactionId (Some c) in
  let set := store_of call in
  let clearing := setTransactionCategory db transactionId None in
  let cleared := store_of clearing in
  (X <> "" -> c <> "" -> In c (map c_id (categories db)) ->
     call = Returned set
     /\ transactions set =
          map (fun u =>
                 if (id u =? transactionId)%string
                    || ((description u =? X)%string && uncategorized u)
                 then set_category (Some c) u else u)
              (transactions db)
     /\ select_by_id set transactionId = Some (set_category (Some c) t)
     /\ rule_for X (category_rules set) = Some c
     /\ (forall p, p <> X ->
           rule_for p (category_rules set) = rule_for p (category_rules db))
     /\ (forall u, In u (transactions db) -> id u <> transactionId ->
           description u = X -> uncategorized u = true ->
           In (set_category (Some c) u) (transactions set))
     /\ (forall u, In u (transactions db) -> id u <> transactionId ->
           description u = X -> uncategorized u = false ->
           In u (transactions set))
     /\ (forall u, In u (transactions db) -> id u <> transactionId ->
           description u <> X -> In u (transactions set)))
  /\ (X <> "" -> c <> "" -> ~ In c (map c_id (categories db)) ->
        call = Threw set
        /\ transactions set =
             update_where_id (set_category (Some c)) transactionId
               (transactions db)
        /\ select_by_id set transactionId = Some (set_category (Some c) t)
        /\ category_rules set = category_rules db)
  /\ (X = "" -> c <> "" ->
        call = Returned set
        /\ transactions set =
             update_where_id (set_category (Some c)) transactionId
               (transactions db)
        /\ category_rules set = category_rules db)
  /\ (c = "" ->
        call = Returned set
        /\ transactions set =
             update_where_id (set_category (Some "")) transactionId
               (transactions db)
        /\ category_rules set =
             if truthy transactionId && truthy X
             then delete_rule X (category_rules db)
             else category_rules db)
  /\ (transactionId <> "" ->
        clearing = Returned cleared
        /\ transactions cleared =
             update_where_id (set_category None) transactionId
               (transactions db)
        /\ select_by_id cleared transactionId = Some (set_category None t)
        /\ (X <> "" ->
              rule_for X (category_rules cleared) = None
              /\ forall p, p <> X ->
                   rule_for p (category_rules cleared)
                   = rule_for p (category_rules db))
        /\ (X = "" -> category_rules cleared = category_rules db))
  /\ categories set = categories db /\ settings set = settings db
  /\ categories cleared = categories db /\ settings cleared = settings db.
Proof.
  intros Hsel X call set clearing cleared.
  split.
  { intros HX Hc Hin. subst set call.
    rewrite (setTransactionCategory_cascade db transactionId t c Hsel HX Hc
               Hin).
    fold X. cbn [store_of transactions category_rules].
    split; [reflexivity|]. split; [reflexivity|].
    split.
    { unfold select_by_id in *. cbn [transactions].
      clear - Hsel. induction (transactions db) as [|u rows IH];
        [discriminate|]. simpl in *.
      destruct (String.eqb_spec (id u) transactionId) as [He|He]; simpl.
      - rewrite He, String.eqb_refl. congruence.
      - assert (Hid : id (if (description u =? X)%string && uncategorized u
                          then set_category (Some c) u else u) = id u)
          by (destruct ((description u =? X)%string && uncategorized u);
              reflexivity).
        rewrite Hid.
        destruct (String.eqb_spec (id u) transactionId); [contradiction|].
        auto. }
    split; [rewrite rule_for_upsert_rule, String.eqb_refl; reflexivity|].
    split.
    { intros p Hp. rewrite rule_for_upsert_rule.
      destruct (String.eqb_spec X p); [congruence | reflexivity]. }
    split; [|split].
    - intros u Hin' Hid Hd Hu. apply in_map_iff. exists u.
      split; [|assumption].
      apply String.eqb_eq in Hd. rewrite Hd, Hu, orb_true_r. reflexivity.
    - intros u Hin' Hid Hd Hu. apply in_map_iff. exists u.
      split; [|assumption].
      apply String.eqb_neq in Hid. rewrite Hid, Hu, andb_false_r. reflexivity.
    - intros u Hin' Hid Hd. apply in_map_iff. exists u.
      split; [|assumption].
      apply String.eqb_neq in Hid, Hd. rewrite Hid, Hd. reflexivity. }
  split.
  { intros HX Hc Hin. subst set call.
    rewrite (setTransactionCategory_unknown db transactionId t c Hsel HX Hc
               Hin).
    cbn [store_of]. split; [reflexivity|]. split; [reflexivity|].
    split; [|reflexivity].
    rewrite select_after_set_category, Hsel. reflexivity. }
  split.
  { intros HX Hc. subst set call.
    rewrite (setTransactionCategory_blank db transactionId t c Hsel HX Hc).
    repeat split; reflexivity. }
  split.
  { intros Hc. subst set call. rewrite Hc.
    rewrite (setTransactionCategory_empty_id db transactionId t Hsel).
    repeat split; reflexivity. }
  split.
  { intros Htid. subst cleared clearing.
    rewrite (setTransactionCategory_clear db transactionId t Hsel Htid).
    cbn [store_of transactions category_rules]. fold X.
    split; [reflexivity|]. split; [reflexivity|].
    split.
    { unfold select_by_id in *. cbn [transactions].
      rewrite find_update_where_id by reflexivity.
      now rewrite String.eqb_refl, Hsel. }
    split.
    - intros HX. rewrite (truthy_true _ HX). split.
      + rewrite rule_for_delete_rule, String.eqb_refl. reflexivity.
      + intros p Hp. rewrite rule_for_delete_rule.
        destruct (String.eqb_spec X p); [congruence | reflexivity].
    - intros HX. rewrite HX. reflexivity. }
  pose proof (setTransactionCategory_frame db transactionId (Some c)).
  pose proof (setTransactionCategory_frame db transactionId None).
  tauto.
Qed.

Lemma set_category_cascade_witness :
  setTransactionCategory shop_db (id shop_a) (Some "cat-food")
  = Returned
      (store_of (setTransactionCategory shop_db (id shop_a) (Some "cat-food")))
  /\ transactions
       (store_of (setTransactionCategory shop_db (id shop_a) (Some "cat-food")))
     = [ set_category (Some "cat-food") shop_a;
         set_category (Some "cat-food") shop_b;
         shop_c ]
  /\ rule_for "shop"
       (category_rules
          (store_of
             (setTransactionCategory shop_db (id shop_a) (Some "cat-food"))))
     = Some "cat-food".
Proof.
  destruct (set_category_cascade shop_db (id shop_a) shop_a "cat-food"
              eq_refl) as (Hset & _).
  destruct Hset as (Hret & Hrows & _ & Hrule & _);
    [simpl; discriminate | discriminate | simpl; tauto |].
  split; [exact Hret|].
  split; [rewrite Hrows; reflexivity | exact Hrule].
Defined.

(** C7, counterexamples to the claim as first stated.  With an empty
    description the guard [txn.description] stops both the rule and the
    cascade: the other row with the same (empty) description and no
    category keeps no category, and no rule is stored.  With the empty
    string as category id, which is not null, the guard [categoryId] stops
    them as well.  With a category id that is not stored the rule is
    refused by the foreign key and the call throws: the row has the
    category, no rule is stored and the other row with the same
    description keeps no category. *)
Lemma set_category_blank_description :
  select_by_id blank_db (id blank_a) = Some blank_a
  /\ id blank_b <> id blank_a
  /\ description blank_b = description blank_a
  /\ category_id blank_b = None
  /\ rule_for (description blank_a)
       (category_rules
          (store_of
             (setTransactionCategory blank_db (id blank_a) (Some "cat-food"))))
     <> Some "cat-food"
  /\ option_map category_id
       (select_by_id
          (store_of
             (setTransactionCategory blank_db (id blank_a) (Some "cat-food")))
          (id blank_b))
     <> Some (Some "cat-food")
  /\ select_by_id shop_db (id shop_a) = Some shop_a
  /\ rule_for (description shop_a)
       (category_rules
          (store_of (setTransactionCategory shop_db (id shop_a) (Some ""))))
     <> Some ""
  /\ setTransactionCategory shop_db (id shop_a) (Some "cat-unknown")
     = Threw (mkDb [set_category (Some "cat-unknown") shop_a; shop_b; shop_c]
                   (categories shop_db) [] [])
  /\ description shop_b = description shop_a
  /\ category_id shop_b = None.
Proof.
  repeat split; try reflexivity; vm_compute; discriminate.
Qed.

(** ** Ingestion *)

Lemma find_none_existsb {A} (f : A -> bool) (l : list A) :
  find f l = None -> existsb f l = false.
Proof.
  induction l as [|x l IH]; simpl; [reflexivity|].
  destruct (f x); [discriminate | exact IH].
Qed.

Lemma find_by_id_None i rows :
  find_by_id i rows = None <-> ~ In i (map id rows).
Proof.
  unfold find_by_id. induction rows as [|t rows IH]; simpl; [tauto|].
  destruct (String.eqb_spec (id t) i); [|rewrite IH]; intuition congruence.
Qed.

Lemma find_by_id_Some i rows t :
  find_by_id i rows = Some t -> In t rows /\ id t = i.
Proof.
  unfold find_by_id. intros H. apply find_some in H as [H1 H2].
  split; [assumption | now apply String.eqb_eq].
Qed.

Lemma In_find_by_id rows t :
  NoDup (map id rows) -> In t rows -> find_by_id (id t) rows = Some t.
Proof.
  unfold find_by_id. induction rows as [|u rows IH]; simpl; [tauto|].
  intros Hnd [->|Hin]; [now rewrite String.eqb_refl|].
  inversion Hnd as [|? ? Hnotin Hnd']; subst.
  destruct (String.eqb_spec (id u) (id t)) as [He|He]; [|auto].
  exfalso. apply Hnotin. rewrite He. now apply in_map.
Qed.

Lemma find_by_id_app i rows t :
  find_by_id i (rows ++ [t]) =
  match find_by_id i rows with
  | Some u => Some u
  | None => if (id t =? i)%string then Some t else None
  end.
Proof.
  unfold find_by_id. induction rows as [|u rows IH]; simpl; [reflexivity|].
  destruct (id u =? i)%string; [reflexivity | exact IH].
Qed.

Lemma same_classification_refl t : same_classification t t.
Proof. unfold same_classification. tauto. Qed.

Lemma same_classification_trans t u v :
  same_classification t u -> same_classification u v -> same_classification t v.
Proof. unfold same_classification. intuition congruence. Qed.

Section IngestionFacts.
Variable toLowerCase : string -> string.
Variable source : string.

Local Abbreviation upsert := (upsert_rows toLowerCase source).

Lemma upsert_one_rows db txn :
  upsert_one toLowerCase source db txn
  = Some (with_transactions db (upsert (transactions db) txn)).
Proof.
  unfold upsert_one, upsert_rows, select_by_id, find_by_id.
  destruct (find _ (transactions db)) eqn:Hf; [reflexivity|].
  unfold insert_row. cbn [new_row id].
  now rewrite (find_none_existsb _ _ Hf).
Qed.

Lemma upsertMany_rows txns : forall db,
  upsertMany toLowerCase source db txns
  = Some (with_transactions db (fold_left upsert txns (transactions db))).
Proof.
  induction txns as [|txn txns IH]; intros db; simpl.
  - destruct db; reflexivity.
  - rewrite upsert_one_rows, IH. reflexivity.
Qed.

Lemma upsert_ids rows r :
  map id (upsert rows r) =
  match find_by_id (r_id r) rows with
  | Some _ => map id rows
  | None => map id rows ++ [r_id r]
  end.
Proof.
  unfold upsert_rows. destruct (find_by_id (r_id r) rows).
  - apply map_id_update_where_id. reflexivity.
  - rewrite map_app. reflexivity.
Qed.

Lemma upsert_NoDup rows r :
  NoDup (map id rows) -> NoDup (map id (upsert rows r)).
Proof.
  intros Hnd. rewrite upsert_ids.
  destruct (find_by_id (r_id r) rows) eqn:Hf; [assumption|].
  apply find_by_id_None in Hf.
  apply NoDup_app; [assumption | repeat constructor; simpl; tauto |].
  intros x Hx [<-|[]]. contradiction.
Qed.

(** The row with id [i] after one record. *)
Lemma upsert_find i rows r :
  find_by_id i (upsert rows r) =
  if (r_id r =? i)%string then
    Some (match find_by_id i rows with
          | Some t => update_row r source t
          | None => new_row toLowerCase r source
          end)
  else find_by_id i rows.
Proof.
  unfold upsert_rows.
  destruct (find_by_id (r_id r) rows) as [t0|] eqn:Hf.
  - unfold find_by_id in *. rewrite find_update_where_id by reflexivity.
    destruct (String.eqb_spec (r_id r) i) as [<-|]; [|reflexivity].
    now rewrite Hf.
  - rewrite find_by_id_app. cbn [new_row id].
    destruct (String.eqb_spec (r_id r) i) as [<-|]; [now rewrite Hf|].
    destruct (find_by_id i rows); reflexivity.
Qed.

Lemma update_row_same r t : same_classification t (update_row r source t).
Proof. unfold same_classification. simpl. tauto. Qed.

Lemma update_row_carries r t : carries source r (update_row r source t).
Proof. unfold carries. simpl. tauto. Qed.

Lemma new_row_carries r : carries source r (new_row toLowerCase r source).
Proof. unfold carries. simpl. tauto. Qed.

(** A batch without the id [i] leaves the row with id [i] alone. *)
Lemma batch_find_other i txns : forall rows,
  (forall r, In r txns -> r_id r <> i) ->
  find_by_id i (fold_left upsert txns rows) = find_by_id i rows.
Proof.
  induction txns as [|r txns IH]; intros rows Hno; simpl; [reflexivity|].
  rewrite IH by (intros; apply Hno; now right).
  rewrite upsert_find.
  destruct (String.eqb_spec (r_id r) i) as [He|]; [|reflexivity].
  exfalso. apply (Hno r); [now left | assumption].
Qed.

(** A row that is in the table stays, with its classification. *)
Lemma batch_find_same i txns : forall rows t,
  find_by_id i rows = Some t ->
  exists t', find_by_id i (fold_left upsert txns rows) = Some t'
             /\ same_classification t t'.
Proof.
  induction txns as [|r txns IH]; intros rows t Hf; simpl.
  - exists t. split; [assumption | apply same_classification_refl].
  - pose proof (upsert_find i rows r) as Hstep. rewrite Hf in Hstep.
    destruct (r_id r =? i)%string.
    + destruct (IH _ _ Hstep) as (t' & Ht' & Hsame). exists t'.
      split; [assumption|].
      eapply same_classification_trans; [apply update_row_same | exact Hsame].
    + exact (IH _ _ Hstep).
Qed.

(** The last record of the batch with id [i] decides the written columns. *)
Lemma batch_find_last i before r after rows :
  r_id r = i -> (forall r', In r' after -> r_id r' <> i) ->
  exists t', find_by_id i (fold_left upsert (before ++ r :: after) rows)
             = Some t'
             /\ carries source r t'.
Proof.
  intros Hr Hafter. rewrite fold_left_app. simpl.
  rewrite batch_find_other by assumption.
  rewrite upsert_find. apply String.eqb_eq in Hr. rewrite Hr.
  eexists. split; [reflexivity|].
  destruct (find_by_id i _); [apply update_row_carries | apply new_row_carries].
Qed.

(** The first record of the batch with a new id decides the defaults. *)
Lemma batch_find_new before r0 after rows :
  ~ In (r_id r0) (map id rows) ->
  (forall r', In r' before -> r_id r' <> r_id r0) ->
  exists t', find_by_id (r_id r0)
               (fold_left upsert (before ++ r0 :: after) rows) = Some t'
             /\ same_classification (new_row toLowerCase r0 source) t'.
Proof.
  intros Hnew Hbefore. rewrite fold_left_app. simpl.
  apply batch_find_same. rewrite upsert_find, String.eqb_refl.
  rewrite batch_find_other by assumption.
  apply find_by_id_None in Hnew. now rewrite Hnew.
Qed.

Lemma batch_NoDup txns : forall rows,
  NoDup (map id rows) -> NoDup (map id (fold_left upsert txns rows)).
Proof.
  induction txns as [|r txns IH]; intros rows Hnd; simpl; [assumption|].
  apply IH, upsert_NoDup, Hnd.
Qed.

Lemma batch_ids txns : forall rows,
  exists added,
    map id (fold_left upsert txns rows) = map id rows ++ added
    /\ forall i, In i added -> In i (map r_id txns) /\ ~ In i (map id rows).
Proof.
  induction txns as [|r txns IH]; intros rows; simpl.
  - exists []. split; [now rewrite app_nil_r | intros i []].
  - destruct (IH (upsert rows r)) as (added & Hids & Hadded).
    rewrite upsert_ids in Hids, Hadded.
    destruct (find_by_id (r_id r) rows) eqn:Hf.
    + exists added. split; [assumption|].
      intros i Hi. destruct (Hadded i Hi). tauto.
    + exists (r_id r :: added). split; [now rewrite Hids, <- app_assoc|].
      apply find_by_id_None in Hf.
      intros i [<-|Hi]; [tauto|].
      destruct (Hadded i Hi) as [H1 H2]. split; [tauto|].
      intros Hin. apply H2. apply in_or_app. now left.
Qed.
End IngestionFacts.

Lemma update_where_id_idempotent f tid rows :
  (forall t, id (f t) = id t) -> (forall t, f (f t) = f t) ->
  update_where_id f tid (update_where_id f tid rows)
  = update_where_id f tid rows.
Proof.
  intros Hid Hf. unfold update_where_id. rewrite map_map. apply map_ext.
  intros t. destruct (String.eqb_spec (id t) tid) as [He|He].
  - rewrite Hid. destruct (String.eqb_spec (id t) tid); [apply Hf|contradiction].
  - destruct (String.eqb_spec (id t) tid); [contradiction | reflexivity].
Qed.

Lemma update_where_id_absent f tid rows :
  ~ In tid (map id rows) -> update_where_id f tid rows = rows.
Proof.
  intros Hno. unfold update_where_id. rewrite <- (map_id rows) at 2.
  apply map_ext_in. intros t Hin.
  destruct (String.eqb_spec (id t) tid) as [He|He]; [|reflexivity].
  exfalso. apply Hno. rewrite <- He. now apply in_map.
Qed.

(** Ingesting a record a second time changes nothing. *)
Lemma upsert_rows_twice toLowerCase source rows r :
  upsert_rows toLowerCase source (upsert_rows toLowerCase source rows r) r
  = upsert_rows toLowerCase source rows r.
Proof.
  unfold upsert_rows at 1.
  rewrite (upsert_find toLowerCase source), String.eqb_refl.
  unfold upsert_rows.
  destruct (find_by_id (r_id r) rows) eqn:Hf.
  - apply update_where_id_idempotent; reflexivity.
  - apply find_by_id_None in Hf.
    unfold update_where_id. rewrite map_app.
    fold (update_where_id (update_row r source) (r_id r) rows).
    rewrite update_where_id_absent by assumption.
    simpl. rewrite String.eqb_refl. reflexivity.
Qed.

Lemma one_row_per_id i rows :
  NoDup (map id rows) -> In i (map id rows) ->
  length (filter (fun t => (id t =? i)%string) rows) = 1%nat.
Proof.
  induction rows as [|t rows IH]; simpl; [tauto|].
  intros Hnd Hin. inversion Hnd as [|? ? Hnotin Hnd']; subst.
  destruct (String.eqb_spec (id t) i) as [He|He].
  - subst i. simpl. f_equal.
    assert (Hnone : forall u, In u rows -> (id u =? id t)%string = false).
    { intros u Hu. apply String.eqb_neq. intros Heq. apply Hnotin.
      rewrite <- Heq. now apply in_map. }
    clear - Hnone. induction rows as [|u rows IH]; [reflexivity|].
    simpl. rewrite (Hnone u) by now left.
    apply IH. intros v Hv. apply Hnone. now right.
  - destruct Hin as [Hin|Hin]; [contradiction|]. now apply IH.
Qed.

(** C6. On a table whose ids are distinct, [upsertTransactions] succeeds
    on every batch and returns the batch length.  A row whose id comes
    again keeps its category, transfer, investment and occasional-income
    flags and its comment, and takes date, amount, description, memo and
    account from the (last) record of the batch with its id; no id gets a
    second row, so a record ingested twice leaves one row and the second
    ingestion changes nothing.  Transfer detection is applied only to an id
    that was not in the table, on the first record that brings it. *)
Theorem upsert_preserves_classification (toLowerCase : string -> string)
    (db : database) (txns : list scraped) (source : string) :
  NoDup (map id (transactions db)) ->
  exists db',
    upsertTransactions toLowerCase db txns source = Some (db', length txns)
    /\ NoDup (map id (transactions db'))
    /\ (exists added,
          map id (transactions db') = map id (transactions db) ++ added
          /\ forall i, In i added ->
               In i (map r_id txns) /\ ~ In i (map id (transactions db)))
    /\ (forall t, In t (transactions db) ->
          exists t',
            select_by_id db' (id t) = Some t'
            /\ length (filter (fun u => (id u =? id t)%string)
                              (transactions db')) = 1%nat
            /\ id t' = id t
            /\ category_id t' = category_id t
            /\ is_transfer t' = is_transfer t
            /\ is_investment t' = is_investment t
            /\ is_occasional_income t' = is_occasional_income t
            /\ user_comment t' = user_comment t
            /\ ((forall r, In r txns -> r_id r <> id t) -> t' = t)
            /\ (forall before r after,
                  txns = before ++ r :: after -> r_id r = id t ->
                  (forall r', In r' after -> r_id r' <> id t) ->
                  date_of t' = r_date r
                  /\ amount t' = r_amount r
                  /\ description t' = or_empty (r_description r)
                  /\ memo t' = or_empty (r_memo r)
                  /\ account t' = source
                  /\ type t' = type_of_amount (r_amount r)))
    /\ (forall before r0 after,
          txns = before ++ r0 :: after ->
          ~ In (r_id r0) (map id (transactions db)) ->
          (forall r', In r' before -> r_id r' <> r_id r0) ->
          exists t',
            select_by_id db' (r_id r0) = Some t'
            /\ is_transfer t' = isTransfer toLowerCase (r_description r0)
            /\ category_id t' = None
            /\ is_investment t' = false
            /\ is_occasional_income t' = false
            /\ user_comment t' = None)
    /\ (forall r,
          exists db1,
            upsertTransactions toLowerCase db [r] source = Some (db1, 1%nat)
            /\ upsertTransactions toLowerCase db1 [r] source
               = Some (db1, 1%nat)
            /\ length (filter (fun u => (id u =? r_id r)%string)
                              (transactions db1)) = 1%nat)
    /\ categories db' = categories db
    /\ category_rules db' = category_rules db
    /\ settings db' = settings db.
Proof.
  intros Hnd.
  set (rows' := fold_left (upsert_rows toLowerCase source) txns
                          (transactions db)).
  exists (with_transactions db rows').
  assert (Hnd' : NoDup (map id rows')) by (apply batch_NoDup; exact Hnd).
  split.
  { unfold upsertTransactions. now rewrite upsertMany_rows. }
  cbn [with_transactions transactions categories category_rules settings].
  split; [exact Hnd'|].
  split; [apply batch_ids|].
  split.
  { intros t Hin.
    pose proof (In_find_by_id _ _ Hnd Hin) as Hf.
    destruct (batch_find_same toLowerCase source (id t) txns _ _ Hf)
      as (t' & Hf' & Hsame).
    fold rows' in Hf'. exists t'.
    split; [exact Hf'|].
    split.
    { apply one_row_per_id; [exact Hnd'|].
      apply find_by_id_Some in Hf' as [Hin' Hid'].
      rewrite <- Hid'. now apply in_map. }
    destruct Hsame as (H1 & H2 & H3 & H4 & H5 & H6).
    repeat (split; [assumption|]).
    split.
    { intros Hno.
      pose proof (batch_find_other toLowerCase source (id t) txns
                    (transactions db) Hno) as Hsame.
      fold rows' in Hsame. congruence. }
    intros before r after Htx Hr Hafter.
    destruct (batch_find_last toLowerCase source (id t) before r after
                (transactions db) Hr Hafter) as (t2 & Hf2 & Hc).
    rewrite <- Htx in Hf2. fold rows' in Hf2.
    assert (t2 = t') by congruence. subst t2. exact Hc. }
  split.
  { intros before r0 after Htx Hnew Hbefore.
    destruct (batch_find_new toLowerCase source before r0 after
                (transactions db) Hnew Hbefore) as (t' & Hf' & Hsame).
    rewrite <- Htx in Hf'. fold rows' in Hf'. exists t'.
    split; [exact Hf'|].
    destruct Hsame as (_ & H2 & H3 & H4 & H5 & H6).
    cbn [new_row category_id is_transfer is_investment is_occasional_income
         user_comment] in *.
    tauto. }
  split.
  { intros r.
    exists (with_transactions db
              (upsert_rows toLowerCase source (transactions db) r)).
    unfold upsertTransactions. rewrite !upsertMany_rows.
    cbn [fold_left with_transactions transactions categories category_rules
         settings length].
    rewrite upsert_rows_twice.
    split; [reflexivity|]. split; [reflexivity|].
    apply one_row_per_id; [now apply upsert_NoDup|].
    rewrite upsert_ids.
    destruct (find_by_id (r_id r) (transactions db)) eqn:Hf.
    - apply find_by_id_Some in Hf as [Hin Hid]. rewrite <- Hid.
      now apply in_map.
    - apply in_or_app. right. now left. }
  repeat split; reflexivity.
Qed.

Lemma upsert_preserves_classification_witness :
  exists db',
    upsertTransactions no_case shop_db shop_batch "Hapoalim"
    = Some (db', 2%nat)
    /\ map id (transactions db')
       = map id (transactions shop_db) ++ ["Hapoalim-2024-03-14--40-kiosk"].
Proof.
  assert (Hnd : NoDup (map id (transactions shop_db))).
  { simpl. repeat constructor; simpl; intuition discriminate. }
  destruct (upsert_preserves_classification no_case shop_db shop_batch
              "Hapoalim" Hnd) as (db' & Hrun & _).
  exists db'. split; [exact Hrun|].
  vm_compute in Hrun. injection Hrun as <-. reflexivity.
Defined.

(** ** The scenarios of the specification, evaluated *)

Example salary_of_february_first :
  isSalaryTransaction "משכורת פברואר" 1300000 = true
  /\ Summary.income (getMonthlySummary sample_db 2024 1) = 1300000
  /\ Summary.income (getMonthlySummary sample_db 2024 2) = 0
  /\ Summary.expenses (getMonthlySummary sample_db 2024 2) = 25000.
Proof. repeat split; vm_compute; reflexivity. Qed.

Example available_for_variable_scenario :
  let b := calculateAvailableBudget budget_db 2024 3 in
  Budget.savingsGoal b = 200000
  /\ Budget.expectedIncome b = 1350000
  /\ Budget.fixedExpenses b = 800000
  /\ Budget.availableForVariable b = 350000.
Proof. repeat split; vm_compute; reflexivity. Qed.

Example conservative_contribution :
  let bucket e := ("cat-rent", Bucket.mk 0 e []) in
  fixed_step [("cat-rent", 80)] None (0, 0) (bucket 50) = (80, 0)
  /\ fixed_step [("cat-rent", 80)] None (0, 0) (bucket 90) = (90, 0).
Proof. split; reflexivity. Qed.

Example settings_text :
  string_of_Z 2024 = "2024"
  /\ parseInt_or_0 " 200000" = 200000
  /\ parseInt_or_0 "-12x" = -12
  /\ parseInt_or_0 "abc" = 0
  /\ getSavingsGoal
       (mkDb [] [] [] [("savings_goal", "100"); ("savings_goal_2024_3", "7")])
       (Some 2024) (Some 3) = 7
  /\ getSavingsGoal
       (mkDb [] [] [] [("savings_goal", "100"); ("savings_goal_2024_3", "7")])
       (Some 2024) (Some 4) = 100.
Proof. repeat split; reflexivity. Qed.

Example year_to_date_scenario :
  Ytd.income (getYearToDateSummary sample_db 2023) = 0
  /\ Ytd.income (getYearToDateSummary sample_db 2024) = 1300000
  /\ Ytd.expenses (getYearToDateSummary sample_db 2024) = 25000
  /\ Ytd.transactionCount (getYearToDateSummary sample_db 2024) = 2%nat.
Proof. repeat split; vm_compute; reflexivity. Qed.

(** How a row comes to carry the id of a category that is not stored: the
    call that sets it throws on the rule, after the row was written. *)
Example unknown_category_reached :
  setTransactionCategory gym_db (id gym_march) (Some "cat-gone")
  = Threw (mkDb [set_category (Some "cat-gone") gym_march; gym_april]
                [] [] [])
  /\ setTransactionCategory
       (mkDb [set_category (Some "cat-gone") gym_march; gym_april] [] [] [])
       (id gym_april) (Some "cat-gone")
     = Threw orphan_db.
Proof. split; reflexivity. Qed.

(** * Properties of the other functions *)

(** ** Flags never move a row to another month *)

Lemma filter_map_commute {A B} (p : B -> bool) (f : A -> B) (l : list A) :
  filter p (map f l) = map f (filter (fun a => p (f a)) l).
Proof.
  induction l as [|a l IH]; simpl; [reflexivity|].
  destruct (p (f a)); simpl; now rewrite IH.
Qed.

Lemma insert_by_date_desc_map f t l :
  (forall u, date_of (f u) = date_of u) ->
  insert_by_date_desc (f t) (map f l) = map f (insert_by_date_desc t l).
Proof.
  intros Hf. induction l as [|u l IH]; simpl; [reflexivity|].
  rewrite !Hf. destruct (date_leb (date_of u) (date_of t)); simpl;
    [reflexivity | now rewrite IH].
Qed.

Lemma order_by_date_desc_map f l :
  (forall u, date_of (f u) = date_of u) ->
  order_by_date_desc (map f l) = map f (order_by_date_desc l).
Proof.
  intros Hf. induction l as [|u l IH]; simpl; [reflexivity|].
  rewrite IH. now apply insert_by_date_desc_map.
Qed.

Lemma israeli_month_filter_keeps f year month t :
  keeps_attribution f ->
  israeli_month_filter year month (f t) = israeli_month_filter year month t.
Proof.
  intros Hf. destruct (Hf t) as (Hd & Ha & Hx).
  unfold israeli_month_filter. now rewrite Hd, Ha, Hx.
Qed.

Lemma month_list_map f db year month :
  keeps_attribution f ->
  getTransactionsByIsraeliMonth
    (with_transactions db (map f (transactions db))) year month
  = map f (getTransactionsByIsraeliMonth db year month).
Proof.
  intros Hf. unfold getTransactionsByIsraeliMonth.
  destruct (next_month year month) as [ny nm].
  cbn [with_transactions transactions].
  rewrite filter_map_commute.
  rewrite order_by_date_desc_map by (intros u; apply Hf).
  rewrite filter_map_commute. f_equal.
  rewrite (filter_ext _ (israeli_month_filter year month))
    by (intros t; now apply israeli_month_filter_keeps).
  do 2 f_equal. apply filter_ext. intros t. destruct (Hf t) as (Hd & _).
  now rewrite Hd.
Qed.

Lemma keeps_attribution_where f tid :
  keeps_attribution f ->
  keeps_attribution (fun t => if (id t =? tid)%string then f t else t).
Proof.
  intros Hf t. destruct (id t =? tid)%string; [apply Hf | tauto].
Qed.

(** X1. Setting the transfer, investment or occasional-income flag, the
    comment, or deleting a category leaves every month's list what it was,
    row for row and in the same order, but for the updated columns: no
    such update moves a row to another logical month. *)
Theorem flags_keep_month (db : database) (tid categoryId : string) (b : bool)
    (comment : option string) (year month : Z) :
  let before := getTransactionsByIsraeliMonth db year month in
  let at_id f := fun t => if (id t =? tid)%string then f t else t in
  getTransactionsByIsraeliMonth (setTransactionTransfer db tid b) year month
    = map (at_id (set_transfer b)) before
  /\ getTransactionsByIsraeliMonth (setTransactionInvestment db tid b)
       year month
     = map (at_id (set_investment b)) before
  /\ getTransactionsByIsraeliMonth (setTransactionOccasionalIncome db tid b)
       year month
     = map (at_id (set_occasional b)) before
  /\ getTransactionsByIsraeliMonth (setTransactionComment db tid comment)
       year month
     = map (at_id (set_comment (or_null comment))) before
  /\ getTransactionsByIsraeliMonth (deleteCategory db categoryId) year month
     = map (fun t => if has_category categoryId t then set_category None t
                     else t)
           before.
Proof.
  intros before at_id. subst before at_id.
  repeat split.
  - apply (month_list_map _ db). apply keeps_attribution_where.
    intros t; simpl; tauto.
  - apply (month_list_map _ db). apply keeps_attribution_where.
    intros t; simpl; tauto.
  - apply (month_list_map _ db). apply keeps_attribution_where.
    intros t; simpl; tauto.
  - apply (month_list_map _ db). apply keeps_attribution_where.
    intros t; simpl; tauto.
  - unfold deleteCategory.
    set (f := fun t => if has_category categoryId t then set_category None t
                       else t).
    rewrite <- (month_list_map f db)
      by (intros t; unfold f; destruct (has_category categoryId t); simpl;
          tauto).
    reflexivity.
Qed.

(** ** The bucket a flag puts a row in *)

Lemma summary_transfers db year month :
  Summary.transfers (getMonthlySummary db year month)
  = filter is_transfer (getTransactionsByIsraeliMonth db year month).
Proof. unfold getMonthlySummary. simpl. now rewrite split_loop. Qed.

Lemma summary_investments db year month :
  Summary.investments (getMonthlySummary db year month)
  = filter is_investment_only (getTransactionsByIsraeliMonth db year month).
Proof. unfold getMonthlySummary. simpl. now rewrite split_loop. Qed.

Lemma In_map_at_id (f : transaction -> transaction) tid l t' :
  (forall t, id (f t) = id t) ->
  In t' (map (fun t => if (id t =? tid)%string then f t else t) l) ->
  id t' = tid -> exists t, In t l /\ id t = tid /\ t' = f t.
Proof.
  intros Hid Hin Ht'. apply in_map_iff in Hin as (t & <- & Hin).
  destruct (String.eqb_spec (id t) tid) as [He|He].
  - exists t. auto.
  - contradiction.
Qed.

Lemma flags_keep_month_helper db tid year month :
  let all := getTransactionsByIsraeliMonth db year month in
  getTransactionsByIsraeliMonth (setTransactionTransfer db tid true) year month
    = map (fun t => if (id t =? tid)%string then set_transfer true t else t) all
  /\ getTransactionsByIsraeliMonth (setTransactionInvestment db tid true)
       year month
     = map (fun t => if (id t =? tid)%string then set_investment true t else t)
           all
  /\ getTransactionsByIsraeliMonth (setTransactionInvestment db tid false)
       year month
     = map (fun t => if (id t =? tid)%string then set_investment false t
                     else t) all.
Proof.
  repeat split; apply (month_list_map _ db); apply keeps_attribution_where;
    intros t; simpl; tauto.
Qed.

(** X2. What the summary does with a row after its flags are set: a row
    marked as transfer is listed under the transfers and under nothing
    else, whatever its investment flag; a row marked as investment is listed
    under the investments; and a row whose investment mark is taken away is
    listed under the counted transactions, also when it was a transfer
    before, because the same update clears the transfer flag. *)
Theorem flag_decides_bucket (db : database) (tid : string) (year month : Z) :
  let all := getTransactionsByIsraeliMonth db year month in
  let s_transfer :=
    getMonthlySummary (setTransactionTransfer db tid true) year month in
  let s_invest :=
    getMonthlySummary (setTransactionInvestment db tid true) year month in
  let s_clear :=
    getMonthlySummary (setTransactionInvestment db tid false) year month in
  (forall t, In t all -> id t = tid ->
     In (set_transfer true t) (Summary.transfers s_transfer)
     /\ In (set_investment true t) (Summary.investments s_invest)
     /\ In (set_investment false t) (Summary.transactions s_clear))
  /\ (forall t', id t' = tid ->
        ~ In t' (Summary.transactions s_transfer)
        /\ ~ In t' (Summary.investments s_transfer)
        /\ ~ In t' (Summary.transfers s_invest)
        /\ ~ In t' (Summary.transactions s_invest)
        /\ ~ In t' (Summary.transfers s_clear)
        /\ ~ In t' (Summary.investments s_clear)).
Proof.
  intros all s_transfer s_invest s_clear.
  pose proof (flags_keep_month_helper db tid year month) as (Ht & Hi & Hc).
  fold all in Ht, Hi, Hc.
  split.
  - intros t Hin Hid. apply String.eqb_eq in Hid.
    repeat split.
    + subst s_transfer. rewrite summary_transfers, Ht.
      apply filter_In. split; [|reflexivity].
      apply in_map_iff. exists t. now rewrite Hid.
    + subst s_invest. rewrite summary_investments, Hi.
      apply filter_In. split; [|reflexivity].
      apply in_map_iff. exists t. now rewrite Hid.
    + subst s_clear. rewrite summary_transactions. unfold counted_rows.
      rewrite Hc. apply filter_In. split; [|reflexivity].
      apply in_map_iff. exists t. now rewrite Hid.
  - intros t' Hid.
    subst s_transfer s_invest s_clear.
    rewrite !summary_transactions, !summary_investments, !summary_transfers.
    unfold counted_rows. rewrite Ht, Hi, Hc.
    repeat split; intros Hin; apply filter_In in Hin as [Hin Hp];
      apply In_map_at_id in Hin as (t & _ & _ & ->);
      try assumption; try reflexivity;
      unfold is_counted, is_investment_only in Hp; simpl in Hp;
      try discriminate; destruct (is_investment t); discriminate.
Qed.

(** ** Excluding a whole month *)

(** The loop of [excludeAllInMonth] over the list [l], from any table. *)
Lemma exclude_loop (l : list transaction) : forall rows count,
  fold_left exclude_step l (rows, count)
  = (map (fun t => if to_exclude l t then set_transfer true t else t) rows,
     (count + length (filter (fun u => negb (is_transfer u)) l))%nat).
Proof.
  induction l as [|u l IH]; intros rows count.
  - simpl. f_equal; [|lia]. rewrite <- (map_id rows) at 1. apply map_ext.
    reflexivity.
  - cbn [fold_left exclude_step filter]. unfold to_exclude. cbn [existsb].
    destruct (is_transfer u) eqn:Hu; cbn [negb]; rewrite IH.
    + f_equal. apply map_ext. intros t.
      now rewrite andb_false_r.
    + f_equal; [|simpl; lia].
      unfold update_where_id. rewrite map_map. apply map_ext. intros t.
      rewrite andb_true_r. fold (to_exclude l t).
      rewrite (String.eqb_sym (id u) (id t)).
      destruct (String.eqb_spec (id t) (id u)) as [He|He]; cbn [orb].
      * assert (Hs : to_exclude l (set_transfer true t) = to_exclude l t)
          by reflexivity.
        rewrite Hs. destruct (to_exclude l t); reflexivity.
      * reflexivity.
Qed.

Lemma filter_none {A} (p : A -> bool) (l : list A) :
  (forall x, In x l -> p x = false) -> filter p l = [].
Proof.
  induction l as [|x l IH]; intros H; simpl; [reflexivity|].
  rewrite (H x) by now left. apply IH. intros y Hy. apply H. now right.
Qed.

Lemma with_transactions_same db :
  with_transactions db (transactions db) = db.
Proof. destruct db; reflexivity. Qed.

Lemma excludeAllInMonth_rows db year month :
  excludeAllInMonth db year month
  = (with_transactions db
       (map (fun t =>
               if to_exclude (getTransactionsByIsraeliMonth db year month) t
               then set_transfer true t else t)
            (transactions db)),
     length (filter (fun u => negb (is_transfer u))
                    (getTransactionsByIsraeliMonth db year month))).
Proof.
  unfold excludeAllInMonth. cbv zeta. rewrite exclude_loop. reflexivity.
Qed.

Lemma to_exclude_self l t :
  In t l -> is_transfer t = false -> to_exclude l t = true.
Proof.
  intros Hin Ht. unfold to_exclude. apply existsb_exists. exists t.
  split; [assumption|]. now rewrite String.eqb_refl, Ht.
Qed.

(** X3. After [excludeAllInMonth] every row of the month's list is a
    transfer, so the month's summary counts nothing: no counted rows, no
    investments, income, expenses and investment total 0.  The returned
    count is the number of rows of the list that were not transfers before;
    rows whose id is not in the month's list are untouched; and excluding
    the same month again changes nothing and returns 0. *)
Theorem exclude_month_empties_summary (db : database) (year month : Z) :
  let all := getTransactionsByIsraeliMonth db year month in
  let db' := fst (excludeAllInMonth db year month) in
  let s' := getMonthlySummary db' year month in
  snd (excludeAllInMonth db year month)
    = length (filter (fun u => negb (is_transfer u)) all)
  /\ map id (getTransactionsByIsraeliMonth db' year month) = map id all
  /\ (forall t, In t (getTransactionsByIsraeliMonth db' year month) ->
        is_transfer t = true)
  /\ Summary.transactions s' = []
  /\ Summary.investments s' = []
  /\ Summary.transactionCount s' = 0%nat
  /\ Summary.income s' = 0 /\ Summary.expenses s' = 0
  /\ Summary.balance s' = 0 /\ Summary.investmentTotal s' = 0
  /\ Summary.byCategory s' = []
  /\ (forall t, In t (transactions db) ->
        (forall u, In u all -> id u <> id t) -> In t (transactions db'))
  /\ excludeAllInMonth db' year month = (db', 0%nat).
Proof.
  intros all db' s'.
  set (g := fun t => if to_exclude all t then set_transfer true t else t).
  assert (Hdb' : db' = with_transactions db (map g (transactions db))).
  { subst db'. now rewrite excludeAllInMonth_rows. }
  assert (Hkeep : keeps_attribution g).
  { intros t. unfold g. destruct (to_exclude all t); simpl; tauto. }
  assert (Hall' : getTransactionsByIsraeliMonth db' year month = map g all).
  { rewrite Hdb'. now apply month_list_map. }
  assert (Htr : forall t, In t (map g all) -> is_transfer t = true).
  { intros t' Hin. apply in_map_iff in Hin as (t & <- & Hin). unfold g.
    destruct (is_transfer t) eqn:Ht.
    - destruct (to_exclude all t); [reflexivity | exact Ht].
    - now rewrite (to_exclude_self _ _ Hin Ht). }
  assert (Hnone : forall p : transaction -> bool,
            (forall t, p t = true -> is_transfer t = false) ->
            filter p (map g all) = []).
  { intros p Hp. apply filter_none.
    intros t Hin. destruct (p t) eqn:Hpt; [|reflexivity].
    apply Hp in Hpt. apply Htr in Hin. congruence. }
  assert (Hcounted : Summary.transactions s' = []).
  { subst s'. rewrite summary_transactions. unfold counted_rows.
    rewrite Hall'. apply Hnone. intros t Hp. unfold is_counted in Hp.
    destruct (is_transfer t); [discriminate | reflexivity]. }
  assert (Hinv : Summary.investments s' = []).
  { subst s'. rewrite summary_investments, Hall'. apply Hnone.
    intros t Hp. unfold is_investment_only in Hp.
    destruct (is_transfer t); [discriminate | reflexivity]. }
  split; [now rewrite excludeAllInMonth_rows|].
  split.
  { rewrite Hall', map_map. apply map_ext. intros t. unfold g.
    destruct (to_exclude all t); reflexivity. }
  split; [rewrite Hall'; exact Htr|].
  split; [exact Hcounted|]. split; [exact Hinv|].
  split; [change (length (Summary.transactions s') = 0%nat);
          now rewrite Hcounted|].
  assert (Hst := split_loop (getTransactionsByIsraeliMonth db' year month)).
  assert (Hc0 : filter is_counted (getTransactionsByIsraeliMonth db' year month)
                = []).
  { change (counted_rows db' year month = []).
    rewrite <- summary_transactions. exact Hcounted. }
  assert (Hi0 : filter is_investment_only
                  (getTransactionsByIsraeliMonth db' year month) = []).
  { rewrite <- summary_investments. exact Hinv. }
  rewrite Hc0, Hi0 in Hst.
  split; [subst s'; unfold getMonthlySummary; simpl; now rewrite Hst|].
  split; [subst s'; unfold getMonthlySummary; simpl; now rewrite Hst|].
  split; [subst s'; unfold getMonthlySummary; simpl; now rewrite Hst|].
  split; [subst s'; unfold getMonthlySummary; simpl; now rewrite Hst|].
  split; [subst s'; unfold getMonthlySummary; simpl; now rewrite Hst|].
  split.
  { intros t Hin Hother. rewrite Hdb'. cbn [with_transactions transactions].
    apply in_map_iff. exists t. split; [|assumption]. unfold g.
    assert (Hno : to_exclude all t = false).
    { unfold to_exclude. apply not_true_is_false. intros He.
      apply existsb_exists in He as (u & Hu & Hb).
      apply andb_true_iff in Hb as [Hb _]. apply String.eqb_eq in Hb.
      now apply (Hother u). }
    now rewrite Hno. }
  rewrite excludeAllInMonth_rows, Hall'.
  assert (Hnot : filter (fun u => negb (is_transfer u)) (map g all) = []).
  { apply Hnone. intros t Hp. now apply negb_true_iff in Hp. }
  rewrite Hnot. cbn [length]. f_equal.
  assert (Hid : map (fun t => if to_exclude (map g all) t
                              then set_transfer true t else t)
                    (transactions db') = transactions db').
  { rewrite <- (map_id (transactions db')) at 2. apply map_ext_in.
    intros t Hin.
    assert (Hno : to_exclude (map g all) t = false).
    { unfold to_exclude. apply not_true_is_false. intros He.
      apply existsb_exists in He as (u & Hu & Hb).
      apply andb_true_iff in Hb as [_ Hb]. apply negb_true_iff in Hb.
      apply Htr in Hu. congruence. }
    now rewrite Hno. }
  rewrite Hid. apply with_transactions_same.
Qed.

(** ** Applying the category rules *)

Lemma filter_length_pointwise {A} (a b c : A -> bool) (f : A -> A)
    (l : list A) :
  (forall t, (Nat.b2n (a t) + Nat.b2n (b (f t)) = Nat.b2n (c t))%nat) ->
  (length (filter a l) + length (filter b (map f l)) = length (filter c l))%nat.
Proof.
  intros H. induction l as [|t l IH]; simpl; [reflexivity|].
  specialize (H t).
  destruct (a t), (b (f t)), (c t); simpl in *; lia.
Qed.

Lemma uncategorized_set_category c t :
  c <> "" -> uncategorized (set_category (Some c) t) = false.
Proof.
  intros Hc. unfold uncategorized. simpl. now apply String.eqb_neq.
Qed.

(** The loop of [applyCategoryRules] over the rules [rules]. *)
Lemma apply_rules_loop (rules : list category_rule) :
  rules_name_categories rules ->
  forall rows applied,
    fold_left apply_rule_step rules (rows, applied)
    = (map (categorize rules) rows,
       (applied + length (filter (awaits_rule rules) rows))%nat).
Proof.
  induction rules as [|r rules IH]; intros Hne rows applied.
  - simpl. f_equal.
    + rewrite <- (map_id rows) at 1. apply map_ext. intros t.
      unfold categorize, rule_for. simpl. destruct (uncategorized t); reflexivity.
    + rewrite filter_none; [simpl; lia|]. intros t _.
      unfold awaits_rule, rule_for. simpl. apply andb_false_r.
  - assert (Hr : rule_category_id r <> "") by (apply Hne; now left).
    assert (Hrest : rules_name_categories rules)
      by (intros r' Hin; apply Hne; now right).
    cbn [fold_left apply_rule_step]. rewrite (IH Hrest). f_equal.
    + unfold apply_rule. rewrite map_map. apply map_ext. intros t.
      unfold categorize at 2. unfold rule_for. cbn [find].
      rewrite (String.eqb_sym (description_pattern r) (description t)).
      destruct (description t =? description_pattern r)%string eqn:Hd;
        cbn [andb].
      * destruct (uncategorized t) eqn:Hu; cbn [option_map].
        -- unfold categorize. now rewrite uncategorized_set_category.
        -- unfold categorize. now rewrite Hu.
      * reflexivity.
    + rewrite <- Nat.add_assoc. f_equal. unfold apply_rule.
      apply filter_length_pointwise. intros t.
      unfold awaits_rule at 2. unfold rule_for. cbn [find].
      rewrite (String.eqb_sym (description_pattern r) (description t)).
      destruct (description t =? description_pattern r)%string eqn:Hd;
        cbn [andb].
      * destruct (uncategorized t) eqn:Hu; cbn [option_map].
        -- unfold awaits_rule. now rewrite uncategorized_set_category.
        -- unfold awaits_rule. now rewrite Hu.
      * unfold awaits_rule, rule_for. reflexivity.
Qed.

Lemma applyCategoryRules_rows db :
  rules_name_categories (category_rules db) ->
  applyCategoryRules db
  = (with_transactions db
       (map (categorize (category_rules db)) (transactions db)),
     length (filter (awaits_rule (category_rules db)) (transactions db))).
Proof.
  intros Hne. unfold applyCategoryRules. cbv zeta.
  now rewrite (apply_rules_loop _ Hne).
Qed.

Lemma categorize_settled rules t :
  rules_name_categories rules ->
  awaits_rule rules (categorize rules t) = false
  /\ categorize rules (categorize rules t) = categorize rules t.
Proof.
  intros Hne. unfold categorize at 1 3 4.
  destruct (uncategorized t) eqn:Hu.
  - destruct (rule_for (description t) rules) as [c|] eqn:Hr.
    + assert (Hc : c <> "").
      { unfold rule_for in Hr.
        destruct (find _ rules) as [r|] eqn:Hf; [|discriminate].
        apply find_some in Hf as [Hin _]. injection Hr as <-. now apply Hne. }
      unfold awaits_rule, categorize.
      rewrite (uncategorized_set_category _ t Hc). split; reflexivity.
    + unfold awaits_rule, categorize. rewrite Hu, Hr. split; reflexivity.
  - unfold awaits_rule, categorize. rewrite Hu. split; reflexivity.
Qed.

Lemma awaits_rule_changes rules t :
  rules_name_categories rules ->
  awaits_rule rules t = true <-> categorize rules t <> t.
Proof.
  intros Hne. unfold awaits_rule, categorize.
  destruct (uncategorized t) eqn:Hu; cbn [andb].
  - destruct (rule_for (description t) rules) as [c|] eqn:Hr.
    + split; [|reflexivity]. intros _ Heq.
      assert (Hc : c <> "").
      { unfold rule_for in Hr.
        destruct (find _ rules) as [r|] eqn:Hf; [|discriminate].
        apply find_some in Hf as [Hin _]. injection Hr as <-. now apply Hne. }
      pose proof (uncategorized_set_category c t Hc) as Hs.
      rewrite Heq in Hs. congruence.
    + split; [discriminate | intros H; now contradiction H].
  - split; [discriminate | intros H; now contradiction H].
Qed.

(** X4. When every rule names a non-empty category id,
    [applyCategoryRules] gives each row that has no category (null or
    empty) and whose description equals a rule's pattern the category of
    the first such rule, leaves every other row as it is, including every
    row that has a category, and returns the number of rows it changed;
    applied a second time it changes nothing and returns 0. *)
Theorem apply_rules_once (db : database) :
  rules_name_categories (category_rules db) ->
  let rules := category_rules db in
  let db' := fst (applyCategoryRules db) in
  transactions db' = map (categorize rules) (transactions db)
  /\ (forall t, uncategorized t = false -> categorize rules t = t)
  /\ (forall t, rule_for (description t) rules = None -> categorize rules t = t)
  /\ (forall t c, uncategorized t = true ->
        rule_for (description t) rules = Some c ->
        categorize rules t = set_category (Some c) t)
  /\ snd (applyCategoryRules db)
     = length (filter (awaits_rule rules) (transactions db))
  /\ (forall t, awaits_rule rules t = true <-> categorize rules t <> t)
  /\ categories db' = categories db
  /\ category_rules db' = rules
  /\ settings db' = settings db
  /\ applyCategoryRules db' = (db', 0%nat).
Proof.
  intros Hne rules db'. subst db'.
  rewrite (applyCategoryRules_rows db Hne). fold rules.
  cbn [fst snd with_transactions transactions categories category_rules
       settings].
  split; [reflexivity|].
  split; [intros t Hu; unfold categorize; now rewrite Hu|].
  split.
  { intros t Hr. unfold categorize. rewrite Hr.
    destruct (uncategorized t); reflexivity. }
  split; [intros t c Hu Hr; unfold categorize; now rewrite Hu, Hr|].
  split; [reflexivity|].
  split; [intros t; now apply awaits_rule_changes|].
  split; [reflexivity|]. split; [reflexivity|]. split; [reflexivity|].
  set (db1 := with_transactions db (map (categorize rules) (transactions db))).
  assert (Hne1 : rules_name_categories (category_rules db1)) by exact Hne.
  rewrite (applyCategoryRules_rows db1 Hne1).
  assert (Hrows : map (categorize (category_rules db1)) (transactions db1)
                  = transactions db1).
  { subst db1. cbn [with_transactions transactions category_rules].
    fold rules. rewrite map_map. apply map_ext. intros t.
    now apply categorize_settled. }
  rewrite Hrows, with_transactions_same. f_equal.
  rewrite filter_none; [reflexivity|]. intros t' Hin.
  subst db1. cbn [with_transactions transactions category_rules] in *.
  apply in_map_iff in Hin as (t & <- & _). now apply categorize_settled.
Qed.

Lemma apply_rules_once_witness :
  applyCategoryRules rules_db
  = (with_transactions rules_db
       [ set_category (Some "cat-food") shop_a;
         set_category (Some "cat-food") shop_b;
         shop_c; food_march ],
     2%nat).
Proof.
  assert (Hne : rules_name_categories (category_rules rules_db)).
  { intros r [<-|[<-|[]]]; simpl; discriminate. }
  destruct (apply_rules_once rules_db Hne) as (Hrows & _ & _ & _ & Hn & _).
  rewrite (surjective_pairing (applyCategoryRules rules_db)).
  rewrite Hn. f_equal.
Defined.

(** ** Ingestion followed by the rules *)

Lemma find_by_id_map (f : transaction -> transaction) i rows :
  (forall t, id (f t) = id t) ->
  find_by_id i (map f rows) = option_map f (find_by_id i rows).
Proof.
  intros Hf. unfold find_by_id. induction rows as [|t rows IH]; simpl;
    [reflexivity|].
  rewrite Hf. destruct (id t =? i)%string; [reflexivity | exact IH].
Qed.

Lemma categorize_id rules t : id (categorize rules t) = id t.
Proof.
  unfold categorize. destruct (uncategorized t); [|reflexivity].
  destruct (rule_for (description t) rules); reflexivity.
Qed.

(** X5. The scraper's sequence, ingestion and then the rules: a record
    whose id is new to the store and occurs once in the batch, and whose
    description has a rule, is stored with the rule's category, with the
    record's amount and description, and with the transfer flag the
    patterns give its description. *)
Theorem ingest_then_rules (toLowerCase : string -> string) (db : database)
    (before after : list scraped) (r : scraped) (source d c : string) :
  ~ In (r_id r) (map id (transactions db)) ->
  (forall r', In r' before -> r_id r' <> r_id r) ->
  (forall r', In r' after -> r_id r' <> r_id r) ->
  r_description r = Some d -> d <> "" ->
  rules_name_categories (category_rules db) ->
  rule_for d (category_rules db) = Some c ->
  exists db1 t,
    upsertTransactions toLowerCase db (before ++ r :: after) source
    = Some (db1, length (before ++ r :: after))
    /\ select_by_id (fst (applyCategoryRules db1)) (r_id r) = Some t
    /\ category_id t = Some c
    /\ description t = d
    /\ amount t = r_amount r
    /\ date_of t = r_date r
    /\ account t = source
    /\ is_transfer t = isTransfer toLowerCase (Some d)
    /\ is_investment t = false.
Proof.
  intros Hnew Hbefore Hafter Hd Hne Hrules Hrule.
  set (txns := before ++ r :: after).
  set (rows' := fold_left (upsert_rows toLowerCase source) txns
                          (transactions db)).
  exists (with_transactions db rows').
  destruct (batch_find_new toLowerCase source before r after
              (transactions db) Hnew Hbefore) as (t' & Hf' & Hsame).
  destruct (batch_find_last toLowerCase source (r_id r) before r after
              (transactions db) eq_refl Hafter) as (t2 & Hf2 & Hc).
  assert (t2 = t') by congruence. subst t2.
  fold txns in Hf'. fold rows' in Hf'.
  exists (categorize (category_rules db) t').
  split.
  { unfold upsertTransactions. now rewrite upsertMany_rows. }
  rewrite applyCategoryRules_rows by exact Hrules.
  match goal with
  | |- select_by_id ?d ?i = _ /\ _ =>
      assert (Hsel : select_by_id d i
                     = option_map (categorize (category_rules db))
                         (find_by_id (r_id r) rows'))
        by (rewrite <- find_by_id_map by apply categorize_id; reflexivity);
      rewrite Hsel
  end.
  rewrite Hf'. split; [reflexivity|].
  destruct Hsame as (_ & Hcat & Htr & Hinv & _).
  destruct Hc as (Hdate & Ham & Hdesc & _ & Hacc & _).
  cbn [new_row category_id is_transfer is_investment] in Hcat, Htr, Hinv.
  assert (Hd' : description t' = d).
  { rewrite Hdesc, Hd. unfold or_empty. now rewrite truthy_true. }
  assert (Hcz : categorize (category_rules db) t'
                = set_category (Some c) t').
  { unfold categorize, uncategorized. now rewrite Hcat, Hd', Hrule. }
  rewrite Hcz. cbn [set_category category_id description amount date_of
                    account is_transfer is_investment].
  repeat split; try assumption.
  rewrite Htr, Hd. unfold isTransfer. reflexivity.
Qed.

Lemma ingest_then_rules_witness :
  exists db1 t,
    upsertTransactions no_case rules_db shop_batch "Hapoalim"
    = Some (db1, 2%nat)
    /\ select_by_id (fst (applyCategoryRules db1))
         "Hapoalim-2024-03-14--40-kiosk" = Some t
    /\ category_id t = Some "cat-gifts".
Proof.
  destruct (ingest_then_rules no_case rules_db
              [mkScraped (id shop_a) (mkDate 2024 3 11) (-1500)
                         (Some "shop") None]
              []
              (mkScraped "Hapoalim-2024-03-14--40-kiosk" (mkDate 2024 3 14)
                         (-4000) (Some "kiosk") None)
              "Hapoalim" "kiosk" "cat-gifts")
    as (db1 & t & Hrun & Hsel & Hcat & _).
  - simpl. intuition discriminate.
  - intros r' [<-|[]]. simpl. discriminate.
  - intros r' [].
  - reflexivity.
  - discriminate.
  - intros r' [<-|[<-|[]]]; simpl; discriminate.
  - reflexivity.
  - exists db1, t. split; [exact Hrun|]. split; [exact Hsel | exact Hcat].
Defined.

(** ** Settings *)

Lemma of_uint_acc_value d : forall p,
  Z.pos (Pos.of_uint_acc d p) = uint_value d (Z.pos p).
Proof.
  induction d; intros p; cbn [Pos.of_uint_acc uint_value]; try reflexivity;
    rewrite IHd; f_equal; lia.
Qed.

Lemma of_uint_value d : Z.of_uint d = uint_value d 0.
Proof.
  unfold Z.of_uint.
  induction d; cbn [Pos.of_uint uint_value Z.of_N]; try reflexivity;
    try exact IHd; rewrite of_uint_acc_value; reflexivity.
Qed.
Lemma parse_digits_value d : forall acc,
  parse_digits (NilEmpty.string_of_uint d) (Some acc)
  = Some (uint_value d acc).
Proof.
  induction d; intros acc; cbn [NilEmpty.string_of_uint parse_digits uint_value];
    try reflexivity;
    match goal with
    | |- (if is_digit ?c then _ else _) = _ =>
        change (is_digit c) with true; cbv iota;
        match goal with
        | |- context [digit_value ?c] =>
            let v := eval vm_compute in (digit_value c) in
            change (digit_value c) with v
        end
    end; apply IHd.
Qed.

Lemma parse_digits_start d :
  d <> Decimal.Nil ->
  parse_digits (NilEmpty.string_of_uint d) None = Some (uint_value d 0).
Proof.
  destruct d; intros Hd; try contradiction;
    cbn [NilEmpty.string_of_uint parse_digits uint_value];
    match goal with
    | |- (if is_digit ?c then _ else _) = _ =>
        change (is_digit c) with true; cbv iota;
        match goal with
        | |- context [digit_value ?c] =>
            let v := eval vm_compute in (digit_value c) in
            change (digit_value c) with v
        end
    end; apply parse_digits_value.
Qed.

Lemma parseInt_digits d :
  d <> Decimal.Nil ->
  parseInt (NilEmpty.string_of_uint d) = Some (uint_value d 0)
  /\ parseInt (String "-" (NilEmpty.string_of_uint d))
     = Some (- uint_value d 0).
Proof.
  intros Hd. split.
  - rewrite <- (parse_digits_start d Hd).
    destruct d; try contradiction; reflexivity.
  - unfold parseInt. cbn [skip_spaces].
    change (is_space "-") with false. cbv iota.
    rewrite (parse_digits_start d Hd). reflexivity.
Qed.

Lemma parseInt_string_of_Z (n : Z) : parseInt (string_of_Z n) = Some n.
Proof.
  unfold string_of_Z. destruct n as [|p|p]; [reflexivity| |].
  - pose proof (DecimalPos.Unsigned.to_uint_nonnil p) as Hnil.
    pose proof (DecimalPos.Unsigned.of_to p) as Hof.
    assert (Hv : uint_value (Pos.to_uint p) 0 = Z.pos p).
    { rewrite <- of_uint_value. unfold Z.of_uint. now rewrite Hof. }
    cbn [Z.to_int NilZero.string_of_int]. unfold NilZero.string_of_uint.
    destruct (parseInt_digits _ Hnil) as [H _]. rewrite <- Hv, <- H.
    destruct (Pos.to_uint p); try contradiction; reflexivity.
  - pose proof (DecimalPos.Unsigned.to_uint_nonnil p) as Hnil.
    pose proof (DecimalPos.Unsigned.of_to p) as Hof.
    assert (Hv : uint_value (Pos.to_uint p) 0 = Z.pos p).
    { rewrite <- of_uint_value. unfold Z.of_uint. now rewrite Hof. }
    cbn [Z.to_int NilZero.string_of_int]. unfold NilZero.string_of_uint.
    destruct (parseInt_digits _ Hnil) as [_ H].
    replace (Z.neg p) with (- uint_value (Pos.to_uint p) 0) by (rewrite Hv; reflexivity).
    rewrite <- H.
    destruct (Pos.to_uint p); try contradiction; reflexivity.
Qed.

Lemma parseInt_or_0_string_of_Z (n : Z) : parseInt_or_0 (string_of_Z n) = n.
Proof. unfold parseInt_or_0. now rewrite parseInt_string_of_Z. Qed.

Lemma obj_get_replace (s : list (string * string)) key value key' :
  obj_get (filter (fun kv => negb (fst kv =? key)%string) s ++ [(key, value)])
          key'
  = if (key =? key')%string then Some value else obj_get s key'.
Proof.
  induction s as [|[k v] s IH]; cbn [filter app obj_get fst].
  - destruct (key =? key')%string; reflexivity.
  - destruct (String.eqb_spec k key) as [Hk|Hk]; cbn [negb app obj_get].
    + rewrite IH. subst k. destruct (key =? key')%string; reflexivity.
    + rewrite IH. destruct (String.eqb_spec k key') as [Hk'|Hk'];
        [|reflexivity].
      subst k. destruct (String.eqb_spec key key'); [congruence|reflexivity].
Qed.

Lemma getSetting_setSetting db key value key' defaultValue :
  getSetting (setSetting db key value) key' defaultValue
  = if (key =? key')%string then Some value
    else getSetting db key' defaultValue.
Proof.
  unfold getSetting, select_setting, setSetting. cbn [with_settings settings].
  rewrite obj_get_replace. destruct (key =? key')%string; reflexivity.
Qed.

(** Digits followed by a character that is no digit: the parse stops. *)
Lemma parse_digits_stop d c rest : is_digit c = false ->
  forall acc,
    parse_digits (NilEmpty.string_of_uint d ++ String c rest) (Some acc)
    = Some (uint_value d acc).
Proof.
  intros Hc. induction d; intros acc;
    cbn [NilEmpty.string_of_uint append parse_digits uint_value];
    try (now rewrite Hc);
    match goal with
    | |- (if is_digit ?c then _ else _) = _ =>
        change (is_digit c) with true; cbv iota;
        match goal with
        | |- context [digit_value ?c] =>
            let v := eval vm_compute in (digit_value c) in
            change (digit_value c) with v
        end
    end; apply IHd.
Qed.

(** [parseInt] reads the number back from a key built on it. *)
Lemma parseInt_key_prefix (n : Z) (rest : string) :
  parseInt (string_of_Z n ++ String "_" rest) = Some n.
Proof.
  unfold string_of_Z. destruct n as [|p|p]; [reflexivity| |].
  - pose proof (DecimalPos.Unsigned.to_uint_nonnil p) as Hnil.
    pose proof (DecimalPos.Unsigned.of_to p) as Hof.
    assert (Hv : uint_value (Pos.to_uint p) 0 = Z.pos p).
    { rewrite <- of_uint_value. unfold Z.of_uint. now rewrite Hof. }
    cbn [Z.to_int NilZero.string_of_int]. unfold NilZero.string_of_uint.
    rewrite <- Hv.
    destruct (Pos.to_uint p) eqn:Hd; try contradiction;
      unfold parseInt;
      cbn [NilEmpty.string_of_uint append skip_spaces];
      match goal with
      | |- context [is_space ?c] => change (is_space c) with false
      end; cbv iota;
      cbn [parse_digits uint_value];
      match goal with
      | |- context [is_digit ?c] => change (is_digit c) with true
      end; cbv iota;
      match goal with
      | |- context [digit_value ?c] =>
          let v := eval vm_compute in (digit_value c) in
          change (digit_value c) with v
      end;
      apply parse_digits_stop; reflexivity.
  - pose proof (DecimalPos.Unsigned.to_uint_nonnil p) as Hnil.
    pose proof (DecimalPos.Unsigned.of_to p) as Hof.
    assert (Hv : uint_value (Pos.to_uint p) 0 = Z.pos p).
    { rewrite <- of_uint_value. unfold Z.of_uint. now rewrite Hof. }
    cbn [Z.to_int NilZero.string_of_int]. unfold NilZero.string_of_uint.
    replace (Z.neg p) with (- uint_value (Pos.to_uint p) 0)
      by (rewrite Hv; reflexivity).
    unfold parseInt. cbn [append skip_spaces].
    change (is_space "-") with false. cbv iota.
    destruct (Pos.to_uint p) eqn:Hd; try contradiction;
      cbn [NilEmpty.string_of_uint append parse_digits uint_value];
      match goal with
      | |- context [is_digit ?c] => change (is_digit c) with true
      end; cbv iota;
      match goal with
      | |- context [digit_value ?c] =>
          let v := eval vm_compute in (digit_value c) in
          change (digit_value c) with v
      end;
      rewrite parse_digits_stop by reflexivity; reflexivity.
Qed.

Lemma string_of_Z_inj (n n' : Z) : string_of_Z n = string_of_Z n' -> n = n'.
Proof.
  intros H. pose proof (parseInt_string_of_Z n) as Hn.
  rewrite H, parseInt_string_of_Z in Hn. congruence.
Qed.

Lemma append_cancel_l (a b c : string) : (a ++ b = a ++ c)%string -> b = c.
Proof. induction a; simpl; intros H; [assumption|]. injection H. auto. Qed.

(** The key of a month's savings goal determines the month. *)
Lemma month_key_inj (y m y' m' : Z) :
  ("savings_goal_" ++ string_of_Z y ++ "_" ++ string_of_Z m
   = "savings_goal_" ++ string_of_Z y' ++ "_" ++ string_of_Z m')%string ->
  y = y' /\ m = m'.
Proof.
  intros H. apply append_cancel_l in H.
  assert (Hy : y = y').
  { pose proof (parseInt_key_prefix y (string_of_Z m)) as Hp.
    change ("_" ++ string_of_Z m)%string with (String "_" (string_of_Z m)) in H.
    change ("_" ++ string_of_Z m')%string with (String "_" (string_of_Z m')) in H.
    rewrite H, parseInt_key_prefix in Hp. congruence. }
  subst y'. split; [reflexivity|].
  apply append_cancel_l in H. apply append_cancel_l in H.
  now apply string_of_Z_inj.
Qed.

Lemma savings_key_not_default (y m : Z) :
  (("savings_goal_" ++ string_of_Z y ++ "_" ++ string_of_Z m)
   =? "savings_goal")%string = false
  /\ (("savings_goal_" ++ string_of_Z y ++ "_" ++ string_of_Z m)
      =? "expected_income")%string = false.
Proof. split; reflexivity. Qed.

(** X6. A savings goal set for a month is what [getSavingsGoal] returns for
    that month, whatever integer it is, 0 included, and it changes neither
    the goal of any other month, nor the default goal, nor the expected
    income: the keys of two months are equal only for the same year and
    month. *)
Theorem month_goal_round_trip (db : database) (amount year month : Z) :
  year <> 0 -> month <> 0 ->
  let db' := setSavingsGoal db amount (Some year) (Some month) in
  getSavingsGoal db' (Some year) (Some month) = amount
  /\ (forall year' month', (year', month') <> (year, month) ->
        getSavingsGoal db' (Some year') (Some month')
        = getSavingsGoal db (Some year') (Some month'))
  /\ getDefaultSavingsGoal db' = getDefaultSavingsGoal db
  /\ getExpectedIncome db' = getExpectedIncome db
  /\ transactions db' = transactions db
  /\ categories db' = categories db
  /\ category_rules db' = category_rules db.
Proof.
  intros Hy Hm db'.
  assert (Hty : truthy_num (Some year) = true)
    by (simpl; now apply negb_true_iff, Z.eqb_neq).
  assert (Htm : truthy_num (Some month) = true)
    by (simpl; now apply negb_true_iff, Z.eqb_neq).
  assert (Hdb' : db' = setSetting db
                         ("savings_goal_" ++ string_of_Z year ++ "_"
                          ++ string_of_Z month)%string
                         (string_of_Z amount)).
  { subst db'. unfold setSavingsGoal. now rewrite Hty, Htm. }
  destruct (savings_key_not_default year month) as [Hk1 Hk2].
  assert (Hdef : getDefaultSavingsGoal db' = getDefaultSavingsGoal db).
  { unfold getDefaultSavingsGoal. now rewrite Hdb', getSetting_setSetting, Hk1. }
  split.
  { unfold getSavingsGoal. rewrite Hty, Htm. cbn [andb template_num].
    rewrite Hdb', getSetting_setSetting, String.eqb_refl.
    apply parseInt_or_0_string_of_Z. }
  split.
  { intros year' month' Hne. unfold getSavingsGoal.
    destruct (truthy_num (Some year') && truthy_num (Some month'));
      [|exact Hdef].
    cbn [template_num]. rewrite Hdef.
    rewrite Hdb' at 1. rewrite getSetting_setSetting.
    destruct (String.eqb_spec
                ("savings_goal_" ++ string_of_Z year ++ "_"
                 ++ string_of_Z month)
                ("savings_goal_" ++ string_of_Z year' ++ "_"
                 ++ string_of_Z month')) as [He|He]; [|reflexivity].
    apply month_key_inj in He as [-> ->]. now contradiction Hne. }
  split; [exact Hdef|].
  split.
  { unfold getExpectedIncome. now rewrite Hdb', getSetting_setSetting, Hk2. }
  rewrite Hdb'. repeat split; reflexivity.
Qed.

Lemma month_goal_round_trip_witness :
  getSavingsGoal (setSavingsGoal goals_db 0 (Some 2024) (Some 11))
                 (Some 2024) (Some 11) = 0
  /\ getSavingsGoal (setSavingsGoal goals_db 0 (Some 2024) (Some 11))
                    (Some 20241) (Some 1) = 100000.
Proof.
  destruct (month_goal_round_trip goals_db 0 2024 11) as (H1 & H2 & _);
    [discriminate | discriminate |].
  split; [exact H1|]. rewrite H2 by discriminate. reflexivity.
Defined.

(** X7. Where [getSavingsGoal] falls back to the default goal: for a null
    or zero year or month, and for a month that has no row of its own; the
    default itself, and the expected income, are what was last set, and 0
    in a store without the row.  Setting the default does not touch the
    goal a month has of its own. *)
Theorem savings_goal_fallback (db : database) (amount : Z)
    (year month : option Z) :
  (truthy_num year && truthy_num month = false ->
     getSavingsGoal db year month = getDefaultSavingsGoal db)
  /\ (select_setting db
        ("savings_goal_" ++ template_num year ++ "_" ++ template_num month)
      = None ->
      getSavingsGoal db year month = getDefaultSavingsGoal db)
  /\ (select_setting db "savings_goal" = None -> getDefaultSavingsGoal db = 0)
  /\ (select_setting db "expected_income" = None -> getExpectedIncome db = 0)
  /\ getDefaultSavingsGoal (setSavingsGoal db amount None None) = amount
  /\ getDefaultSavingsGoal (setSavingsGoal db amount year (Some 0)) = amount
  /\ getDefaultSavingsGoal (setSavingsGoal db amount (Some 0) month) = amount
  /\ getExpectedIncome (setExpectedIncome db amount) = amount
  /\ getDefaultSavingsGoal (setExpectedIncome db amount)
     = getDefaultSavingsGoal db
  /\ getExpectedIncome (setSavingsGoal db amount None None)
     = getExpectedIncome db
  /\ (forall y m, y <> 0 -> m <> 0 ->
        select_setting db
          ("savings_goal_" ++ string_of_Z y ++ "_" ++ string_of_Z m)
        <> None ->
        getSavingsGoal (setSavingsGoal db amount None None) (Some y) (Some m)
        = getSavingsGoal db (Some y) (Some m)).
Proof.
  split.
  { intros H. unfold getSavingsGoal. now rewrite H. }
  split.
  { intros H. unfold getSavingsGoal, getSetting. rewrite H.
    destruct (truthy_num year && truthy_num month); reflexivity. }
  split.
  { intros H. unfold getDefaultSavingsGoal, getSetting. now rewrite H. }
  split.
  { intros H. unfold getExpectedIncome, getSetting. now rewrite H. }
  split.
  { unfold setSavingsGoal, getDefaultSavingsGoal. cbn [truthy_num andb].
    rewrite getSetting_setSetting, String.eqb_refl.
    apply parseInt_or_0_string_of_Z. }
  split.
  { unfold setSavingsGoal, getDefaultSavingsGoal. cbn [truthy_num Z.eqb negb].
    rewrite andb_false_r.
    rewrite getSetting_setSetting, String.eqb_refl.
    apply parseInt_or_0_string_of_Z. }
  split.
  { unfold setSavingsGoal, getDefaultSavingsGoal.
    cbn [truthy_num Z.eqb negb andb].
    rewrite getSetting_setSetting, String.eqb_refl.
    apply parseInt_or_0_string_of_Z. }
  split.
  { unfold setExpectedIncome, getExpectedIncome.
    rewrite getSetting_setSetting, String.eqb_refl.
    apply parseInt_or_0_string_of_Z. }
  split.
  { unfold setExpectedIncome, getDefaultSavingsGoal.
    now rewrite getSetting_setSetting. }
  split.
  { unfold setSavingsGoal, getExpectedIncome. cbn [truthy_num andb].
    now rewrite getSetting_setSetting. }
  intros y m Hy Hm Hrow. unfold getSavingsGoal.
  assert (Hty : truthy_num (Some y) = true)
    by (simpl; now apply negb_true_iff, Z.eqb_neq).
  assert (Htm : truthy_num (Some m) = true)
    by (simpl; now apply negb_true_iff, Z.eqb_neq).
  rewrite Hty, Htm. cbn [andb template_num].
  unfold setSavingsGoal at 1. cbn [truthy_num andb].
  rewrite getSetting_setSetting.
  replace ("savings_goal" =?
           "savings_goal_" ++ string_of_Z y ++ "_" ++ string_of_Z m)%string
    with false by reflexivity.
  unfold getSetting.
  destruct (select_setting db _); [reflexivity | contradiction].
Qed.

(** ** Re-detecting transfers *)

Section RedetectionFacts.
Variable toLowerCase : string -> string.

Local Abbreviation detected :=
  (fun t : transaction => isTransfer toLowerCase (Some (description t))).

(** The loop of [redetectTransfers] over rows [l] with distinct ids. *)
Lemma redetect_loop (l : list transaction) :
  NoDup (map id l) ->
  forall rows,
    fold_left (redetect_step toLowerCase) l rows
    = map (fun t => match find_by_id (id t) l with
                    | Some u => set_transfer (detected u) t
                    | None => t
                    end) rows.
Proof.
  induction l as [|u l IH]; intros Hnd rows.
  - simpl. rewrite <- (map_id rows) at 1. reflexivity.
  - inversion Hnd as [|? ? Hnotin Hnd']; subst.
    cbn [fold_left]. rewrite (IH Hnd'). unfold redetect_step, update_where_id.
    rewrite map_map. apply map_ext. intros t.
    unfold find_by_id at 2. cbn [find].
    rewrite (String.eqb_sym (id u) (id t)).
    destruct (String.eqb_spec (id t) (id u)) as [He|He].
    + cbn [set_transfer id]. rewrite He.
      apply find_by_id_None in Hnotin. now rewrite Hnotin.
    + reflexivity.
Qed.

Lemma redetectTransfers_rows db :
  NoDup (map id (transactions db)) ->
  redetectTransfers toLowerCase db
  = (with_transactions db
       (map (fun t => set_transfer (detected t) t) (transactions db)),
     length (transactions db)).
Proof.
  intros Hnd. unfold redetectTransfers. cbv zeta.
  rewrite (redetect_loop _ Hnd). do 2 f_equal.
  apply map_ext_in. intros t Hin. now rewrite (In_find_by_id _ _ Hnd Hin).
Qed.
End RedetectionFacts.

(** X8. On a table with distinct ids [redetectTransfers] gives every row
    the transfer flag the patterns give its description, whatever the flag
    was (a mark set by hand on a row without the pattern is lost, a row
    with the pattern is marked again), changes no other column, and
    returns the number of rows; running it again changes nothing, and a row
    just inserted by [upsertTransactions] already carries the flag it
    gives. *)
Theorem redetect_overwrites_flags (toLowerCase : string -> string)
    (db : database) :
  NoDup (map id (transactions db)) ->
  let db' := fst (redetectTransfers toLowerCase db) in
  transactions db'
  = map (fun t => set_transfer
                    (isTransfer toLowerCase (Some (description t))) t)
        (transactions db)
  /\ snd (redetectTransfers toLowerCase db) = length (transactions db)
  /\ (forall t, In t (transactions db') ->
        is_transfer t = isTransfer toLowerCase (Some (description t)))
  /\ (forall t, In t (transactions db) ->
        is_transfer t = isTransfer toLowerCase (Some (description t)) ->
        In t (transactions db'))
  /\ redetectTransfers toLowerCase db' = (db', length (transactions db))
  /\ (forall r source,
        set_transfer
          (isTransfer toLowerCase
             (Some (description (new_row toLowerCase r source))))
          (new_row toLowerCase r source)
        = new_row toLowerCase r source)
  /\ categories db' = categories db
  /\ category_rules db' = category_rules db
  /\ settings db' = settings db.
Proof.
  intros Hnd db'. subst db'.
  rewrite (redetectTransfers_rows toLowerCase db Hnd).
  cbn [fst snd with_transactions transactions categories category_rules
       settings].
  set (g := fun t => set_transfer
                       (isTransfer toLowerCase (Some (description t))) t).
  split; [reflexivity|]. split; [reflexivity|].
  split.
  { intros t' Hin. apply in_map_iff in Hin as (t & <- & _). reflexivity. }
  split.
  { intros t Hin Ht. apply in_map_iff. exists t. split; [|assumption].
    unfold g. rewrite <- Ht. destruct t; reflexivity. }
  split.
  { set (db1 := with_transactions db (map g (transactions db))).
    assert (Hnd1 : NoDup (map id (transactions db1))).
    { subst db1. cbn [with_transactions transactions]. rewrite map_map.
      exact Hnd. }
    rewrite (redetectTransfers_rows toLowerCase db1 Hnd1).
    subst db1. cbn [with_transactions transactions categories category_rules
                    settings].
    rewrite map_map, length_map. reflexivity. }
  split.
  { intros r source. unfold new_row. cbn [description set_transfer].
    f_equal. unfold isTransfer, or_empty.
    destruct (r_description r) as [d|]; [|reflexivity].
    destruct (truthy d) eqn:Hd; [now rewrite Hd | reflexivity]. }
  repeat split; reflexivity.
Qed.

Lemma redetect_overwrites_flags_witness :
  option_map is_transfer
    (select_by_id
       (fst (redetectTransfers no_case
               (setTransactionTransfer flags_db (id food_march) true)))
       (id food_march)) = Some false
  /\ snd (redetectTransfers no_case flags_db) = 2%nat.
Proof.
  assert (Hnd : NoDup (map id (transactions
                  (setTransactionTransfer flags_db (id food_march) true)))).
  { simpl. repeat constructor; simpl; intuition discriminate. }
  assert (Hnd2 : NoDup (map id (transactions flags_db))).
  { simpl. repeat constructor; simpl; intuition discriminate. }
  destruct (redetect_overwrites_flags no_case _ Hnd) as (Hrows & _).
  destruct (redetect_overwrites_flags no_case _ Hnd2) as (_ & Hcount & _).
  split; [|exact Hcount].
  unfold select_by_id. rewrite Hrows. reflexivity.
Defined.

(** ** Available months *)

Lemma In_set_add s x y : In x (set_add s y) <-> In x s \/ x = y.
Proof.
  unfold set_add. destruct (existsb (fun z => (z =? y)%string) s) eqn:He.
  - apply existsb_exists in He as (z & Hz & Heq). apply String.eqb_eq in Heq.
    subst z. intuition congruence.
  - rewrite in_app_iff. simpl. intuition congruence.
Qed.

Lemma NoDup_set_add s y : NoDup s -> NoDup (set_add s y).
Proof.
  intros Hnd. unfold set_add.
  destruct (existsb (fun z => (z =? y)%string) s) eqn:He; [assumption|].
  apply NoDup_app; [assumption | repeat constructor; simpl; tauto |].
  intros x Hx [<-|[]].
  assert (Ht : existsb (fun z => (z =? y)%string) s = true)
    by (apply existsb_exists; exists y; split;
        [assumption | apply String.eqb_refl]).
  congruence.
Qed.

Lemma In_insert_string x y l : In x (insert_string y l) <-> x = y \/ In x l.
Proof.
  induction l as [|u l IH]; simpl; [intuition congruence|].
  destruct (y <=? u)%string; simpl; rewrite ?IH; intuition congruence.
Qed.

Lemma In_sort_strings x l : In x (sort_strings l) <-> In x l.
Proof.
  induction l as [|u l IH]; simpl; [tauto|].
  rewrite In_insert_string, IH. intuition congruence.
Qed.

Lemma NoDup_insert_string y l :
  NoDup l -> ~ In y l -> NoDup (insert_string y l).
Proof.
  induction l as [|u l IH]; intros Hnd Hy; simpl.
  - repeat constructor. tauto.
  - destruct (y <=? u)%string; [now constructor|].
    inversion Hnd as [|? ? Hu Hnd']; subst. constructor.
    + rewrite In_insert_string. simpl in Hy. intuition congruence.
    + apply IH; [assumption|]. simpl in Hy. tauto.
Qed.

Lemma NoDup_sort_strings l : NoDup l -> NoDup (sort_strings l).
Proof.
  induction l as [|u l IH]; intros Hnd; simpl; [constructor|].
  inversion Hnd; subst. apply NoDup_insert_string; [auto|].
  now rewrite In_sort_strings.
Qed.

Lemma Sorted_insert_string y l :
  Sorted (fun a b => (a <=? b)%string = true) l ->
  Sorted (fun a b => (a <=? b)%string = true) (insert_string y l).
Proof.
  induction l as [|u l IH]; intros Hs; simpl.
  - repeat constructor.
  - destruct (y <=? u)%string eqn:Hyu.
    + constructor; [assumption | now constructor].
    + inversion Hs as [|? ? Hs' Hhd]; subst.
      assert (Huy : (u <=? y)%string = true).
      { destruct (String.leb_total u y) as [H|H]; [assumption | congruence]. }
      constructor; [now apply IH|].
      destruct l as [|v l]; simpl.
      * now constructor.
      * destruct (y <=? v)%string; constructor; [assumption|].
        now inversion Hhd.
Qed.

Lemma Sorted_sort_strings l :
  Sorted (fun a b => (a <=? b)%string = true) (sort_strings l).
Proof.
  induction l as [|u l IH]; simpl; [constructor|].
  now apply Sorted_insert_string.
Qed.

Lemma Sorted_snoc {A} (R : A -> A -> Prop) (l : list A) (a : A) :
  Sorted R l -> HdRel (fun x y => R y x) a (rev l) -> Sorted R (l ++ [a]).
Proof.
  induction l as [|x l IH]; intros Hs Hhd; simpl.
  - repeat constructor.
  - inversion Hs as [|? ? Hs' Hx]; subst. constructor.
    + apply IH; [assumption|]. simpl in Hhd.
      destruct (rev l) as [|z r]; [constructor|].
      simpl in Hhd. inversion Hhd; subst. now constructor.
    + destruct l as [|y l]; simpl.
      * constructor. simpl in Hhd. now inversion Hhd.
      * constructor. now inversion Hx.
Qed.

Lemma Sorted_rev {A} (R : A -> A -> Prop) (l : list A) :
  Sorted R l -> Sorted (fun a b => R b a) (rev l).
Proof.
  induction l as [|x l IH]; intros Hs; simpl; [constructor|].
  inversion Hs as [|? ? Hs' Hx]; subst.
  apply Sorted_snoc; [now apply IH|].
  rewrite rev_involutive.
  destruct l as [|y l]; [constructor|].
  constructor. now inversion Hx.
Qed.

Lemma ym_eqb_eq a b : ym_eqb a b = true <-> a = b.
Proof.
  destruct a as [y m], b as [y' m']. unfold ym_eqb. simpl.
  rewrite andb_true_iff, !Z.eqb_eq. intuition congruence.
Qed.

Lemma In_distinct_ym x l : forall seen,
  In x (distinct_ym seen l) <-> In x l /\ ~ In x seen.
Proof.
  induction l as [|u l IH]; intros seen; simpl; [tauto|].
  destruct (existsb (ym_eqb u) seen) eqn:He.
  - apply existsb_exists in He as (z & Hz & Heq). apply ym_eqb_eq in Heq.
    subst z. rewrite IH. intuition congruence.
  - assert (Hu : ~ In u seen).
    { intros Hin. assert (existsb (ym_eqb u) seen = true); [|congruence].
      apply existsb_exists. exists u. split; [assumption|].
      now apply ym_eqb_eq. }
    simpl. rewrite IH. simpl.
    destruct (ym_eqb u x) eqn:Hux.
    + apply ym_eqb_eq in Hux. subst x. tauto.
    + assert (u <> x) by (intros ->; rewrite (proj2 (ym_eqb_eq x x)) in Hux;
                          [discriminate | reflexivity]).
      intuition congruence.
Qed.

Lemma In_insert_ym_desc x y l : In x (insert_ym_desc y l) <-> x = y \/ In x l.
Proof.
  induction l as [|u l IH]; simpl; [intuition congruence|].
  destruct (ym_leb u y); simpl; rewrite ?IH; intuition congruence.
Qed.

Lemma In_stored_months db y m :
  In (y, m) (stored_months db) <->
  exists t, In t (transactions db)
            /\ d_year (date_of t) = y /\ d_month (date_of t) = m.
Proof.
  unfold stored_months.
  set (l := distinct_ym [] _).
  assert (Hsort : forall x, In x (fold_right insert_ym_desc [] l) <-> In x l).
  { intros x. induction l as [|u l' IH]; simpl; [tauto|].
    rewrite In_insert_ym_desc, IH. intuition congruence. }
  rewrite Hsort. subst l. rewrite In_distinct_ym, in_map_iff. simpl.
  split.
  - intros [(t & Heq & Hin) _]. exists t. injection Heq as <- <-. auto.
  - intros (t & Hin & <- & <-). split; [|tauto]. exists t. auto.
Qed.

Lemma In_israeli_months k (rows : list (Z * Z)) : forall acc,
  In k (fold_left add_israeli_months rows acc) <->
  In k acc
  \/ exists y m, In (y, m) rows
                 /\ (k = month_key y m \/ k = previous_month_key y m).
Proof.
  induction rows as [|[y m] rows IH]; intros acc; simpl.
  - split; [tauto|]. intros [H|(y & m & [] & _)]. exact H.
  - rewrite IH. unfold previous_month_key.
    assert (Hstep : In k (if m =? 1
                          then set_add (set_add acc (month_key y m))
                                 (string_of_Z (y - 1) ++ "-12")
                          else set_add (set_add acc (month_key y m))
                                 (month_key y (m - 1)))
                    <-> In k acc \/ k = month_key y m
                        \/ k = (if m =? 1
                                then (string_of_Z (y - 1) ++ "-12")%string
                                else month_key y (m - 1))).
    { destruct (m =? 1); rewrite !In_set_add; tauto. }
    rewrite Hstep. split.
    + intros [[H|[H|H]]|(y' & m' & Hin & H)].
      * now left.
      * right. exists y, m. tauto.
      * right. exists y, m. tauto.
      * right. exists y', m'. tauto.
    + intros [H|(y' & m' & [Heq|Hin] & H)].
      * tauto.
      * injection Heq as <- <-. tauto.
      * right. exists y', m'. tauto.
Qed.

Lemma NoDup_israeli_months (rows : list (Z * Z)) : forall acc,
  NoDup acc -> NoDup (fold_left add_israeli_months rows acc).
Proof.
  induction rows as [|[y m] rows IH]; intros acc Hnd; simpl; [assumption|].
  apply IH. destruct (m =? 1); now repeat apply NoDup_set_add.
Qed.

Lemma In_getAvailableMonths db k :
  In k (getAvailableMonths db) <->
  exists t, In t (transactions db)
            /\ (k = month_key (d_year (date_of t)) (d_month (date_of t))
                \/ k = previous_month_key (d_year (date_of t))
                         (d_month (date_of t))).
Proof.
  unfold getAvailableMonths. rewrite <- in_rev, In_sort_strings.
  rewrite In_israeli_months. simpl. split.
  - intros [[]|(y & m & Hin & Hk)].
    apply In_stored_months in Hin as (t & Ht & <- & <-). exists t. auto.
  - intros (t & Ht & Hk). right.
    exists (d_year (date_of t)), (d_month (date_of t)).
    split; [|assumption]. apply In_stored_months. exists t. auto.
Qed.

(** X9. [getAvailableMonths] lists, without repetition and in descending
    order of the text, exactly the calendar month of every stored row and
    the month before it (December of the year before for January).  So
    every logical month for which [getTransactionsByIsraeliMonth] returns a
    row is offered, and an empty store offers none. *)
Theorem available_months_cover (db : database) :
  (forall k,
     In k (getAvailableMonths db) <->
     exists t, In t (transactions db)
               /\ (k = month_key (d_year (date_of t)) (d_month (date_of t))
                   \/ k = previous_month_key (d_year (date_of t))
                            (d_month (date_of t))))
  /\ NoDup (getAvailableMonths db)
  /\ Sorted (fun a b => (b <=? a)%string = true) (getAvailableMonths db)
  /\ (forall year month t,
        1 <= month <= 12 ->
        In t (getTransactionsByIsraeliMonth db year month) ->
        In (month_key year month) (getAvailableMonths db))
  /\ (transactions db = [] -> getAvailableMonths db = []).
Proof.
  split; [apply In_getAvailableMonths|].
  split.
  { unfold getAvailableMonths. apply NoDup_rev, NoDup_sort_strings.
    apply NoDup_israeli_months. constructor. }
  split.
  { unfold getAvailableMonths.
    apply (Sorted_rev (fun a b => (a <=? b)%string = true)).
    apply Sorted_sort_strings. }
  split.
  { intros year month t Hm Hin.
    apply In_getTransactionsByIsraeliMonth in Hin as (Hin & _ & _ & Hf).
    apply (israeli_month_filter_spec year month t Hm) in Hf.
    apply In_getAvailableMonths. exists t. split; [assumption|].
    destruct Hf as [[[Hy Hmo] _]|[[[Hy Hmo] _]|[Hnext _]]].
    - left. now rewrite Hy, Hmo.
    - left. now rewrite Hy, Hmo.
    - right. unfold previous_month_key.
      destruct Hnext as [[H12 [Hy Hmo]]|[Hlt [Hy Hmo]]]; rewrite Hy, Hmo.
      + subst month. cbn [Z.eqb].
        replace (year + 1 - 1) with year by lia. reflexivity.
      + destruct (Z.eqb_spec (month + 1) 1); [lia|].
        replace (month + 1 - 1) with month by lia. reflexivity. }
  intros Hnil. unfold getAvailableMonths, stored_months. now rewrite Hnil.
Qed.

(** ** One logical month per row *)

Lemma attributed_in_window year month t :
  valid_date (date_of t) -> 1 <= month <= 12 ->
  attributed_to year month t ->
  date_leb (mkDate year month 1) (date_of t) = true
  /\ date_leb (date_of t)
       (mkDate (fst (next_month year month)) (snd (next_month year month)) 10)
     = true.
Proof.
  intros [Hmonth Hday] Hm Hat.
  unfold attributed_to, dated_in_next, dated_in in Hat. split.
  - unfold date_leb; cbn [d_year d_month d_day].
    z_cases; simpl; try reflexivity; lia.
  - unfold date_leb, next_month. rewrite Z.gtb_ltb.
    destruct (Z.ltb_spec 12 (month + 1)); cbn [fst snd d_year d_month d_day];
      z_cases; simpl; try reflexivity; lia.
Qed.

Lemma attributed_logical year month t :
  valid_date (date_of t) -> 1 <= month <= 12 ->
  attributed_to year month t <-> logical_month t = (year, month).
Proof.
  intros [Hmonth Hday] Hm.
  unfold attributed_to, dated_in_next, dated_in, logical_month.
  destruct (bill_pattern t); rewrite ?andb_true_r, ?andb_false_r.
  - destruct (Z.leb_spec (d_day (date_of t)) 3) as [Hd|Hd];
      [destruct (Z.eqb_spec (d_month (date_of t)) 1) as [H1|H1]|];
      (split; [intros Hx; f_equal; intuition (try lia; try discriminate)
              | intros Hx; injection Hx as Hy Hmo;
                intuition (try lia; try discriminate)]).
  - destruct (Z.leb_spec (d_day (date_of t)) 3) as [Hd|Hd];
      (split; [intros Hx; f_equal; intuition (try lia; try discriminate)
              | intros Hx; injection Hx as Hy Hmo;
                intuition (try lia; try discriminate)]).
Qed.

Lemma logical_month_range t :
  valid_date (date_of t) -> 1 <= snd (logical_month t) <= 12.
Proof.
  intros [Hmonth Hday]. unfold logical_month.
  destruct ((d_day (date_of t) <=? 3) && bill_pattern t);
    [destruct (Z.eqb_spec (d_month (date_of t)) 1)|]; simpl; lia.
Qed.

Lemma month_member_logical year month t :
  valid_date (date_of t) -> 1 <= month <= 12 ->
  month_member year month t
  = (fst (logical_month t) =? year) && (snd (logical_month t) =? month).
Proof.
  intros Hv Hm. apply eq_true_iff_eq. unfold month_member.
  rewrite !andb_true_iff, !Z.eqb_eq, (israeli_month_filter_spec year month t Hm).
  rewrite (attributed_logical year month t Hv Hm).
  split.
  - intros [_ H]. now rewrite H.
  - intros [H1 H2].
    assert (HL : logical_month t = (year, month))
      by (destruct (logical_month t); simpl in *; congruence).
    split; [|assumption].
    apply attributed_in_window; try assumption.
    now apply attributed_logical.
Qed.

Lemma In_month_list db year month t :
  In t (getTransactionsByIsraeliMonth db year month)
  <-> In t (transactions db) /\ month_member year month t = true.
Proof.
  rewrite In_getTransactionsByIsraeliMonth. unfold month_member.
  rewrite !andb_true_iff. tauto.
Qed.

(** X10. Every stored row with a scraper-made date is in the list of
    exactly one logical month: the month before its own for a salary or
    credit-card row of the 1st to 3rd, its own month otherwise.  No row is
    counted in two months and none is lost between months. *)
Theorem one_logical_month (db : database) (t : transaction) :
  valid_date (date_of t) -> In t (transactions db) ->
  1 <= snd (logical_month t) <= 12
  /\ In t (getTransactionsByIsraeliMonth db (fst (logical_month t))
             (snd (logical_month t)))
  /\ (forall year month, 1 <= month <= 12 ->
        In t (getTransactionsByIsraeliMonth db year month) ->
        (year, month) = logical_month t)
  /\ (forall year month year' month',
        1 <= month <= 12 -> 1 <= month' <= 12 ->
        In t (getTransactionsByIsraeliMonth db year month) ->
        In t (getTransactionsByIsraeliMonth db year' month') ->
        year = year' /\ month = month').
Proof.
  intros Hv Hin.
  pose proof (logical_month_range t Hv) as Hr.
  assert (Hone : forall year month, 1 <= month <= 12 ->
            In t (getTransactionsByIsraeliMonth db year month) ->
            (year, month) = logical_month t).
  { intros year month Hm Hl. apply In_month_list in Hl as [_ Hl].
    rewrite (month_member_logical year month t Hv Hm) in Hl.
    apply andb_true_iff in Hl as [H1 H2]. apply Z.eqb_eq in H1, H2.
    destruct (logical_month t); simpl in *; congruence. }
  split; [exact Hr|]. split.
  { apply In_month_list. split; [assumption|].
    rewrite (month_member_logical _ _ t Hv Hr), !Z.eqb_refl. reflexivity. }
  split; [exact Hone|].
  intros year month year' month' Hm Hm' H1 H2.
  apply (Hone _ _ Hm) in H1. apply (Hone _ _ Hm') in H2.
  split; congruence.
Qed.

Lemma one_logical_month_witness :
  logical_month feb_salary = (2024, 1)
  /\ In feb_salary (getTransactionsByIsraeliMonth sample_db 2024 1).
Proof.
  assert (Hv : valid_date (date_of feb_salary))
    by (unfold valid_date; simpl; lia).
  destruct (one_logical_month sample_db feb_salary Hv (or_introl eq_refl))
    as (_ & Hin & _).
  split; [reflexivity | exact Hin].
Defined.

(** ** The year is the sum of its months *)

Lemma sumZ_filter_wsum p w l : sumZ (map w (filter p l)) = wsum p w l.
Proof.
  unfold wsum. induction l as [|t l IH]; simpl; [reflexivity|].
  destruct (p t); simpl; lia.
Qed.

Lemma wsum_filter p q w l :
  wsum p w (filter q l) = wsum (fun t => q t && p t) w l.
Proof.
  unfold wsum. induction l as [|t l IH]; simpl; [reflexivity|].
  destruct (q t); simpl; lia.
Qed.

Lemma wsum_insert p w t l :
  wsum p w (insert_by_date_desc t l) = (if p t then w t else 0) + wsum p w l.
Proof.
  unfold wsum. induction l as [|u l IH]; simpl; [reflexivity|].
  destruct (date_leb (date_of u) (date_of t)); simpl; lia.
Qed.

Lemma wsum_sort p w l : wsum p w (order_by_date_desc l) = wsum p w l.
Proof.
  induction l as [|t l IH]; simpl; [reflexivity|].
  rewrite wsum_insert, IH. reflexivity.
Qed.

Lemma wsum_ext_in p q w l :
  (forall t, In t l -> p t = q t) -> wsum p w l = wsum q w l.
Proof.
  intros H. unfold wsum. f_equal. apply map_ext_in. intros t Ht.
  now rewrite (H t Ht).
Qed.

Lemma month_list_wsum p w db year month :
  wsum p w (getTransactionsByIsraeliMonth db year month)
  = wsum (fun t => month_member year month t && p t) w (transactions db).
Proof.
  unfold getTransactionsByIsraeliMonth, month_member.
  destruct (next_month year month) as [ny nm]. cbn [fst snd].
  rewrite wsum_filter, wsum_sort, wsum_filter.
  apply wsum_ext_in. intros t _.
  now rewrite andb_assoc.
Qed.

Lemma sumZ_map_add {A} (f g : A -> Z) (l : list A) :
  sumZ (map (fun x => f x + g x) l) = sumZ (map f l) + sumZ (map g l).
Proof. induction l as [|x l IH]; simpl; lia. Qed.

Lemma sumZ_map_sub {A} (f g : A -> Z) (l : list A) :
  sumZ (map (fun x => f x - g x) l) = sumZ (map f l) - sumZ (map g l).
Proof. induction l as [|x l IH]; simpl; lia. Qed.

(** Summing over the months first or over the rows first. *)
Lemma sum_months_rows (f : Z -> transaction -> Z) (g : transaction -> Z)
    (ms : list Z) (rows : list transaction) :
  (forall t, In t rows -> sumZ (map (fun m => f m t) ms) = g t) ->
  sumZ (map (fun m => sumZ (map (f m) rows)) ms) = sumZ (map g rows).
Proof.
  induction rows as [|t rows IH]; intros H.
  - clear H. induction ms as [|m ms IHm]; [reflexivity|].
    simpl in *. exact IHm.
  - change (sumZ (map (fun m => f m t + sumZ (map (f m) rows)) ms)
            = g t + sumZ (map g rows)).
    rewrite (sumZ_map_add (fun m => f m t) (fun m => sumZ (map (f m) rows))).
    rewrite IH by (intros; apply H; now right).
    rewrite (H t) by now left. reflexivity.
Qed.

Lemma one_month_of_twelve (a x : bool) (k w : Z) :
  1 <= k <= 12 ->
  sumZ (map (fun m => if a && (k =? m) && x then w else 0) months_of_year)
  = if a && x then w else 0.
Proof.
  intros Hk. destruct a, x; cbn [andb].
  - assert (Hc : k = 1 \/ k = 2 \/ k = 3 \/ k = 4 \/ k = 5 \/ k = 6 \/ k = 7
                 \/ k = 8 \/ k = 9 \/ k = 10 \/ k = 11 \/ k = 12) by lia.
    repeat (destruct Hc as [->|Hc]; [vm_compute; destruct w; reflexivity|]).
    subst k. vm_compute. destruct w; reflexivity.
  - unfold months_of_year. simpl. rewrite !andb_false_r. reflexivity.
  - reflexivity.
  - reflexivity.
Qed.

(** A window-and-year test of [getYearToDateSummary], by logical month. *)
Lemma ytd_member_logical year t :
  valid_date (date_of t) ->
  date_leb (mkDate year 1 1) (date_of t)
  && date_leb (date_of t) (mkDate (year + 1) 1 3)
  && (belongsToYear t =? year)
  = (fst (logical_month t) =? year).
Proof.
  intros [Hmonth Hday]. rewrite belongsToYear_spec.
  unfold logical_month, date_leb. cbn [d_year d_month d_day].
  destruct (bill_pattern t); rewrite ?andb_true_r, ?andb_false_r.
  - destruct (Z.leb_spec (d_day (date_of t)) 3);
      destruct (Z.eqb_spec (d_month (date_of t)) 1);
      cbn [andb fst]; z_cases; simpl; try reflexivity; lia.
  - cbn [fst]. z_cases; simpl; try reflexivity; lia.
Qed.

(** Sums over a month's list, by the rows of the table. *)
Lemma month_sum_by_rows (c : transaction -> bool) (w : transaction -> Z)
    db year :
  (forall t, In t (transactions db) -> valid_date (date_of t)) ->
  sumZ (map (fun m => wsum c w (getTransactionsByIsraeliMonth db year m))
            months_of_year)
  = wsum (fun t => (fst (logical_month t) =? year) && c t) w (transactions db).
Proof.
  intros Hv. unfold wsum at 2.
  rewrite <- (sum_months_rows
                (fun m t => if (fst (logical_month t) =? year)
                               && (snd (logical_month t) =? m) && c t
                            then w t else 0)
                (fun t => if (fst (logical_month t) =? year) && c t
                          then w t else 0)
                months_of_year).
  - apply f_equal. apply map_ext_in. intros m Hm.
    rewrite month_list_wsum. unfold wsum. f_equal.
    apply map_ext_in. intros t Ht.
    rewrite month_member_logical; [reflexivity | now apply Hv |].
    unfold months_of_year in Hm. simpl in Hm.
    intuition (subst; lia).
  - intros t Ht. apply one_month_of_twelve.
    apply logical_month_range. now apply Hv.
Qed.

Lemma ytd_sum_by_rows (c : transaction -> bool) (w : transaction -> Z)
    db year :
  (forall t, In t (transactions db) -> valid_date (date_of t)) ->
  wsum c w (ytd_counted db year)
  = wsum (fun t => (fst (logical_month t) =? year)
                   && (negb (is_transfer t) && c t)) w (transactions db).
Proof.
  intros Hv. unfold ytd_counted, ytd_rows. rewrite !wsum_filter.
  apply wsum_ext_in. intros t Ht.
  rewrite <- (ytd_member_logical year t (Hv t Ht)).
  destruct (date_leb _ (date_of t)), (date_leb (date_of t) _),
    (belongsToYear t =? year), (is_transfer t), (c t); reflexivity.
Qed.

Lemma length_filter_wsum p l :
  Z.of_nat (length (filter p l)) = wsum p (fun _ => 1) l.
Proof.
  unfold wsum. induction l as [|t l IH]; [reflexivity|].
  cbn [filter map]. destruct (p t); cbn [length];
    change (sumZ (?a :: ?r)) with (a + sumZ r); lia.
Qed.

Lemma summary_totals db year month :
  let l := getTransactionsByIsraeliMonth db year month in
  let s := getMonthlySummary db year month in
  Summary.income s = wsum (fun t => is_counted t && (amount t >? 0)) amount l
  /\ Summary.expenses s
     = wsum (fun t => is_counted t && (amount t <? 0))
            (fun t => Z.abs (amount t)) l
  /\ Summary.investmentTotal s
     = wsum is_investment_only (fun t => Z.abs (amount t)) l
  /\ Z.of_nat (Summary.transactionCount s + length (Summary.investments s))
     = wsum (fun t => negb (is_transfer t)) (fun _ => 1) l.
Proof.
  intros l s. subst s. unfold getMonthlySummary. fold l.
  rewrite split_loop. cbn [Summary.income Summary.expenses
    Summary.investmentTotal Summary.transactionCount Summary.investments
    st_income st_expenses st_investmentTotal st_transactions st_investments].
  unfold positive_total, negative_total, absolute_total.
  rewrite !sumZ_filter_wsum, !wsum_filter.
  split; [reflexivity|]. split; [reflexivity|]. split; [reflexivity|].
  rewrite Nat2Z.inj_add, !length_filter_wsum. unfold wsum.
  rewrite <- sumZ_map_add. f_equal. apply map_ext. intros t.
  unfold is_counted, is_investment_only.
  destruct (is_transfer t), (is_investment t); reflexivity.
Qed.

Lemma ytd_totals db year :
  let l := ytd_counted db year in
  let s := getYearToDateSummary db year in
  Ytd.income s
  = wsum (fun t => negb (is_investment t) && (amount t >? 0)) amount l
  /\ Ytd.expenses s
     = wsum (fun t => negb (is_investment t) && (amount t <? 0))
            (fun t => Z.abs (amount t)) l
  /\ Ytd.investmentTotal s = wsum is_investment (fun t => Z.abs (amount t)) l
  /\ Z.of_nat (Ytd.transactionCount s) = wsum (fun _ => true) (fun _ => 1) l.
Proof.
  intros l s. subst s. unfold getYearToDateSummary. rewrite ytd_loop.
  cbv zeta. fold (ytd_counted db year). fold l.
  cbn [Ytd.income Ytd.expenses Ytd.investmentTotal Ytd.transactionCount
       y_income y_expenses y_investmentTotal y_count].
  unfold positive_total, negative_total, absolute_total.
  rewrite !sumZ_filter_wsum, !wsum_filter.
  split; [rewrite Z.add_0_l; reflexivity|].
  split; [rewrite Z.add_0_l; reflexivity|].
  split; [rewrite Z.add_0_l; reflexivity|].
  rewrite Nat.add_0_r. rewrite <- (length_filter_wsum (fun _ => true)).
  f_equal. f_equal. clear. induction l as [|t l IH]; [reflexivity|].
  cbn [filter]. now rewrite <- IH.
Qed.

(** X11. When every stored row has a scraper-made date, the year-to-date
    summary of a year is the sum of the summaries of its twelve logical
    months: income, expenses, balance and investment total add up, and the
    year's transaction count is the number of rows the months list as
    counted or as investments. *)
Theorem year_is_sum_of_months (db : database) (year : Z) :
  (forall t, In t (transactions db) -> valid_date (date_of t)) ->
  let ytd := getYearToDateSummary db year in
  let total (field : Summary.t -> Z) :=
    sumZ (map (fun m => field (getMonthlySummary db year m)) months_of_year) in
  Ytd.income ytd = total Summary.income
  /\ Ytd.expenses ytd = total Summary.expenses
  /\ Ytd.balance ytd = total Summary.balance
  /\ Ytd.investmentTotal ytd = total Summary.investmentTotal
  /\ Z.of_nat (Ytd.transactionCount ytd)
     = total (fun s => Z.of_nat (Summary.transactionCount s
                                 + length (Summary.investments s))).
Proof.
  intros Hv ytd total.
  destruct (ytd_totals db year) as (Hi & He & Hinv & Hn). fold ytd in Hi, He, Hinv, Hn.
  assert (Hmonths : forall (field : Summary.t -> Z) c w,
            (forall m, field (getMonthlySummary db year m)
                       = wsum c w (getTransactionsByIsraeliMonth db year m)) ->
            total field
            = wsum (fun t => (fst (logical_month t) =? year) && c t) w
                   (transactions db)).
  { intros field c w Hf. subst total. cbv beta.
    rewrite <- (month_sum_by_rows c w db year Hv).
    f_equal. apply map_ext. exact Hf. }
  assert (Hinc : Ytd.income ytd = total Summary.income).
  { rewrite Hi, (ytd_sum_by_rows _ _ db year Hv).
    rewrite (Hmonths Summary.income
               (fun t => is_counted t && (amount t >? 0)) amount)
      by (intros m; apply summary_totals).
    apply wsum_ext_in. intros t _. unfold is_counted.
    destruct (fst (logical_month t) =? year), (is_transfer t),
      (is_investment t); reflexivity. }
  assert (Hexp : Ytd.expenses ytd = total Summary.expenses).
  { rewrite He, (ytd_sum_by_rows _ _ db year Hv).
    rewrite (Hmonths Summary.expenses
               (fun t => is_counted t && (amount t <? 0))
               (fun t => Z.abs (amount t)))
      by (intros m; apply summary_totals).
    apply wsum_ext_in. intros t _. unfold is_counted.
    destruct (fst (logical_month t) =? year), (is_transfer t),
      (is_investment t); reflexivity. }
  split; [exact Hinc|]. split; [exact Hexp|].
  split.
  { change (Ytd.balance ytd) with (Ytd.income ytd - Ytd.expenses ytd).
    rewrite Hinc, Hexp. subst total. cbv beta.
    rewrite <- sumZ_map_sub. reflexivity. }
  split.
  { rewrite Hinv, (ytd_sum_by_rows _ _ db year Hv).
    rewrite (Hmonths Summary.investmentTotal is_investment_only
               (fun t => Z.abs (amount t)))
      by (intros m; apply summary_totals).
    reflexivity. }
  rewrite Hn, (ytd_sum_by_rows _ _ db year Hv).
  rewrite (Hmonths _ (fun t => negb (is_transfer t)) (fun _ => 1))
    by (intros m; apply summary_totals).
  apply wsum_ext_in. intros t _. now rewrite andb_true_r.
Qed.

Lemma year_is_sum_of_months_witness :
  Ytd.income (getYearToDateSummary year_db 2024) = 1300000
  /\ sumZ (map (fun m => Summary.income (getMonthlySummary year_db 2024 m))
               months_of_year) = 1300000
  /\ Ytd.expenses (getYearToDateSummary year_db 2024) = 301320.
Proof.
  assert (Hv : forall t, In t (transactions year_db) ->
                         valid_date (date_of t)).
  { intros t [<-|[<-|[<-|[<-|[<-|[]]]]]]; unfold valid_date; simpl; lia. }
  destruct (year_is_sum_of_months year_db 2024 Hv) as (Hi & He & _).
  split; [|split].
  - vm_compute. reflexivity.
  - rewrite <- Hi. vm_compute. reflexivity.
  - rewrite He. vm_compute. reflexivity.
Defined.

(** ** The breakdown adds up *)

Lemma bucket_sum_set f o k v :
  bucket_sum f (obj_set o k v)
  = bucket_sum f o
    - match obj_get o k with Some b => f b | None => 0 end
    + f v.
Proof.
  unfold bucket_sum. induction o as [|[k0 b0] o IH]; simpl; [lia|].
  destruct (k0 =? k)%string; simpl; [lia|]. rewrite IH. lia.
Qed.

Lemma group_step_sum (f : Bucket.t -> Z) (delta : transaction -> Z) o t :
  f (Bucket.mk 0 0 []) = 0 ->
  (forall b,
     f (Bucket.mk
          (Bucket.income
             (if amount t >? 0
              then Bucket.mk (Bucket.income b + amount t) (Bucket.expenses b)
                             (Bucket.transactions b)
              else Bucket.mk (Bucket.income b)
                             (Bucket.expenses b + Z.abs (amount t))
                             (Bucket.transactions b)))
          (Bucket.expenses
             (if amount t >? 0
              then Bucket.mk (Bucket.income b + amount t) (Bucket.expenses b)
                             (Bucket.transactions b)
              else Bucket.mk (Bucket.income b)
                             (Bucket.expenses b + Z.abs (amount t))
                             (Bucket.transactions b)))
          (Bucket.transactions
             (if amount t >? 0
              then Bucket.mk (Bucket.income b + amount t) (Bucket.expenses b)
                             (Bucket.transactions b)
              else Bucket.mk (Bucket.income b)
                             (Bucket.expenses b + Z.abs (amount t))
                             (Bucket.transactions b))
           ++ [t]))
     = f b + delta t) ->
  bucket_sum f (group_step o t) = bucket_sum f o + delta t.
Proof.
  intros H0 Hstep. unfold group_step.
  destruct (obj_get o (catId_of t)) as [b|] eqn:Hg.
  - rewrite Hg, bucket_sum_set, Hg, Hstep. lia.
  - rewrite obj_get_set, String.eqb_refl.
    rewrite bucket_sum_set, obj_get_set, String.eqb_refl.
    rewrite bucket_sum_set, Hg, Hstep, H0. lia.
Qed.

Lemma group_loop_sum (f : Bucket.t -> Z) (delta : transaction -> Z) l :
  f (Bucket.mk 0 0 []) = 0 ->
  (forall t b,
     f (Bucket.mk
          (Bucket.income
             (if amount t >? 0
              then Bucket.mk (Bucket.income b + amount t) (Bucket.expenses b)
                             (Bucket.transactions b)
              else Bucket.mk (Bucket.income b)
                             (Bucket.expenses b + Z.abs (amount t))
                             (Bucket.transactions b)))
          (Bucket.expenses
             (if amount t >? 0
              then Bucket.mk (Bucket.income b + amount t) (Bucket.expenses b)
                             (Bucket.transactions b)
              else Bucket.mk (Bucket.income b)
                             (Bucket.expenses b + Z.abs (amount t))
                             (Bucket.transactions b)))
          (Bucket.transactions
             (if amount t >? 0
              then Bucket.mk (Bucket.income b + amount t) (Bucket.expenses b)
                             (Bucket.transactions b)
              else Bucket.mk (Bucket.income b)
                             (Bucket.expenses b + Z.abs (amount t))
                             (Bucket.transactions b))
           ++ [t]))
     = f b + delta t) ->
  forall o,
    bucket_sum f (fold_left group_step l o)
    = bucket_sum f o + sumZ (map delta l).
Proof.
  intros H0 Hstep. induction l as [|t l IH]; intros o; simpl; [lia|].
  rewrite IH, (group_step_sum f delta o t H0 (Hstep t)). lia.
Qed.

Lemma sumZ_ones {A} (l : list A) :
  sumZ (map (fun _ => 1) l) = Z.of_nat (length l).
Proof.
  induction l as [|x l IH]; [reflexivity|].
  cbn [map length]. change (sumZ (?a :: ?r)) with (a + sumZ r). lia.
Qed.

Lemma breakdown_byCategory db year month :
  Summary.byCategory (getMonthlySummary db year month)
  = fold_left group_step (counted_rows db year month) [].
Proof. rewrite <- summary_transactions. reflexivity. Qed.

Lemma breakdown_income db year month :
  bucket_sum Bucket.income (Summary.byCategory (getMonthlySummary db year month))
  = Summary.income (getMonthlySummary db year month).
Proof.
  destruct (summary_totals db year month) as (Hi & _).
  rewrite breakdown_byCategory,
    (group_loop_sum Bucket.income
       (fun t => if amount t >? 0 then amount t else 0)).
  - cbv zeta in Hi. rewrite Hi. unfold counted_rows, bucket_sum. simpl.
    rewrite <- wsum_filter. unfold wsum. reflexivity.
  - reflexivity.
  - intros t b. destruct (amount t >? 0); simpl; lia.
Qed.

Lemma breakdown_expenses db year month :
  bucket_sum Bucket.expenses
    (Summary.byCategory (getMonthlySummary db year month))
  = Summary.expenses (getMonthlySummary db year month).
Proof.
  destruct (summary_totals db year month) as (_ & He & _).
  rewrite breakdown_byCategory,
    (group_loop_sum Bucket.expenses
       (fun t => if amount t >? 0 then 0 else Z.abs (amount t))).
  - cbv zeta in He. rewrite He. unfold counted_rows, bucket_sum. simpl.
    rewrite <- wsum_filter. unfold wsum. f_equal. apply map_ext. intros t.
    rewrite Z.gtb_ltb.
    destruct (Z.ltb_spec 0 (amount t)), (Z.ltb_spec (amount t) 0); lia.
  - reflexivity.
  - intros t b. destruct (amount t >? 0); simpl; lia.
Qed.

(** X12. The breakdown by category adds up to the month's totals: the
    incomes of the buckets sum to the income, their expenses to the
    expenses, their differences to the balance, and their row counts to the
    transaction count. *)
Theorem breakdown_adds_up (db : database) (year month : Z) :
  let s := getMonthlySummary db year month in
  bucket_sum Bucket.income (Summary.byCategory s) = Summary.income s
  /\ bucket_sum Bucket.expenses (Summary.byCategory s) = Summary.expenses s
  /\ bucket_sum (fun b => Bucket.income b - Bucket.expenses b)
       (Summary.byCategory s) = Summary.balance s
  /\ bucket_sum (fun b => Z.of_nat (length (Bucket.transactions b)))
       (Summary.byCategory s)
     = Z.of_nat (Summary.transactionCount s).
Proof.
  intros s.
  pose proof (breakdown_income db year month) as Hinc.
  pose proof (breakdown_expenses db year month) as Hexp.
  fold s in Hinc, Hexp.
  split; [exact Hinc|]. split; [exact Hexp|]. split.
  - change (Summary.balance s) with (Summary.income s - Summary.expenses s).
    rewrite <- Hinc, <- Hexp. unfold bucket_sum.
    now rewrite <- sumZ_map_sub.
  - subst s. rewrite breakdown_byCategory,
      (group_loop_sum
         (fun b => Z.of_nat (length (Bucket.transactions b)))
         (fun _ => 1)).
    + change (Summary.transactionCount (getMonthlySummary db year month))
        with (length (Summary.transactions (getMonthlySummary db year month))).
      rewrite summary_transactions. unfold bucket_sum.
      cbn [map sumZ fold_right]. rewrite sumZ_ones. lia.
    + reflexivity.
    + intros t b. destruct (amount t >? 0); simpl;
        rewrite length_app; simpl; lia.
Qed.

(** ** Averages over any window *)

Lemma sumZ_lower (l : list Z) (lo : Z) :
  (forall t, In t l -> lo <= t) -> Z.of_nat (length l) * lo <= sumZ l.
Proof.
  induction l as [|x l IH]; intros H; [simpl; lia|].
  cbn [length]. change (sumZ (x :: l)) with (x + sumZ l).
  pose proof (H x (or_introl eq_refl)).
  pose proof (IH (fun t Ht => H t (or_intror Ht))). lia.
Qed.

Lemma sumZ_upper (l : list Z) (hi : Z) :
  (forall t, In t l -> t <= hi) -> sumZ l <= Z.of_nat (length l) * hi.
Proof.
  induction l as [|x l IH]; intros H; [simpl; lia|].
  cbn [length]. change (sumZ (x :: l)) with (x + sumZ l).
  pose proof (H x (or_introl eq_refl)).
  pose proof (IH (fun t Ht => H t (or_intror Ht))). lia.
Qed.

Lemma rounded_mean_lower (l : list Z) (lo : Z) :
  l <> [] -> (forall t, In t l -> lo <= t) -> lo <= rounded_mean l.
Proof.
  intros Hne H. pose proof (sumZ_lower l lo H) as Hs.
  destruct l as [|x l]; [congruence|]. unfold rounded_mean, round_div.
  set (n := Z.of_nat (length (x :: l))) in *.
  assert (0 < n) by (subst n; cbn [length]; lia).
  apply Z.div_le_lower_bound; lia.
Qed.

Lemma rounded_mean_upper (l : list Z) (hi : Z) :
  l <> [] -> (forall t, In t l -> t <= hi) -> rounded_mean l <= hi.
Proof.
  intros Hne H. pose proof (sumZ_upper l hi H) as Hs.
  destruct l as [|x l]; [congruence|]. unfold rounded_mean, round_div.
  set (n := Z.of_nat (length (x :: l))) in *.
  assert (0 < n) by (subst n; cbn [length]; lia).
  apply Z.lt_succ_r. apply Z.div_lt_upper_bound; lia.
Qed.

Lemma In_nonzero (l : list Z) (t : Z) : In t (nonzero l) <-> In t l /\ t <> 0.
Proof.
  unfold nonzero. rewrite filter_In.
  destruct (Z.eqb_spec t 0); simpl; intuition congruence.
Qed.

Lemma nonzero_nil (l : list Z) : nonzero l = [] <-> forall t, In t l -> t = 0.
Proof.
  split.
  - intros Hn t Ht. destruct (Z.eq_dec t 0) as [|Hz]; [assumption|].
    assert (Hin : In t (nonzero l)) by (apply In_nonzero; now split).
    rewrite Hn in Hin. destruct Hin.
  - intros H. destruct (nonzero l) as [|x r] eqn:Hn; [reflexivity|].
    assert (Hin : In x (nonzero l)) by (rewrite Hn; now left).
    apply In_nonzero in Hin as [Hin Hx]. now apply H in Hin.
Qed.

(** The mean of the non-zero entries of totals that are not negative. *)
Lemma window_mean (l : list Z) :
  (forall t, In t l -> 0 <= t) ->
  0 <= rounded_mean (nonzero l)
  /\ (rounded_mean (nonzero l) = 0 <-> forall t, In t l -> t = 0)
  /\ (forall lo hi,
        (forall t, In t l -> t <> 0 -> lo <= t <= hi) ->
        (exists t, In t l /\ t <> 0) ->
        lo <= rounded_mean (nonzero l) <= hi).
Proof.
  intros Hpos.
  assert (Hone : nonzero l <> [] -> 1 <= rounded_mean (nonzero l)).
  { intros Hne. apply rounded_mean_lower; [assumption|].
    intros t Ht. apply In_nonzero in Ht as [Ht Hz]. apply Hpos in Ht. lia. }
  split; [|split].
  - destruct (nonzero l) as [|x r] eqn:Hn; [simpl; lia|].
    assert (x :: r <> []) by congruence. rewrite <- Hn in *.
    apply Hone in H. lia.
  - rewrite <- nonzero_nil. split.
    + intros Hz. destruct (nonzero l) as [|x r] eqn:Hn; [reflexivity|].
      assert (Hne : x :: r <> []) by congruence. rewrite <- Hn in *.
      apply Hone in Hne. lia.
    + intros ->. reflexivity.
  - intros lo hi Hb (t & Ht & Hz).
    assert (Hne : nonzero l <> []).
    { intros Hn. rewrite nonzero_nil in Hn. now apply Hn in Ht. }
    split.
    + apply rounded_mean_lower; [assumption|].
      intros u Hu. apply In_nonzero in Hu as [Hu Hz']. now apply Hb.
    + apply rounded_mean_upper; [assumption|].
      intros u Hu. apply In_nonzero in Hu as [Hu Hz']. now apply Hb.
Qed.

Lemma category_totals_window db c n : forall year month,
  category_totals db c year month n
  = map (fun p => category_expense db c (fst p) (snd p))
        (months_before year month n).
Proof.
  induction n as [|n IH]; intros year month; [reflexivity|].
  rewrite category_totals_spec. cbn [months_before map]. now rewrite IH.
Qed.

Lemma regular_incomes_window db n : forall year month,
  regular_incomes db year month n
  = nonzero (map (fun p => regular_income (counted_rows db (fst p) (snd p)))
                 (months_before year month n)).
Proof.
  induction n as [|n IH]; intros year month; [reflexivity|].
  rewrite regular_incomes_spec. cbv zeta. cbn [months_before map].
  rewrite IH. symmetry. apply nonzero_cons.
Qed.

Lemma months_before_length n : forall year month,
  length (months_before year month n) = n.
Proof.
  induction n as [|n IH]; intros year month; [reflexivity|].
  cbn [months_before length]. now rewrite IH.
Qed.

(** X13. For a window of any length, [getCategoryAverage] and
    [getAverageRegularIncome] are the rounded mean of the non-zero monthly
    figures of the months before the given one: the average is never
    negative, it is 0 exactly when every month of the window is zero, and
    otherwise it lies between the smallest and the largest non-zero month,
    so that a month without data never dilutes it. *)
Theorem averages_within_window (db : database) (categoryId : string)
    (year month : Z) (numMonths : nat) :
  let window := months_before year month numMonths in
  let totals :=
    map (fun p => category_expense db categoryId (fst p) (snd p)) window in
  let incomes :=
    map (fun p => getRegularIncomeForMonth db (fst p) (snd p)) window in
  let average := getCategoryAverage db categoryId year month numMonths in
  let income := getAverageRegularIncome db year month numMonths in
  length window = numMonths
  /\ 0 <= average
  /\ (average = 0 <-> forall t, In t totals -> t = 0)
  /\ (forall lo hi,
        (forall t, In t totals -> t <> 0 -> lo <= t <= hi) ->
        (exists t, In t totals /\ t <> 0) ->
        lo <= average <= hi)
  /\ 0 <= income
  /\ (income = 0 <-> forall t, In t incomes -> t = 0)
  /\ (forall lo hi,
        (forall t, In t incomes -> t <> 0 -> lo <= t <= hi) ->
        (exists t, In t incomes /\ t <> 0) ->
        lo <= income <= hi).
Proof.
  intros window totals incomes average income.
  assert (Hlen : length window = numMonths).
  { apply months_before_length. }
  assert (Havg : average = rounded_mean (nonzero totals)).
  { subst average totals window. unfold getCategoryAverage.
    rewrite category_totals_window.
    rewrite filter_positive_nonzero; [apply average_tail|].
    intros t Ht. apply in_map_iff in Ht as (p & <- & _).
    apply category_expense_nonneg. }
  assert (Hinc : income = rounded_mean (nonzero incomes)).
  { subst income incomes window. unfold getAverageRegularIncome.
    rewrite average_tail, regular_incomes_window. do 2 f_equal.
    apply map_ext. intros p. symmetry. apply getRegularIncomeForMonth_spec. }
  assert (Htot : forall t, In t totals -> 0 <= t).
  { intros t Ht. apply in_map_iff in Ht as (p & <- & _).
    apply category_expense_nonneg. }
  assert (Hreg : forall t, In t incomes -> 0 <= t).
  { intros t Ht. apply in_map_iff in Ht as (p & <- & _).
    rewrite getRegularIncomeForMonth_spec. apply regular_income_nonneg. }
  destruct (window_mean totals Htot) as (A1 & A2 & A3).
  destruct (window_mean incomes Hreg) as (B1 & B2 & B3).
  rewrite Havg, Hinc. tauto.
Qed.

(** ** The number of rows after ingestion *)

Lemma existsb_eqb_In (i : string) (l : list string) :
  existsb (String.eqb i) l = true <-> In i l.
Proof.
  rewrite existsb_exists. split.
  - intros (x & Hx & He). apply String.eqb_eq in He. now subst.
  - intros H. exists i. split; [assumption | apply String.eqb_refl].
Qed.

Lemma In_new_ids txns : forall known i,
  In i (new_ids known txns) <-> In i (map r_id txns) /\ ~ In i known.
Proof.
  induction txns as [|r txns IH]; intros known i; simpl; [tauto|].
  destruct (existsb (String.eqb (r_id r)) known) eqn:He.
  - apply existsb_eqb_In in He. rewrite IH.
    split; [tauto|]. intros [[<-|H] Hn]; tauto.
  - assert (Hn : ~ In (r_id r) known).
    { intros Hin. apply existsb_eqb_In in Hin. congruence. }
    simpl. rewrite IH, in_app_iff. simpl.
    destruct (string_dec (r_id r) i) as [<-|Hne]; tauto.
Qed.

Lemma NoDup_new_ids txns : forall known, NoDup (new_ids known txns).
Proof.
  induction txns as [|r txns IH]; intros known; simpl; [constructor|].
  destruct (existsb (String.eqb (r_id r)) known); [apply IH|].
  constructor; [|apply IH].
  rewrite In_new_ids, in_app_iff. simpl. tauto.
Qed.

Lemma new_ids_length txns : forall known,
  (length (new_ids known txns) <= length txns)%nat.
Proof.
  induction txns as [|r txns IH]; intros known; simpl; [lia|].
  destruct (existsb (String.eqb (r_id r)) known); simpl.
  - specialize (IH known). lia.
  - specialize (IH (known ++ [r_id r])). lia.
Qed.

Lemma batch_new_ids toLowerCase source txns : forall rows,
  map id (fold_left (upsert_rows toLowerCase source) txns rows)
  = map id rows ++ new_ids (map id rows) txns.
Proof.
  induction txns as [|r txns IH]; intros rows; simpl;
    [now rewrite app_nil_r|].
  rewrite IH, upsert_ids.
  destruct (find_by_id (r_id r) rows) eqn:Hf.
  - assert (He : existsb (String.eqb (r_id r)) (map id rows) = true).
    { apply existsb_eqb_In. apply find_by_id_Some in Hf as [Hin <-].
      now apply in_map. }
    now rewrite He.
  - assert (He : existsb (String.eqb (r_id r)) (map id rows) = false).
    { destruct (existsb _ _) eqn:He; [|reflexivity].
      apply existsb_eqb_In in He. now apply find_by_id_None in Hf. }
    rewrite He, <- app_assoc. reflexivity.
Qed.

(** X14. [upsertTransactions] succeeds on every batch and answers the
    length of the batch, which is not the number of rows it adds: the table
    grows by one row for each id of the batch that was not stored, whatever
    the number of records that carry it, the new rows coming after the old
    ones in the order of their first record.  So [getTransactionCount]
    grows by at most the batch length and stays as it was exactly when
    every record's id was already stored; categories, rules and settings
    are left alone. *)
Theorem ingestion_row_count (toLowerCase : string -> string) (db : database)
    (txns : list scraped) (source : string) :
  exists db',
    upsertTransactions toLowerCase db txns source = Some (db', length txns)
    /\ (let added := new_ids (map id (transactions db)) txns in
        map id (transactions db') = map id (transactions db) ++ added
        /\ NoDup added
        /\ (forall i, In i added <->
                      In i (map r_id txns)
                      /\ ~ In i (map id (transactions db)))
        /\ getTransactionCount db'
           = (getTransactionCount db + length added)%nat)
    /\ (getTransactionCount db <= getTransactionCount db'
        <= getTransactionCount db + length txns)%nat
    /\ (getTransactionCount db' = getTransactionCount db <->
        forall r, In r txns -> In (r_id r) (map id (transactions db)))
    /\ categories db' = categories db
    /\ category_rules db' = category_rules db
    /\ settings db' = settings db.
Proof.
  set (rows' := fold_left (upsert_rows toLowerCase source) txns
                          (transactions db)).
  exists (with_transactions db rows').
  pose proof (batch_new_ids toLowerCase source txns (transactions db)) as Hids.
  fold rows' in Hids.
  set (added := new_ids (map id (transactions db)) txns) in *.
  assert (Hcount : length rows' = (length (transactions db) + length added)%nat).
  { rewrite <- (length_map id rows'), Hids, length_app, length_map.
    reflexivity. }
  pose proof (new_ids_length txns (map id (transactions db))) as Hle.
  fold added in Hle.
  split.
  { unfold upsertTransactions. now rewrite upsertMany_rows. }
  split.
  { cbv zeta. split; [exact Hids|]. split; [apply NoDup_new_ids|].
    split; [intros i; apply In_new_ids | exact Hcount]. }
  unfold getTransactionCount. cbn [with_transactions transactions].
  split; [lia|]. split; [|now split].
  rewrite Hcount. split.
  - intros Hz r Hr.
    destruct (in_dec string_dec (r_id r) (map id (transactions db)))
      as [|Hn]; [assumption|].
    assert (Hin : In (r_id r) added).
    { apply In_new_ids. split; [now apply in_map | assumption]. }
    destruct added; [destruct Hin | simpl in Hz; lia].
  - intros Hall. destruct added as [|i l] eqn:Ha; [simpl; lia|].
    assert (Hin : In i (new_ids (map id (transactions db)) txns)).
    { fold added. rewrite Ha. now left. }
    apply In_new_ids in Hin as [Hin Hn].
    apply in_map_iff in Hin as (r & <- & Hr). now apply Hall in Hr.
Qed.

(** ** Deleting a category *)

Lemma month_list_delete db c year month :
  getTransactionsByIsraeliMonth (deleteCategory db c) year month
  = map (uncategorize c) (getTransactionsByIsraeliMonth db year month).
Proof.
  rewrite <- (month_list_map (uncategorize c) db); [reflexivity|].
  intros t. unfold uncategorize. destruct (has_category c t); simpl; tauto.
Qed.

Lemma counted_rows_delete db c year month :
  counted_rows (deleteCategory db c) year month
  = map (uncategorize c) (counted_rows db year month).
Proof.
  unfold counted_rows. rewrite month_list_delete, filter_map_commute.
  f_equal. apply filter_ext. intros t. unfold uncategorize.
  destruct (has_category c t); reflexivity.
Qed.

Lemma catId_of_uncategorize c t :
  c <> "uncategorized" ->
  catId_of (uncategorize c t)
  = if (catId_of t =? c)%string then "uncategorized" else catId_of t.
Proof.
  intros Hc. unfold uncategorize, has_category, catId_of.
  destruct (category_id t) as [x|] eqn:Hx; cbn [truthy_opt or_empty].
  - destruct (String.eqb_spec x c) as [->|Hne].
    + cbn [set_category category_id truthy_opt].
      destruct (truthy c); [now rewrite String.eqb_refl|].
      destruct (String.eqb_spec "uncategorized" c); congruence.
    + rewrite Hx. cbn [truthy_opt or_empty].
      destruct (truthy x).
      * destruct (String.eqb_spec x c); congruence.
      * destruct (String.eqb_spec "uncategorized" c); congruence.
  - rewrite Hx. cbn [truthy_opt].
    destruct (String.eqb_spec "uncategorized" c); congruence.
Qed.

Lemma grouped_delete_self c l :
  c <> "uncategorized" -> grouped_under c (map (uncategorize c) l) = [].
Proof.
  intros Hc. unfold grouped_under. induction l as [|t l IH]; [reflexivity|].
  cbn [map filter]. rewrite IH, catId_of_uncategorize by assumption.
  destruct (String.eqb_spec (catId_of t) c) as [He|He].
  - destruct (String.eqb_spec "uncategorized" c); congruence.
  - destruct (String.eqb_spec (catId_of t) c); congruence.
Qed.

Lemma grouped_delete_other c k l :
  c <> "uncategorized" -> k <> c -> k <> "uncategorized" ->
  grouped_under k (map (uncategorize c) l) = grouped_under k l.
Proof.
  intros Hc Hk Hu. unfold grouped_under.
  induction l as [|t l IH]; [reflexivity|].
  cbn [map filter]. rewrite IH, catId_of_uncategorize by assumption.
  destruct (String.eqb_spec (catId_of t) c) as [He|He].
  - destruct (String.eqb_spec "uncategorized" k); [congruence|].
    destruct (String.eqb_spec (catId_of t) k); congruence.
  - destruct (String.eqb_spec (catId_of t) k) as [Hk'|]; [|reflexivity].
    f_equal. unfold uncategorize, has_category.
    destruct (category_id t) as [x|] eqn:Hx; [|reflexivity].
    destruct (String.eqb_spec x c) as [->|]; [|reflexivity].
    exfalso. unfold catId_of in He, Hk'. rewrite Hx in He, Hk'.
    cbn [truthy_opt or_empty] in He, Hk'.
    destruct (truthy c); congruence.
Qed.

Lemma grouped_sum_delete (w : transaction -> Z) (p : transaction -> bool) c l :
  c <> "uncategorized" ->
  (forall t, w (uncategorize c t) = w t) ->
  (forall t, p (uncategorize c t) = p t) ->
  sumZ (map w (filter p (grouped_under "uncategorized"
                           (map (uncategorize c) l))))
  = sumZ (map w (filter p (grouped_under "uncategorized" l)))
    + sumZ (map w (filter p (grouped_under c l))).
Proof.
  intros Hc Hw Hp. unfold grouped_under.
  induction l as [|t l IH]; [reflexivity|].
  cbn [map filter]. rewrite catId_of_uncategorize by assumption.
  destruct (String.eqb_spec (catId_of t) c) as [He|He].
  - rewrite String.eqb_refl.
    destruct (String.eqb_spec (catId_of t) "uncategorized"); [congruence|].
    cbn [filter]. rewrite Hp. destruct (p t); cbn [map]; [|exact IH].
    change (sumZ (?a :: ?r)) with (a + sumZ r). rewrite Hw.
    change (sumZ (?a :: ?r)) with (a + sumZ r). lia.
  - destruct (String.eqb_spec (catId_of t) "uncategorized"); [|exact IH].
    cbn [filter]. rewrite Hp. destruct (p t); cbn [map]; [|exact IH].
    change (sumZ (?a :: ?r)) with (a + sumZ r). rewrite Hw.
    change (sumZ (?a :: ?r)) with (a + sumZ r). lia.
Qed.

Lemma sum_delete (w : transaction -> Z) (p : transaction -> bool) c l :
  (forall t, w (uncategorize c t) = w t) ->
  (forall t, p (uncategorize c t) = p t) ->
  sumZ (map w (filter p (map (uncategorize c) l)))
  = sumZ (map w (filter p l)).
Proof.
  intros Hw Hp. induction l as [|t l IH]; [reflexivity|].
  cbn [map filter]. rewrite Hp. destruct (p t); cbn [map]; [|exact IH].
  change (sumZ (?a :: ?r)) with (a + sumZ r). rewrite Hw.
  change (sumZ (?a :: ?r)) with (a + sumZ r). lia.
Qed.

Lemma amount_uncategorize c t : amount (uncategorize c t) = amount t.
Proof. unfold uncategorize. destruct (has_category c t); reflexivity. Qed.

Lemma summary_income_expenses db year month :
  Summary.income (getMonthlySummary db year month)
  = positive_total (counted_rows db year month)
  /\ Summary.expenses (getMonthlySummary db year month)
     = negative_total (counted_rows db year month).
Proof.
  unfold getMonthlySummary, counted_rows. simpl. now rewrite split_loop.
Qed.

Lemma bucket_income_spec db k year month :
  bucket_income (getMonthlySummary db year month) k
  = positive_total (grouped_under k (counted_rows db year month)).
Proof.
  unfold bucket_income. rewrite summary_byCategory.
  destruct (grouped_under k (counted_rows db year month)); reflexivity.
Qed.

Lemma bucket_expenses_spec db k year month :
  bucket_expenses (getMonthlySummary db year month) k
  = negative_total (grouped_under k (counted_rows db year month)).
Proof.
  unfold bucket_expenses. rewrite summary_byCategory.
  destruct (grouped_under k (counted_rows db year month)); reflexivity.
Qed.

Lemma uncategorize_twice c t :
  uncategorize c (uncategorize c t) = uncategorize c t.
Proof.
  unfold uncategorize. destruct (has_category c t) eqn:Hh; [|now rewrite Hh].
  reflexivity.
Qed.

(** X15. [deleteCategory] clears the category of the rows that had it and
    of no other row, removes the rules that name it and the category
    itself, and is idempotent.  No month's income, expenses or transaction
    count changes: in every month the deleted category's bucket is gone and
    its income and expenses are added to the bucket 'uncategorized', the
    other buckets staying as they were. *)
Theorem delete_category_to_uncategorized (db : database) (categoryId : string) :
  categoryId <> "uncategorized" ->
  let db' := deleteCategory db categoryId in
  transactions db' = map (uncategorize categoryId) (transactions db)
  /\ (forall t, In t (transactions db') -> category_id t <> Some categoryId)
  /\ (forall t, In t (transactions db) ->
        category_id t <> Some categoryId -> In t (transactions db'))
  /\ category_rules db'
     = filter (fun r => negb (rule_category_id r =? categoryId)%string)
              (category_rules db)
  /\ (forall c, In c (getCategories db') <->
                In c (getCategories db) /\ c_id c <> categoryId)
  /\ settings db' = settings db
  /\ deleteCategory db' categoryId = db'
  /\ forall year month,
       let s := getMonthlySummary db year month in
       let s' := getMonthlySummary db' year month in
       Summary.income s' = Summary.income s
       /\ Summary.expenses s' = Summary.expenses s
       /\ Summary.balance s' = Summary.balance s
       /\ Summary.transactionCount s' = Summary.transactionCount s
       /\ obj_get (Summary.byCategory s') categoryId = None
       /\ bucket_income s' "uncategorized"
          = bucket_income s "uncategorized" + bucket_income s categoryId
       /\ bucket_expenses s' "uncategorized"
          = bucket_expenses s "uncategorized" + bucket_expenses s categoryId
       /\ (forall k, k <> categoryId -> k <> "uncategorized" ->
             obj_get (Summary.byCategory s') k
             = obj_get (Summary.byCategory s) k).
Proof.
  intros Hc db'.
  assert (Hrows : transactions db'
                  = map (uncategorize categoryId) (transactions db))
    by reflexivity.
  split; [exact Hrows|]. split.
  { intros t Ht. rewrite Hrows in Ht. apply in_map_iff in Ht as (u & <- & _).
    unfold uncategorize, has_category.
    destruct (category_id u) as [x|] eqn:Hx; [|now rewrite Hx].
    destruct (String.eqb_spec x categoryId) as [->|Hne];
      [discriminate | rewrite Hx; congruence]. }
  split.
  { intros t Ht Hcat. rewrite Hrows. apply in_map_iff. exists t.
    split; [|assumption]. unfold uncategorize, has_category.
    destruct (category_id t) as [x|]; [|reflexivity].
    destruct (String.eqb_spec x categoryId); congruence. }
  split; [reflexivity|]. split.
  { intros c. rewrite !In_getCategories.
    change (categories db')
      with (filter (fun c => negb (c_id c =? categoryId)%string)
                   (categories db)).
    rewrite filter_In.
    destruct (String.eqb_spec (c_id c) categoryId); simpl;
      intuition congruence. }
  split; [reflexivity|]. split.
  { subst db'. unfold deleteCategory.
    unfold with_transactions, with_category_rules, with_categories.
    cbn [transactions categories category_rules settings].
    f_equal.
    - rewrite map_map. apply map_ext. intros t.
      apply (uncategorize_twice categoryId t).
    - clear. induction (categories db) as [|c l IH]; [reflexivity|].
      cbn [filter]. destruct (negb (c_id c =? categoryId)%string) eqn:He;
        [|exact IH].
      cbn [filter]. rewrite He. now f_equal.
    - clear. induction (category_rules db) as [|r l IH]; [reflexivity|].
      cbn [filter].
      destruct (negb (rule_category_id r =? categoryId)%string) eqn:He;
        [|exact IH].
      cbn [filter]. rewrite He. now f_equal. }
  intros year month s s'.
  destruct (summary_income_expenses db year month) as [Hi He].
  destruct (summary_income_expenses db' year month) as [Hi' He'].
  fold s in Hi, He. fold s' in Hi', He'.
  assert (Hinc : Summary.income s' = Summary.income s).
  { rewrite Hi, Hi'. subst db'. rewrite counted_rows_delete.
    unfold positive_total.
    apply (sum_delete amount (fun t => amount t >? 0) categoryId).
    - apply amount_uncategorize.
    - intros t. now rewrite amount_uncategorize. }
  assert (Hexp : Summary.expenses s' = Summary.expenses s).
  { rewrite He, He'. subst db'. rewrite counted_rows_delete.
    unfold negative_total.
    apply (sum_delete (fun t => Z.abs (amount t)) (fun t => amount t <? 0)
             categoryId).
    - intros t. now rewrite amount_uncategorize.
    - intros t. now rewrite amount_uncategorize. }
  split; [exact Hinc|]. split; [exact Hexp|]. split.
  { change (Summary.balance s') with (Summary.income s' - Summary.expenses s').
    change (Summary.balance s) with (Summary.income s - Summary.expenses s).
    now rewrite Hinc, Hexp. }
  split.
  { change (Summary.transactionCount s')
      with (length (Summary.transactions s')).
    change (Summary.transactionCount s) with (length (Summary.transactions s)).
    subst s s' db'. rewrite !summary_transactions, counted_rows_delete.
    apply length_map. }
  split.
  { subst s' db'. rewrite summary_byCategory, counted_rows_delete.
    now rewrite grouped_delete_self. }
  split.
  { subst s s' db'. rewrite !bucket_income_spec, counted_rows_delete.
    unfold positive_total.
    apply (grouped_sum_delete amount (fun t => amount t >? 0) categoryId);
      [assumption | apply amount_uncategorize|].
    intros t. now rewrite amount_uncategorize. }
  split.
  { subst s s' db'. rewrite !bucket_expenses_spec, counted_rows_delete.
    unfold negative_total.
    apply (grouped_sum_delete (fun t => Z.abs (amount t))
             (fun t => amount t <? 0) categoryId); [assumption| |].
    - intros t. now rewrite amount_uncategorize.
    - intros t. now rewrite amount_uncategorize. }
  intros k Hk Hu. subst s s' db'.
  rewrite !summary_byCategory, counted_rows_delete.
  now rewrite grouped_delete_other.
Qed.

Lemma delete_category_to_uncategorized_witness :
  bucket_expenses
    (getMonthlySummary (deleteCategory food_db "cat-food") 2024 3)
    "uncategorized"
  = bucket_expenses (getMonthlySummary food_db 2024 3) "uncategorized"
    + bucket_expenses (getMonthlySummary food_db 2024 3) "cat-food".
Proof.
  assert (Hc : "cat-food" <> "uncategorized") by discriminate.
  destruct (delete_category_to_uncategorized food_db "cat-food" Hc)
    as (_ & _ & _ & _ & _ & _ & _ & Hm).
  destruct (Hm 2024 3) as (_ & _ & _ & _ & _ & _ & He & _).
  exact He.
Defined.

(** ** Creating a category *)

Lemma insert_by_name_perm c l : Permutation (insert_by_name c l) (c :: l).
Proof.
  induction l as [|u l IH]; simpl; [apply Permutation_refl|].
  destruct (c_name c <=? c_name u)%string; [apply Permutation_refl|].
  eapply Permutation_trans; [apply perm_skip, IH | apply perm_swap].
Qed.

Lemma getCategories_perm db : Permutation (getCategories db) (categories db).
Proof.
  unfold getCategories. induction (categories db) as [|c l IH]; simpl;
    [constructor|].
  eapply Permutation_trans; [apply insert_by_name_perm|].
  now apply perm_skip.
Qed.

Lemma insert_by_name_sorted c l :
  Sorted (fun a b => (c_name a <=? c_name b)%string = true) l ->
  Sorted (fun a b => (c_name a <=? c_name b)%string = true)
         (insert_by_name c l).
Proof.
  induction l as [|u l IH]; intros Hs; simpl.
  - repeat constructor.
  - destruct (c_name c <=? c_name u)%string eqn:Hcu.
    + constructor; [assumption | now constructor].
    + inversion Hs as [|? ? Hs' Hhd]; subst.
      assert (Huc : (c_name u <=? c_name c)%string = true).
      { destruct (String.leb_total (c_name u) (c_name c)) as [H|H];
          [assumption | congruence]. }
      constructor; [now apply IH|].
      destruct l as [|v l]; simpl.
      * now constructor.
      * destruct (c_name c <=? c_name v)%string; constructor; [assumption|].
        now inversion Hhd.
Qed.

Lemma existsb_In_map {A} (f : A -> string) (k : string) (l : list A) :
  existsb (fun a => (f a =? k)%string) l = true <-> In k (map f l).
Proof.
  rewrite existsb_exists, in_map_iff. split.
  - intros (a & Ha & He). apply String.eqb_eq in He. eauto.
  - intros (a & He & Ha). exists a. split; [assumption|].
    now apply String.eqb_eq.
Qed.

Lemma filter_all {A} (p : A -> bool) (l : list A) :
  (forall a, In a l -> p a = true) -> filter p l = l.
Proof.
  induction l as [|a l IH]; intros H; [reflexivity|]. cbn [filter].
  rewrite (H a (or_introl eq_refl)). f_equal. apply IH.
  intros b Hb. apply H. now right.
Qed.

(** X16. [getCategories] lists the stored categories, each as often as it
    is stored, in the order of their names.  [createCategory] throws
    exactly when the id or the name is taken; otherwise it appends the
    category it returns, with the default colour when none is given, keeps
    ids and names distinct, leaves transactions, rules and settings alone,
    and a second creation with the same name throws.  Deleting a category
    that no row and no rule refers to, as is one just created with an id
    not used before, gives back the store as it was. *)
Theorem create_category_fresh (db : database) (new_id name : string)
    (color : option string) :
  Permutation (getCategories db) (categories db)
  /\ Sorted (fun a b => (c_name a <=? c_name b)%string = true)
            (getCategories db)
  /\ (createCategory db new_id name color = None <->
      In new_id (map c_id (categories db))
      \/ In name (map c_name (categories db)))
  /\ forall db' c,
       createCategory db new_id name color = Some (db', c) ->
       c = mkCategory new_id name
             (match color with Some x => x | None => "#6366f1" end)
       /\ categories db' = categories db ++ [c]
       /\ (forall x, In x (getCategories db') <->
                     x = c \/ In x (getCategories db))
       /\ (NoDup (map c_id (categories db)) ->
           NoDup (map c_id (categories db')))
       /\ (NoDup (map c_name (categories db)) ->
           NoDup (map c_name (categories db')))
       /\ transactions db' = transactions db
       /\ category_rules db' = category_rules db
       /\ settings db' = settings db
       /\ (forall other_id other_color,
             createCategory db' other_id name other_color = None)
       /\ ((forall t, In t (transactions db) -> category_id t <> Some new_id) ->
           (forall r, In r (category_rules db) -> rule_category_id r <> new_id) ->
           deleteCategory db' new_id = db).
Proof.
  split; [apply getCategories_perm|]. split.
  { unfold getCategories. induction (categories db) as [|c l IH]; simpl;
      [constructor | now apply insert_by_name_sorted]. }
  assert (Hthrow : createCategory db new_id name color = None <->
                   In new_id (map c_id (categories db))
                   \/ In name (map c_name (categories db))).
  { unfold createCategory.
    rewrite <- (existsb_In_map c_id), <- (existsb_In_map c_name).
    destruct (existsb (fun c => (c_id c =? new_id)%string) (categories db)),
             (existsb (fun c => (c_name c =? name)%string) (categories db));
      simpl; intuition congruence. }
  split; [exact Hthrow|].
  intros db' c Hcreate.
  assert (Hfresh : ~ In new_id (map c_id (categories db))
                   /\ ~ In name (map c_name (categories db))).
  { split; intros Hin;
      (assert (Hn : createCategory db new_id name color = None)
         by (apply Hthrow; tauto)); congruence. }
  destruct Hfresh as [Hid Hname].
  unfold createCategory in Hcreate.
  destruct (existsb (fun c => (c_id c =? new_id)%string) (categories db)
            || existsb (fun c => (c_name c =? name)%string) (categories db));
    [discriminate|].
  injection Hcreate as <- <-.
  set (c := mkCategory new_id name
              match color with Some x => x | None => "#6366f1" end).
  split; [reflexivity|]. split; [reflexivity|]. split.
  { intros x. rewrite !In_getCategories.
    cbn [with_categories categories]. rewrite in_app_iff. simpl.
    intuition congruence. }
  split.
  { intros Hnd. cbn [with_categories categories]. rewrite map_app.
    apply NoDup_app; [assumption | repeat constructor; simpl; tauto|].
    intros x Hx [<-|[]]. contradiction. }
  split.
  { intros Hnd. cbn [with_categories categories]. rewrite map_app.
    apply NoDup_app; [assumption | repeat constructor; simpl; tauto|].
    intros x Hx [<-|[]]. contradiction. }
  split; [reflexivity|]. split; [reflexivity|]. split; [reflexivity|]. split.
  { intros other_id other_color. unfold createCategory.
    assert (He : existsb (fun c0 => (c_name c0 =? name)%string)
                   (categories (with_categories db (categories db ++ [c])))
                 = true).
    { apply existsb_In_map. cbn [with_categories categories].
      rewrite map_app, in_app_iff. right. now left. }
    rewrite He, orb_true_r. reflexivity. }
  intros Hrows Hrules. unfold deleteCategory.
  unfold with_transactions, with_category_rules, with_categories.
  cbn [transactions categories category_rules settings].
  destruct db as [rows cats rules sets].
  cbn [transactions categories category_rules settings] in *.
  f_equal.
  - rewrite <- (map_id rows) at 2. apply map_ext_in. intros t Ht.
    unfold has_category. specialize (Hrows t Ht).
    destruct (category_id t) as [x|]; [|reflexivity].
    destruct (String.eqb_spec x new_id); congruence.
  - rewrite filter_app. cbn [filter c_id c]. rewrite String.eqb_refl.
    cbn [negb]. rewrite app_nil_r. apply filter_all. intros a Ha.
    destruct (String.eqb_spec (c_id a) new_id) as [He|]; [|reflexivity].
    exfalso. apply Hid. rewrite <- He. now apply in_map.
  - apply filter_all. intros r Hr. specialize (Hrules r Hr).
    destruct (String.eqb_spec (rule_category_id r) new_id);
      [congruence | reflexivity].
Qed.

(** ** The rules shown to the user *)

Lemma insert_by_pattern_perm v l : Permutation (insert_by_pattern v l) (v :: l).
Proof.
  induction l as [|u l IH]; simpl; [apply Permutation_refl|].
  destruct (v_description_pattern v <=? v_description_pattern u)%string;
    [apply Permutation_refl|].
  eapply Permutation_trans; [apply perm_skip, IH | apply perm_swap].
Qed.

Lemma sort_by_pattern_perm l :
  Permutation (fold_right insert_by_pattern [] l) l.
Proof.
  induction l as [|v l IH]; simpl; [constructor|].
  eapply Permutation_trans; [apply insert_by_pattern_perm|].
  now apply perm_skip.
Qed.

Lemma insert_by_pattern_sorted v l :
  Sorted (fun a b => (v_description_pattern a <=? v_description_pattern b)%string
                     = true) l ->
  Sorted (fun a b => (v_description_pattern a <=? v_description_pattern b)%string
                     = true) (insert_by_pattern v l).
Proof.
  induction l as [|u l IH]; intros Hs; simpl.
  - repeat constructor.
  - destruct (v_description_pattern v <=? v_description_pattern u)%string
      eqn:Hvu.
    + constructor; [assumption | now constructor].
    + inversion Hs as [|? ? Hs' Hhd]; subst.
      assert (Huv : (v_description_pattern u <=? v_description_pattern v)%string
                    = true).
      { destruct (String.leb_total (v_description_pattern u)
                    (v_description_pattern v)) as [H|H];
          [assumption | congruence]. }
      constructor; [now apply IH|].
      destruct l as [|w l]; simpl.
      * now constructor.
      * destruct (v_description_pattern v <=? v_description_pattern w)%string;
          constructor; [assumption|].
        now inversion Hhd.
Qed.

Lemma In_getCategoryRules db v :
  In v (getCategoryRules db) <->
  exists r c,
    In r (category_rules db) /\ In c (categories db)
    /\ rule_category_id r = c_id c
    /\ v = mkRuleView (description_pattern r) (rule_category_id r)
             (c_name c) (c_color c).
Proof.
  unfold getCategoryRules.
  split.
  - intros Hin.
    apply (Permutation_in _ (sort_by_pattern_perm _)) in Hin.
    apply in_flat_map in Hin as (r & Hr & Hin).
    apply in_map_iff in Hin as (c & <- & Hc).
    apply filter_In in Hc as [Hc He]. apply String.eqb_eq in He.
    exists r, c. auto.
  - intros (r & c & Hr & Hc & He & ->).
    apply (Permutation_in _ (Permutation_sym (sort_by_pattern_perm _))).
    apply in_flat_map. exists r. split; [assumption|].
    apply in_map_iff. exists c. split; [reflexivity|].
    apply filter_In. split; [assumption | now apply String.eqb_eq].
Qed.

Lemma one_category_per_id (k : string) (cats : list category) :
  NoDup (map c_id cats) ->
  length (filter (fun c => (k =? c_id c)%string) cats)
  = if existsb (fun c => (k =? c_id c)%string) cats then 1%nat else 0%nat.
Proof.
  induction cats as [|c cats IH]; intros Hnd; [reflexivity|].
  inversion Hnd as [|? ? Hnotin Hnd']; subst. cbn [filter existsb].
  destruct (String.eqb_spec k (c_id c)) as [->|Hne]; cbn [orb length].
  - rewrite IH by assumption.
    destruct (existsb (fun c0 => (c_id c =? c_id c0)%string) cats) eqn:He;
      [|reflexivity].
    exfalso. apply Hnotin. apply existsb_exists in He as (c0 & Hc0 & He).
    apply String.eqb_eq in He. rewrite He. now apply in_map.
  - now apply IH.
Qed.

(** X17. [getCategoryRules] lists, in the order of their patterns, the
    rules whose category is stored, each with the name and the colour of
    its category; a rule whose category is not stored is not listed.  With
    distinct category ids every such rule is listed once.  After
    [deleteCategory] the list has lost the rows of the deleted category and
    no other row. *)
Theorem category_rules_view (db : database) :
  (forall v, In v (getCategoryRules db) <->
     exists r c,
       In r (category_rules db) /\ In c (categories db)
       /\ rule_category_id r = c_id c
       /\ v = mkRuleView (description_pattern r) (rule_category_id r)
                (c_name c) (c_color c))
  /\ Sorted (fun a b =>
               (v_description_pattern a <=? v_description_pattern b)%string
               = true)
            (getCategoryRules db)
  /\ (NoDup (map c_id (categories db)) ->
      length (getCategoryRules db)
      = length (filter (fun r => existsb (fun c => (rule_category_id r
                                                    =? c_id c)%string)
                                         (categories db))
                       (category_rules db)))
  /\ (forall categoryId v,
        In v (getCategoryRules (deleteCategory db categoryId)) <->
        In v (getCategoryRules db) /\ v_category_id v <> categoryId).
Proof.
  split; [intros v; apply In_getCategoryRules|]. split.
  { unfold getCategoryRules.
    induction (flat_map _ (category_rules db)) as [|v l IH]; simpl;
      [constructor | now apply insert_by_pattern_sorted]. }
  split.
  { intros Hnd. unfold getCategoryRules.
    rewrite (Permutation_length (sort_by_pattern_perm _)).
    induction (category_rules db) as [|r rules IH]; [reflexivity|].
    cbn [flat_map filter]. rewrite length_app, length_map, IH.
    rewrite one_category_per_id by assumption.
    destruct (existsb (fun c => (rule_category_id r =? c_id c)%string)
                      (categories db)); reflexivity. }
  intros categoryId v. rewrite !In_getCategoryRules. split.
  - intros (r & c & Hr & Hc & He & ->).
    change (category_rules (deleteCategory db categoryId))
      with (filter (fun r => negb (rule_category_id r =? categoryId)%string)
                   (category_rules db)) in Hr.
    change (categories (deleteCategory db categoryId))
      with (filter (fun c => negb (c_id c =? categoryId)%string)
                   (categories db)) in Hc.
    apply filter_In in Hr as [Hr Hrc]. apply filter_In in Hc as [Hc Hcc].
    split; [exists r, c; auto|]. cbn [v_category_id].
    destruct (String.eqb_spec (rule_category_id r) categoryId);
      [discriminate | assumption].
  - intros [(r & c & Hr & Hc & He & ->) Hne]. cbn [v_category_id] in Hne.
    exists r, c.
    change (category_rules (deleteCategory db categoryId))
      with (filter (fun r => negb (rule_category_id r =? categoryId)%string)
                   (category_rules db)).
    change (categories (deleteCategory db categoryId))
      with (filter (fun c => negb (c_id c =? categoryId)%string)
                   (categories db)).
    rewrite !filter_In. repeat split; try assumption.
    + destruct (String.eqb_spec (rule_category_id r) categoryId);
        [contradiction | reflexivity].
    + rewrite <- He.
      destruct (String.eqb_spec (rule_category_id r) categoryId);
        [contradiction | reflexivity].
Qed.

(** ** The budget against the month's actual figures *)

Lemma sumZ_partition {A} (g : A -> Z) (p : A -> bool) (l : list A) :
  sumZ (map g l)
  = sumZ (map g (filter p l)) + sumZ (map g (filter (fun a => negb (p a)) l)).
Proof.
  induction l as [|a l IH]; [reflexivity|]. cbn [map filter].
  change (sumZ (?x :: ?r)) with (x + sumZ r).
  destruct (p a); cbn [negb map];
    change (sumZ (?x :: ?r)) with (x + sumZ r); lia.
Qed.

Lemma variable_bucket_sum V (entries : list (string * Bucket.t)) :
  NoDup (map fst entries) ->
  sumZ (map (fun e => Bucket.expenses (snd e))
            (filter (fun e => is_variable_category (fst e) V) entries))
  = match V with
    | Some v =>
        match obj_get entries v with
        | Some b => Bucket.expenses b
        | None => 0
        end
    | None => 0
    end.
Proof.
  induction entries as [|[k b] entries IH]; intros Hnd.
  - destruct V; reflexivity.
  - inversion Hnd as [|? ? Hnotin Hnd']; subst. specialize (IH Hnd').
    cbn [filter fst]. destruct V as [v|]; cbn [is_variable_category obj_get].
    + destruct (String.eqb_spec k v) as [->|Hne].
      * cbn [map snd]. change (sumZ (?x :: ?r)) with (x + sumZ r).
        cbn [is_variable_category] in IH. rewrite IH.
        apply obj_get_None in Hnotin. rewrite Hnotin. lia.
      * exact IH.
    + exact IH.
Qed.

Lemma sumZ_map_le {A} (f g : A -> Z) (l : list A) :
  (forall a, In a l -> f a <= g a) -> sumZ (map f l) <= sumZ (map g l).
Proof.
  induction l as [|a l IH]; intros H; [simpl; lia|]. cbn [map].
  change (sumZ (?x :: ?r)) with (x + sumZ r).
  pose proof (H a (or_introl eq_refl)).
  pose proof (IH (fun b Hb => H b (or_intror Hb))). lia.
Qed.

Lemma sumZ_map_nonneg {A} (f : A -> Z) (l : list A) :
  (forall a, In a l -> 0 <= f a) -> 0 <= sumZ (map f l).
Proof.
  induction l as [|a l IH]; intros H; [simpl; lia|]. cbn [map].
  change (sumZ (?x :: ?r)) with (x + sumZ r).
  pose proof (H a (or_introl eq_refl)).
  pose proof (IH (fun b Hb => H b (or_intror Hb))). lia.
Qed.

Lemma occasional_income_nonneg (l : list transaction) :
  0 <= occasional_income l.
Proof.
  unfold occasional_income. induction l as [|t l IH]; simpl; [lia|].
  destruct (Z.gtb_spec (amount t) 0); simpl; [|exact IH].
  destruct (is_occasional_income t); simpl; lia.
Qed.

Lemma income_split (l : list transaction) :
  regular_income l + occasional_income l = positive_total l.
Proof.
  unfold regular_income, occasional_income, positive_total.
  induction l as [|t l IH]; simpl; [lia|].
  destruct (amount t >? 0); simpl; [|exact IH].
  destruct (is_occasional_income t); simpl; lia.
Qed.

Lemma bucket_expenses_nonneg db year month e :
  In e (Summary.byCategory (getMonthlySummary db year month)) ->
  0 <= Bucket.expenses (snd e).
Proof.
  intros Hin. destruct e as [k b].
  pose proof (group_loop (counted_rows db year month)) as [Hnd _].
  rewrite <- breakdown_byCategory in Hnd.
  apply In_obj_get in Hin; [|exact Hnd].
  rewrite summary_byCategory in Hin.
  destruct (grouped_under k (counted_rows db year month)) eqn:Hg;
    [discriminate|].
  injection Hin as <-. cbn [snd bucket_of Bucket.expenses].
  apply negative_total_nonneg.
Qed.

(** X18. The budget is never more generous than the month's actual
    figures allow.  The income it reports as actual is the summary's, and
    is split without remainder into the regular and the occasional part,
    neither negative; the expected income is at least the actual income,
    and at least the user's setting plus the occasional income.  Fixed and
    variable expenses are not negative and together cover the month's
    actual expenses, so that what is said to remain for variable expenses
    never exceeds expected income minus savings goal minus the expenses
    already made. *)
Theorem budget_is_conservative (db : database) (year month : Z) :
  let b := calculateAvailableBudget db year month in
  let s := getMonthlySummary db year month in
  Budget.actualIncome b = Summary.income s
  /\ Budget.actualRegularIncome b + Budget.actualOccasionalIncome b
     = Budget.actualIncome b
  /\ 0 <= Budget.actualRegularIncome b
  /\ 0 <= Budget.actualOccasionalIncome b
  /\ Budget.actualIncome b <= Budget.expectedIncome b
  /\ getExpectedIncome db + Budget.actualOccasionalIncome b
     <= Budget.expectedIncome b
  /\ 0 <= Budget.fixedExpenses b
  /\ 0 <= Budget.variableActual b
  /\ Summary.expenses s <= Budget.fixedExpenses b + Budget.variableActual b
  /\ Budget.remainingForVariable b
     <= Budget.expectedIncome b - Budget.savingsGoal b - Summary.expenses s.
Proof.
  intros b s.
  assert (Hact : Budget.actualIncome b = Summary.income s).
  { subst b s. unfold calculateAvailableBudget.
    destruct (fold_left _ _ (0, 0)). reflexivity. }
  destruct (budget_fields db year month)
    as (Har & Hu & Ha & Hao & Her & Hei & Hinc & Hsav & Hfix & Hvar & Hav
        & Hrem).
  fold b in Har, Hu, Ha, Hao, Her, Hei, Hinc, Hsav, Hfix, Hvar, Hav, Hrem.
  cbv zeta in Hfix, Hvar.
  set (V := option_map c_id
              (find (fun c => (c_name c =? VARIABLE_EXPENSES_NAME)%string)
                    (getCategories db))) in *.
  set (averages := getAllCategoryAverages db year month) in *.
  fold s in Hfix, Hvar.
  pose proof (group_loop (counted_rows db year month)) as [Hnd _].
  rewrite <- breakdown_byCategory in Hnd. fold s in Hnd.
  rewrite fixed_loop_fst in Hfix.
  rewrite (fixed_loop_snd averages V _ Hnd) in Hvar.
  pose proof (variable_bucket_sum V _ Hnd) as Hvs.
  assert (Hvar' : Budget.variableActual b
                  = sumZ (map (fun e => Bucket.expenses (snd e))
                            (filter (fun e => is_variable_category (fst e) V)
                                    (Summary.byCategory s)))).
  { rewrite Hvs, Hvar. destruct V; reflexivity. }
  pose proof (breakdown_expenses db year month) as Hsum. fold s in Hsum.
  unfold bucket_sum in Hsum.
  rewrite (sumZ_partition _ (fun e => is_variable_category (fst e) V)) in Hsum.
  assert (Hnonneg : forall e, In e (Summary.byCategory s) ->
                              0 <= Bucket.expenses (snd e))
    by (intros e; apply bucket_expenses_nonneg).
  assert (Hle : sumZ (map (fun e => Bucket.expenses (snd e))
                        (filter (fun e => negb (is_variable_category (fst e) V))
                                (Summary.byCategory s)))
                <= Budget.fixedExpenses b).
  { rewrite Hfix. cbn [Z.add]. apply sumZ_map_le. intros e _. lia. }
  assert (Hf0 : 0 <= Budget.fixedExpenses b).
  { rewrite Hfix. cbn [Z.add]. apply sumZ_map_nonneg. intros e He.
    apply filter_In in He as [He _]. apply Hnonneg in He. lia. }
  assert (Hv0 : 0 <= Budget.variableActual b).
  { rewrite Hvar'. apply sumZ_map_nonneg. intros e He.
    apply filter_In in He as [He _]. now apply Hnonneg. }
  assert (Hreg : Budget.actualRegularIncome b
                 = regular_income (counted_rows db year month))
    by (rewrite Har; apply getRegularIncomeForMonth_spec).
  assert (Hocc : Budget.actualOccasionalIncome b
                 = occasional_income (counted_rows db year month))
    by (rewrite Hao; apply getOccasionalIncomeForMonth_spec).
  assert (Hsplit : Budget.actualRegularIncome b
                   + Budget.actualOccasionalIncome b = Budget.actualIncome b).
  { rewrite Hact, Hreg, Hocc, income_split. subst s.
    symmetry. apply summary_income_expenses. }
  pose proof (regular_income_nonneg (counted_rows db year month)).
  pose proof (occasional_income_nonneg (counted_rows db year month)).
  unfold expected_income, expected_regular_income in Hei.
  split; [exact Hact|]. split; [exact Hsplit|].
  split; [lia|]. split; [lia|]. split; [lia|]. split; [lia|].
  split; [exact Hf0|]. split; [exact Hv0|]. split; [lia|]. lia.
Qed.

(** ** The order of a month's list *)

Lemma date_leb_total a b : date_leb a b = false -> date_leb b a = true.
Proof.
  unfold date_leb. intros H.
  z_cases; simpl in *; try reflexivity; try discriminate; lia.
Qed.

Lemma date_leb_trans a b c :
  date_leb a b = true -> date_leb b c = true -> date_leb a c = true.
Proof.
  unfold date_leb. intros H1 H2.
  z_cases; simpl in *; try reflexivity; try discriminate; lia.
Qed.

Lemma insert_by_date_desc_sorted t l :
  Sorted (fun a b => date_leb (date_of b) (date_of a) = true) l ->
  Sorted (fun a b => date_leb (date_of b) (date_of a) = true)
         (insert_by_date_desc t l).
Proof.
  induction l as [|u l IH]; intros Hs; simpl.
  - repeat constructor.
  - destruct (date_leb (date_of u) (date_of t)) eqn:Hut.
    + constructor; [assumption | now constructor].
    + inversion Hs as [|? ? Hs' Hhd]; subst.
      apply date_leb_total in Hut.
      constructor; [now apply IH|].
      destruct l as [|v l]; simpl.
      * now constructor.
      * destruct (date_leb (date_of v) (date_of t)); constructor;
          [assumption|]. now inversion Hhd.
Qed.

Lemma order_by_date_desc_sorted l :
  Sorted (fun a b => date_leb (date_of b) (date_of a) = true)
         (order_by_date_desc l).
Proof.
  unfold order_by_date_desc. induction l as [|t r IH]; simpl;
    [constructor | now apply insert_by_date_desc_sorted].
Qed.

Lemma insert_by_date_desc_perm t l :
  Permutation (insert_by_date_desc t l) (t :: l).
Proof.
  induction l as [|u l IH]; simpl; [apply Permutation_refl|].
  destruct (date_leb (date_of u) (date_of t)); [apply Permutation_refl|].
  eapply Permutation_trans; [apply perm_skip, IH | apply perm_swap].
Qed.

Lemma order_by_date_desc_perm l : Permutation (order_by_date_desc l) l.
Proof.
  unfold order_by_date_desc. induction l as [|t l IH]; simpl; [constructor|].
  eapply Permutation_trans; [apply insert_by_date_desc_perm|].
  now apply perm_skip.
Qed.

Lemma filter_perm {A} (p : A -> bool) (l l' : list A) :
  Permutation l l' -> Permutation (filter p l) (filter p l').
Proof.
  induction 1 as [|x l l' _ IH|x y l|l l' l'' _ IH1 _ IH2]; simpl.
  - constructor.
  - destruct (p x); [now apply perm_skip | assumption].
  - destruct (p x), (p y); try apply Permutation_refl. apply perm_swap.
  - eapply Permutation_trans; eassumption.
Qed.

Lemma filter_strongly_sorted {A} (R : A -> A -> Prop) (p : A -> bool) l :
  StronglySorted R l -> StronglySorted R (filter p l).
Proof.
  induction 1 as [|a l Hs IH Hall]; simpl; [constructor|].
  destruct (p a); [|assumption]. constructor; [assumption|].
  rewrite Forall_forall in *. intros x Hx. apply filter_In in Hx as [Hx _].
  now apply Hall.
Qed.

Lemma NoDup_map_filter {A B} (f : A -> B) (p : A -> bool) l :
  NoDup (map f l) -> NoDup (map f (filter p l)).
Proof.
  induction l as [|a l IH]; intros Hnd; simpl; [constructor|].
  inversion Hnd as [|? ? Hnotin Hnd']; subst.
  destruct (p a); [|now apply IH]. simpl. constructor; [|now apply IH].
  intros Hin. apply Hnotin. apply in_map_iff in Hin as (x & Hx & Hin).
  apply filter_In in Hin as [Hin _]. apply in_map_iff. eauto.
Qed.

Lemma filter_length_le {A} (p : A -> bool) l :
  (length (filter p l) <= length l)%nat.
Proof.
  induction l as [|a l IH]; simpl; [lia|]. destruct (p a); simpl; lia.
Qed.

(** X19. The list [getTransactionsByIsraeliMonth] returns is in the order
    of the dates, the latest first, and holds the rows of the table that
    pass the date window and the month filter, each as often as the table
    holds it: with the ids of the table distinct no id comes twice, and the
    list is never longer than the table. *)
Theorem month_list_order (db : database) (year month : Z) :
  let l := getTransactionsByIsraeliMonth db year month in
  Sorted (fun a b => date_leb (date_of b) (date_of a) = true) l
  /\ Permutation l
       (filter (israeli_month_filter year month)
          (filter (fun t =>
                     date_leb (mkDate year month 1) (date_of t)
                     && date_leb (date_of t)
                          (mkDate (fst (next_month year month))
                                  (snd (next_month year month)) 10))
                  (transactions db)))
  /\ (NoDup (map id (transactions db)) -> NoDup (map id l))
  /\ (length l <= getTransactionCount db)%nat.
Proof.
  intros l. subst l. unfold getTransactionsByIsraeliMonth.
  destruct (next_month year month) as [ny nm]. cbn [fst snd].
  set (window := fun t => date_leb (mkDate year month 1) (date_of t)
                          && date_leb (date_of t) (mkDate ny nm 10)).
  assert (Hperm : Permutation
                    (filter (israeli_month_filter year month)
                       (order_by_date_desc (filter window (transactions db))))
                    (filter (israeli_month_filter year month)
                       (filter window (transactions db))))
    by apply filter_perm, order_by_date_desc_perm.
  split.
  { apply StronglySorted_Sorted, filter_strongly_sorted.
    apply Sorted_StronglySorted.
    - intros a b c Hab Hbc. eapply date_leb_trans; eassumption.
    - apply order_by_date_desc_sorted. }
  split; [exact Hperm|]. split.
  { intros Hnd.
    apply (Permutation_NoDup (Permutation_sym (Permutation_map id Hperm))).
    now apply NoDup_map_filter, NoDup_map_filter. }
  rewrite (Permutation_length Hperm). unfold getTransactionCount.
  pose proof (filter_length_le (israeli_month_filter year month)
                (filter window (transactions db))).
  pose proof (filter_length_le window (transactions db)). lia.
Qed.

(** ** Referential integrity

    The foreign key of [category_rules] keeps the rules on stored
    categories; the column [transactions.category_id] has no such key, and
    [setTransactionCategory] writes it before the rule is checked. *)

Lemma rows_ok_map (f : transaction -> transaction) cats rows :
  (forall t, refers_to_stored cats t -> refers_to_stored cats (f t)) ->
  rows_ok cats rows -> rows_ok cats (map f rows).
Proof.
  intros Hf Hrows t' Hin. apply in_map_iff in Hin as (t & <- & Hin).
  apply Hf, Hrows, Hin.
Qed.

Lemma rows_ok_update (f : transaction -> transaction) tid cats rows :
  (forall t, refers_to_stored cats t -> refers_to_stored cats (f t)) ->
  rows_ok cats rows -> rows_ok cats (update_where_id f tid rows).
Proof.
  intros Hf. apply rows_ok_map. intros t Ht.
  destruct (id t =? tid)%string; [now apply Hf | assumption].
Qed.

Lemma refers_same_category cats (f : transaction -> transaction) :
  (forall t, category_id (f t) = category_id t) ->
  forall t, refers_to_stored cats t -> refers_to_stored cats (f t).
Proof. intros Hf t Ht c Hc. rewrite Hf in Hc. now apply Ht. Qed.

Lemma refers_set_category cats (c : option string) t :
  match c with Some x => In x (map c_id cats) | None => True end ->
  refers_to_stored cats (set_category c t).
Proof.
  intros Hc x Hx _. cbn [set_category category_id] in Hx. subst c. exact Hc.
Qed.

Lemma rows_ok_apply_rule cats c p rows :
  In c (map c_id cats) -> rows_ok cats rows ->
  rows_ok cats (apply_rule c p rows).
Proof.
  intros Hc. apply rows_ok_map. intros t Ht.
  destruct ((description t =? p)%string && uncategorized t); [|assumption].
  now apply (refers_set_category cats (Some c)).
Qed.

Lemma rules_ok_upsert cats rules p c :
  In c (map c_id cats) -> rules_ok cats rules ->
  rules_ok cats (upsert_rule rules p c).
Proof.
  intros Hc. induction rules as [|r rules IH]; intros Hrules x Hx.
  - destruct Hx as [<-|[]]. exact Hc.
  - cbn [upsert_rule] in Hx.
    destruct (description_pattern r =? p)%string.
    + destruct Hx as [<-|Hx]; [exact Hc | apply Hrules; now right].
    + destruct Hx as [<-|Hx]; [apply Hrules; now left|].
      apply IH; [|assumption]. intros y Hy. apply Hrules. now right.
Qed.

Lemma rules_ok_delete cats rules p :
  rules_ok cats rules -> rules_ok cats (delete_rule p rules).
Proof.
  intros Hrules r Hr. apply filter_In in Hr as [Hr _]. now apply Hrules.
Qed.

Lemma rows_ok_fold {X} (step : list transaction -> X -> list transaction)
    cats (l : list X) :
  (forall rows x, rows_ok cats rows -> rows_ok cats (step rows x)) ->
  forall rows, rows_ok cats rows -> rows_ok cats (fold_left step l rows).
Proof.
  intros Hstep. induction l as [|x l IH]; intros rows Hrows; [assumption|].
  simpl. apply IH, Hstep, Hrows.
Qed.

Lemma rows_ok_apply_rules cats rules : forall rows applied,
  rules_ok cats rules -> rows_ok cats rows ->
  rows_ok cats (fst (fold_left apply_rule_step rules (rows, applied))).
Proof.
  induction rules as [|r rules IH]; intros rows applied Hrules Hrows;
    [assumption|].
  cbn [fold_left apply_rule_step]. apply IH.
  - intros x Hx. apply Hrules. now right.
  - apply rows_ok_apply_rule; [apply Hrules; now left | assumption].
Qed.

Lemma rows_ok_upsert toLowerCase source cats rows r :
  rows_ok cats rows -> rows_ok cats (upsert_rows toLowerCase source rows r).
Proof.
  intros Hrows. unfold upsert_rows. destruct (find_by_id (r_id r) rows).
  - apply rows_ok_update; [|assumption].
    now apply refers_same_category.
  - intros t Ht. apply in_app_iff in Ht as [Ht|[<-|[]]]; [now apply Hrows|].
    intros c Hc. discriminate.
Qed.

Lemma rows_ok_more cats cats' rows :
  (forall c, In c (map c_id cats) -> In c (map c_id cats')) ->
  rows_ok cats rows -> rows_ok cats' rows.
Proof. intros Hsub Hrows t Ht c Hc Hne. eapply Hsub, Hrows; eassumption. Qed.

Lemma well_referenced_rows db rows :
  well_referenced db -> rows_ok (categories db) rows ->
  well_referenced (with_transactions db rows).
Proof. intros [_ Hrules] Hrows. split; assumption. Qed.

Lemma well_referenced_setTransactionCategory db tid (c : option string) :
  match c with
  | Some x => In x (map c_id (categories db))
  | None => True
  end ->
  well_referenced db ->
  setTransactionCategory db tid c
  = Returned (store_of (setTransactionCategory db tid c))
  /\ well_referenced (store_of (setTransactionCategory db tid c)).
Proof.
  intros Hc [Hrows Hrules].
  assert (Hset : rows_ok (categories db)
                   (update_where_id (set_category c) tid (transactions db))).
  { apply rows_ok_update; [|assumption]. intros t _.
    now apply refers_set_category. }
  unfold setTransactionCategory, insert_rule.
  destruct c as [x|].
  - apply stored_category_exists in Hc as He.
    cbn [with_transactions categories]. rewrite He.
    innermost_cases;
      (split; [reflexivity|]);
      split;
      cbn [store_of with_transactions with_category_rules transactions
           categories category_rules];
      repeat first [ assumption
                   | apply rules_ok_delete
                   | apply rules_ok_upsert
                   | apply rows_ok_apply_rule ].
  - innermost_cases;
      (split; [reflexivity|]);
      split;
      cbn [store_of with_transactions with_category_rules transactions
           categories category_rules];
      repeat first [ assumption
                   | apply rules_ok_delete
                   | apply rules_ok_upsert
                   | apply rows_ok_apply_rule ].
Qed.

Lemma unknown_category_stays db tid t c :
  select_by_id db tid = Some t -> c <> "" ->
  In (set_category (Some c) t)
     (transactions (store_of (setTransactionCategory db tid (Some c)))).
Proof.
  intros Hsel Hc.
  assert (Hin : In (set_category (Some c) t)
                   (update_where_id (set_category (Some c)) tid
                      (transactions db))).
  { apply find_some in Hsel as [Hin He]. apply In_update_where_id.
    exists t. split; [assumption|]. now rewrite He. }
  destruct (String.eqb_spec (description t) "") as [HX|HX];
    [rewrite (setTransactionCategory_blank db tid t c Hsel HX Hc);
     exact Hin|].
  destruct (in_dec string_dec c (map c_id (categories db))) as [Hs|Hs].
  - rewrite (setTransactionCategory_cascade db tid t c Hsel HX Hc Hs).
    cbn [store_of transactions]. apply in_map_iff.
    exists t. split; [|now apply find_some in Hsel as [Hin' _]].
    apply find_some in Hsel as [_ He]. now rewrite He.
  - rewrite (setTransactionCategory_unknown db tid t c Hsel HX Hc Hs).
    exact Hin.
Qed.

(** X20. Referential integrity is an invariant of the database layer.
    When every row's category and every rule's category are stored
    categories, every bucket of every month's summary is keyed by a stored
    category or by 'uncategorized', and the store stays so after deleting
    or creating a category, setting a row's category to a stored one or
    clearing it (calls that return), applying the rules, ingesting a
    batch, setting a flag or a comment, excluding a month, detecting
    transfers again, or writing a setting.  Setting the category of a
    stored row to a non-empty id that is not stored is the one call that
    breaks it, whether it returns or throws. *)
Theorem references_stay_valid (toLowerCase : string -> string)
    (db : database) :
  well_referenced db ->
  (forall year month k,
      In k (map fst (Summary.byCategory (getMonthlySummary db year month))) ->
      known_category db k)
  /\ (forall categoryId, well_referenced (deleteCategory db categoryId))
  /\ (forall new_id name color db' c,
        createCategory db new_id name color = Some (db', c) ->
        well_referenced db')
  /\ (forall tid categoryId,
        In categoryId (map c_id (categories db)) ->
        setTransactionCategory db tid (Some categoryId)
        = Returned (store_of (setTransactionCategory db tid (Some categoryId)))
        /\ well_referenced
             (store_of (setTransactionCategory db tid (Some categoryId))))
  /\ (forall tid,
        setTransactionCategory db tid None
        = Returned (store_of (setTransactionCategory db tid None))
        /\ well_referenced (store_of (setTransactionCategory db tid None)))
  /\ (forall tid t categoryId,
        select_by_id db tid = Some t -> categoryId <> "" ->
        ~ In categoryId (map c_id (categories db)) ->
        ~ well_referenced
            (store_of (setTransactionCategory db tid (Some categoryId))))
  /\ well_referenced (fst (applyCategoryRules db))
  /\ (forall txns source db' n,
        upsertTransactions toLowerCase db txns source = Some (db', n) ->
        well_referenced db')
  /\ (forall tid b,
        well_referenced (setTransactionTransfer db tid b)
        /\ well_referenced (setTransactionInvestment db tid b)
        /\ well_referenced (setTransactionOccasionalIncome db tid b))
  /\ (forall tid comment, well_referenced (setTransactionComment db tid comment))
  /\ (forall year month, well_referenced (fst (excludeAllInMonth db year month)))
  /\ well_referenced (fst (redetectTransfers toLowerCase db))
  /\ (forall key value, well_referenced (setSetting db key value)).
Proof.
  intros Hwr. pose proof Hwr as [Hrows Hrules].
  split.
  { intros year month k Hk.
    destruct (obj_get (Summary.byCategory (getMonthlySummary db year month)) k)
      as [b|] eqn:Hg; [|apply obj_get_None in Hg; contradiction].
    rewrite summary_byCategory in Hg.
    destruct (grouped_under k (counted_rows db year month)) as [|t g] eqn:Hgr;
      [discriminate|].
    assert (Hin : In t (grouped_under k (counted_rows db year month)))
      by (rewrite Hgr; now left).
    apply filter_In in Hin as [Hin Hcat]. apply String.eqb_eq in Hcat.
    apply filter_In in Hin as [Hin _].
    apply In_getTransactionsByIsraeliMonth in Hin as [Hin _].
    specialize (Hrows t Hin). unfold catId_of in Hcat.
    destruct (category_id t) as [x|] eqn:Hx; cbn [truthy_opt or_empty] in Hcat.
    - destruct (truthy x) eqn:Htx; [|now left]. right. subst x.
      assert (Hk' : In k (map c_id (categories db))).
      { apply (Hrows k Hx). intros ->. discriminate. }
      apply in_map_iff in Hk' as (c & Hc & Hin'). eauto.
    - now left. }
  split.
  { intros categoryId. split.
    - intros t' Hin.
      change (transactions (deleteCategory db categoryId))
        with (map (uncategorize categoryId) (transactions db)) in Hin.
      apply in_map_iff in Hin as (t & <- & Hin). specialize (Hrows t Hin).
      intros x Hx Hne.
      change (categories (deleteCategory db categoryId))
        with (filter (fun c => negb (c_id c =? categoryId)%string)
                     (categories db)).
      unfold uncategorize, has_category in Hx.
      destruct (category_id t) as [y|] eqn:Hy; [|congruence].
      destruct (String.eqb_spec y categoryId) as [->|Hyc]; [discriminate|].
      rewrite Hy in Hx. injection Hx as ->.
      specialize (Hrows x Hy Hne).
      apply in_map_iff in Hrows as (c & <- & Hc). apply in_map_iff.
      exists c. split; [reflexivity|]. apply filter_In. split; [assumption|].
      destruct (String.eqb_spec (c_id c) categoryId); [contradiction|].
      reflexivity.
    - intros r Hr.
      change (category_rules (deleteCategory db categoryId))
        with (filter (fun r => negb (rule_category_id r =? categoryId)%string)
                     (category_rules db)) in Hr.
      change (categories (deleteCategory db categoryId))
        with (filter (fun c => negb (c_id c =? categoryId)%string)
                     (categories db)).
      apply filter_In in Hr as [Hr Hne]. specialize (Hrules r Hr).
      apply in_map_iff in Hrules as (c & He & Hc). apply in_map_iff.
      exists c. split; [assumption|]. apply filter_In. split; [assumption|].
      now rewrite He. }
  split.
  { intros new_id name color db' c Hcreate. unfold createCategory in Hcreate.
    destruct (_ || _); [discriminate|]. injection Hcreate as <- <-.
    assert (Hsub : forall x, In x (map c_id (categories db)) ->
                             In x (map c_id (categories db ++
                                     [mkCategory new_id name
                                        match color with
                                        | Some c => c
                                        | None => "#6366f1"
                                        end]))).
    { intros x Hx. rewrite map_app, in_app_iff. now left. }
    split; cbn [with_categories transactions categories category_rules].
    - eapply rows_ok_more; eassumption.
    - intros r Hr. apply Hsub, Hrules, Hr. }
  split.
  { intros tid categoryId Hc.
    now apply (well_referenced_setTransactionCategory db tid (Some categoryId)). }
  split.
  { intros tid.
    now apply (well_referenced_setTransactionCategory db tid None). }
  split.
  { intros tid t categoryId Hsel Hne Hunknown [Hbad _].
    pose proof (unknown_category_stays db tid t categoryId Hsel Hne) as Hin.
    apply Hunknown.
    rewrite <- (proj1 (setTransactionCategory_frame db tid (Some categoryId))).
    exact (Hbad _ Hin categoryId eq_refl Hne). }
  split.
  { unfold applyCategoryRules.
    pose proof (rows_ok_apply_rules (categories db) (category_rules db)
                  (transactions db) O Hrules Hrows) as Hloop.
    destruct (fold_left apply_rule_step (category_rules db)
                (transactions db, O)) as [rows applied].
    now apply well_referenced_rows. }
  split.
  { intros txns source db' n Hup. unfold upsertTransactions in Hup.
    rewrite upsertMany_rows in Hup. injection Hup as <- _.
    apply well_referenced_rows; [assumption|].
    apply rows_ok_fold; [|assumption].
    intros rows r. apply rows_ok_upsert. }
  split.
  { intros tid b. repeat split; try assumption;
      (apply rows_ok_update; [|assumption]);
      now apply refers_same_category. }
  split.
  { intros tid comment. apply well_referenced_rows; [assumption|].
    apply rows_ok_update; [|assumption]. now apply refers_same_category. }
  split.
  { intros year month. rewrite excludeAllInMonth_rows.
    apply well_referenced_rows; [assumption|].
    apply rows_ok_map; [|assumption]. intros t Ht.
    destruct (to_exclude _ t); [|assumption].
    now apply (refers_same_category _ (set_transfer true)). }
  split.
  { apply well_referenced_rows; [assumption|].
    apply rows_ok_fold; [|assumption]. intros rows x Hr.
    apply rows_ok_update; [|assumption]. now apply refers_same_category. }
  intros key value. split; assumption.
Qed.

Lemma references_stay_valid_witness :
  well_referenced (mkDb [] [] [] [])
  /\ well_referenced food_db
  /\ well_referenced (deleteCategory food_db "cat-food").
Proof.
  assert (Hfood : well_referenced food_db).
  { split.
    - intros t [<-|[<-|[]]] c Hc Hne; cbn in Hc; try discriminate;
        injection Hc as <-; now left.
    - intros r [<-|[]]. now left. }
  split; [split; intros x []|]. split; [exact Hfood|].
  destruct (references_stay_valid (fun s => s) food_db Hfood)
    as (_ & Hdel & _).
  exact (Hdel "cat-food").
Defined.

(** ** What one flag changes in the totals *)

Lemma single_change (h : transaction -> Z) (f : transaction -> transaction)
    tid l t :
  NoDup (map id l) -> In t l -> id t = tid ->
  sumZ (map h (update_where_id f tid l)) = sumZ (map h l) - h t + h (f t).
Proof.
  induction l as [|u l IH]; intros Hnd Hin Hid; [destruct Hin|].
  inversion Hnd as [|? ? Hnotin Hnd']; subst.
  cbn [update_where_id map].
  change (sumZ (?x :: ?r)) with (x + sumZ r).
  fold (update_where_id f (id t) l).
  destruct Hin as [->|Hin].
  - rewrite String.eqb_refl, update_where_id_absent by assumption. lia.
  - destruct (String.eqb_spec (id u) (id t)) as [He|He].
    + exfalso. apply Hnotin. rewrite He. now apply in_map.
    + rewrite (IH Hnd' Hin eq_refl). lia.
Qed.

Lemma month_member_keeps f year month t :
  keeps_attribution f ->
  month_member year month (f t) = month_member year month t.
Proof.
  intros Hf. unfold month_member.
  rewrite (israeli_month_filter_keeps f year month t Hf).
  destruct (Hf t) as (-> & _). reflexivity.
Qed.

Lemma month_wsum_update f p w db t year month :
  keeps_attribution f ->
  NoDup (map id (transactions db)) ->
  In t (getTransactionsByIsraeliMonth db year month) ->
  wsum p w (getTransactionsByIsraeliMonth
              (with_transactions db
                 (update_where_id f (id t) (transactions db))) year month)
  = wsum p w (getTransactionsByIsraeliMonth db year month)
    - (if p t then w t else 0) + (if p (f t) then w (f t) else 0).
Proof.
  intros Hf Hnd Hin. apply In_month_list in Hin as [Hin Hm].
  rewrite !month_list_wsum. cbn [with_transactions transactions].
  unfold wsum.
  rewrite (single_change _ f (id t) (transactions db) t Hnd Hin eq_refl).
  rewrite (month_member_keeps f year month t Hf), Hm. reflexivity.
Qed.

Lemma regular_income_wsum db year month :
  getRegularIncomeForMonth db year month
  = wsum (fun t => is_counted t
                   && ((amount t >? 0) && negb (is_occasional_income t)))
         amount (getTransactionsByIsraeliMonth db year month).
Proof.
  rewrite getRegularIncomeForMonth_spec. unfold regular_income, counted_rows.
  now rewrite sumZ_filter_wsum, wsum_filter.
Qed.

Lemma occasional_income_wsum db year month :
  getOccasionalIncomeForMonth db year month
  = wsum (fun t => is_counted t
                   && ((amount t >? 0) && is_occasional_income t))
         amount (getTransactionsByIsraeliMonth db year month).
Proof.
  rewrite getOccasionalIncomeForMonth_spec.
  unfold occasional_income, counted_rows.
  now rewrite sumZ_filter_wsum, wsum_filter.
Qed.

Ltac one_row_totals Htr Hinv :=
  unfold is_counted, is_investment_only;
  cbn [set_transfer set_investment set_occasional is_transfer is_investment
       amount is_occasional_income];
  rewrite ?Htr, ?Hinv; cbn [negb andb];
  z_cases; cbn [negb andb]; lia.

(** X21. On a table with distinct ids, for a counted row of a month's
    list: marking it a transfer or an investment takes exactly its amount
    out of the month's income (a positive amount) or expenses (a negative
    one), the investment total growing by its absolute value in the second
    case; marking it occasional income leaves the month's income as it is
    and moves a positive amount from the regular to the occasional
    income. *)
Theorem one_row_changes_totals (db : database) (t : transaction)
    (year month : Z) :
  NoDup (map id (transactions db)) ->
  In t (getTransactionsByIsraeliMonth db year month) ->
  is_counted t = true ->
  let s := getMonthlySummary db year month in
  let sT := getMonthlySummary (setTransactionTransfer db (id t) true)
              year month in
  let sI := getMonthlySummary (setTransactionInvestment db (id t) true)
              year month in
  let dbO := setTransactionOccasionalIncome db (id t) true in
  Summary.income sT = Summary.income s - Z.max (amount t) 0
  /\ Summary.expenses sT = Summary.expenses s - Z.max (- amount t) 0
  /\ Summary.investmentTotal sT = Summary.investmentTotal s
  /\ Summary.income sI = Summary.income s - Z.max (amount t) 0
  /\ Summary.expenses sI = Summary.expenses s - Z.max (- amount t) 0
  /\ Summary.investmentTotal sI = Summary.investmentTotal s + Z.abs (amount t)
  /\ Summary.income (getMonthlySummary dbO year month) = Summary.income s
  /\ Summary.expenses (getMonthlySummary dbO year month) = Summary.expenses s
  /\ (is_occasional_income t = false ->
      getRegularIncomeForMonth dbO year month
      = getRegularIncomeForMonth db year month - Z.max (amount t) 0
      /\ getOccasionalIncomeForMonth dbO year month
         = getOccasionalIncomeForMonth db year month + Z.max (amount t) 0).
Proof.
  intros Hnd Hin Hc s sT sI dbO.
  assert (Htr : is_transfer t = false /\ is_investment t = false).
  { unfold is_counted in Hc. destruct (is_transfer t), (is_investment t);
      simpl in Hc; try discriminate. now split. }
  destruct Htr as [Htr Hinv].
  assert (HkT : keeps_attribution (set_transfer true))
    by (intros u; simpl; tauto).
  assert (HkI : keeps_attribution (set_investment true))
    by (intros u; simpl; tauto).
  assert (HkO : keeps_attribution (set_occasional true))
    by (intros u; simpl; tauto).
  destruct (summary_totals db year month) as (Hi & He & Hv & _).
  destruct (summary_totals (setTransactionTransfer db (id t) true) year month)
    as (HiT & HeT & HvT & _).
  destruct (summary_totals (setTransactionInvestment db (id t) true) year month)
    as (HiI & HeI & HvI & _).
  destruct (summary_totals dbO year month) as (HiO & HeO & _).
  cbv zeta in *. fold s in Hi, He, Hv. fold sT in HiT, HeT, HvT.
  fold sI in HiI, HeI, HvI.
  unfold setTransactionTransfer in HiT, HeT, HvT.
  unfold setTransactionInvestment in HiI, HeI, HvI.
  unfold dbO, setTransactionOccasionalIncome in HiO, HeO.
  rewrite (month_wsum_update _ _ _ db t year month HkT Hnd Hin) in HiT.
  rewrite (month_wsum_update _ _ _ db t year month HkT Hnd Hin) in HeT.
  rewrite (month_wsum_update _ _ _ db t year month HkT Hnd Hin) in HvT.
  rewrite (month_wsum_update _ _ _ db t year month HkI Hnd Hin) in HiI.
  rewrite (month_wsum_update _ _ _ db t year month HkI Hnd Hin) in HeI.
  rewrite (month_wsum_update _ _ _ db t year month HkI Hnd Hin) in HvI.
  rewrite (month_wsum_update _ _ _ db t year month HkO Hnd Hin) in HiO.
  rewrite (month_wsum_update _ _ _ db t year month HkO Hnd Hin) in HeO.
  rewrite <- Hi in HiT, HiI, HiO. rewrite <- He in HeT, HeI, HeO.
  rewrite <- Hv in HvT, HvI.
  split; [rewrite HiT; one_row_totals Htr Hinv|].
  split; [rewrite HeT; one_row_totals Htr Hinv|].
  split; [rewrite HvT; one_row_totals Htr Hinv|].
  split; [rewrite HiI; one_row_totals Htr Hinv|].
  split; [rewrite HeI; one_row_totals Htr Hinv|].
  split; [rewrite HvI; one_row_totals Htr Hinv|].
  split; [unfold dbO, setTransactionOccasionalIncome; rewrite HiO;
          one_row_totals Htr Hinv|].
  split; [unfold dbO, setTransactionOccasionalIncome; rewrite HeO;
          one_row_totals Htr Hinv|].
  intros Hocc. rewrite !regular_income_wsum, !occasional_income_wsum.
  unfold dbO, setTransactionOccasionalIncome.
  rewrite (month_wsum_update _ _ _ db t year month HkO Hnd Hin).
  rewrite (month_wsum_update _ _ _ db t year month HkO Hnd Hin).
  split; rewrite ?Hocc; one_row_totals Htr Hinv.
Qed.

Lemma one_row_changes_totals_witness :
  Summary.income
    (getMonthlySummary
       (setTransactionTransfer march_db (id march_salary) true) 2024 3)
  = Summary.income (getMonthlySummary march_db 2024 3) - 1300000.
Proof.
  assert (Hnd : NoDup (map id (transactions march_db))).
  { repeat constructor; simpl; intuition discriminate. }
  assert (Hin : In march_salary (getTransactionsByIsraeliMonth march_db 2024 3))
    by (vm_compute; tauto).
  destruct (one_row_changes_totals march_db march_salary 2024 3 Hnd Hin
              eq_refl) as (Hi & _).
  exact Hi.
Defined.
